(** * MT25033 PA02: the per-connection I/O engine

    A shallow embedding of the three transmit/receive strategies
    (two-copy [send]/[recv], one-copy [sendmsg]/[recvmsg] over an
    [iovec], and [MSG_ZEROCOPY] with fallback), of the Message model of
    [MT25033_Part_A_Common.h] and of the metrics aggregation done by
    the [main] functions.

    Conventions.
    - [size_t] and [unsigned long] are 64-bit (LP64); they are values of
      [Z] and every wrap-around is written with [wrap64].
    - A [char] is a [Byte.byte].
    - The C heap is a finite map from block addresses to blocks; [malloc]
      asks an allocator oracle whether it succeeds and what the
      indeterminate initial bytes are.  Undefined behaviour (a store or a
      copy outside a block, a [free] of a dead block) is the result
      [None] of the heap monad.
    - [double] arithmetic is kept abstract (class [FloatOps]): no law of
      real arithmetic is assumed of it.
    - The transport is an environment: for every loop iteration that the
      loop condition [running && get_time_sec() < end_time] lets start,
      it says what the kernel answers to the call(s) of that iteration. *)

From Stdlib Require Import ZArith List Lia Bool QArith.
From stdpp Require Import base option list gmap fin_maps.
Import ListNotations.
Abbreviation byte := Byte.byte.

Local Open Scope Z_scope.

(** ** Machine integers *)

Definition ULONG_MODULUS : Z := 2 ^ 64.

(** Reduction of a mathematical integer to [size_t] / [unsigned long]. *)
Definition wrap64 (x : Z) : Z := x mod ULONG_MODULUS.

Definition NUM_FIELDS : Z := 8.

(** [sizeof(Message)]: eight pointers. *)
Definition sizeof_Message : Z := 64.
(** [sizeof(SerializedMessage)]: two [size_t] before the flexible array. *)
Definition sizeof_SerializedMessage : Z := 16.
(** [sizeof(pthread_t)]: an [unsigned long]. *)
Definition sizeof_pthread_t : Z := 8.
(** [sizeof(ServerThreadArgs)]: two [int], a [size_t], an [int] and its
    padding, two [unsigned long], a [double]. *)
Definition sizeof_ServerThreadArgs : Z := 48.

(** [errno] values of Linux that the sources test. *)
Definition EINTR : Z := 4.
Definition EAGAIN : Z := 11.
Definition EWOULDBLOCK : Z := 11.
Definition EINVAL : Z := 22.
Definition EPIPE : Z := 32.
Definition ECONNRESET : Z := 104.
Definition ENOBUFS : Z := 105.

Definition MSG_ZEROCOPY : Z := 67108864. (* 0x4000000 *)

(** ** The heap *)

Definition loc := positive.
Definition ptr := option loc.
Definition NULL : ptr := None.

Definition is_null (p : ptr) : bool :=
  match p with None => true | Some _ => false end.

Record Message := mkMessage {
  field1 : ptr; field2 : ptr; field3 : ptr; field4 : ptr;
  field5 : ptr; field6 : ptr; field7 : ptr; field8 : ptr
}.

Record SerializedMessage := mkSerializedMessage {
  total_size : Z;
  field_size : Z;
  data : list byte
}.

Inductive block :=
  | Buf (bytes : list byte)
  | MessageBlock (m : Message)
  | SerializedBlock (s : SerializedMessage).

(** What a successful [malloc] finds in the fresh block. *)
Definition junk := nat -> byte.

Definition junk_bytes (j : junk) (n : Z) : list byte :=
  map j (seq 0 (Z.to_nat n)).

Record world := mkWorld {
  heap : gmap loc block;
  supply : nat -> option junk; (* outcome of the k-th call of malloc *)
  served : nat                 (* number of calls of malloc so far *)
}.

Definition heapM (A : Type) : Type := world -> option (A * world).

Definition ret {A} (a : A) : heapM A := fun w => Some (a, w).

Definition bind {A B} (m : heapM A) (f : A -> heapM B) : heapM B :=
  fun w => match m w with
           | Some r => f (fst r) (snd r)
           | None => None
           end.

Declare Scope heap_scope.
Delimit Scope heap_scope with heap.
Notation "x <- m ;; k" := (bind m (fun x => k))
  (at level 100, m at next level, right associativity) : heap_scope.
Notation "m ;;; k" := (bind m (fun _ => k))
  (at level 100, right associativity) : heap_scope.
Local Open Scope heap_scope.

Definition with_heap (w : world) (h : gmap loc block) : world :=
  {| heap := h; supply := supply w; served := served w |}.

(** A step that touches no block: undefined, or a value. *)
Definition defined {A} (o : option A) : heapM A := fun w =>
  match o with
  | Some a => Some (a, w)
  | None => None
  end.

(** [malloc(size)]: the pure transition, then the monadic wrapper. *)
Definition malloc_step (size : Z) (w : world) : ptr * world :=
  match supply w (served w) with
  | None =>
      (NULL, {| heap := heap w; supply := supply w; served := S (served w) |})
  | Some j =>
      let l := fresh (dom (heap w)) in
      (Some l, {| heap := <[l := Buf (junk_bytes j size)]> (heap w);
                  supply := supply w; served := S (served w) |})
  end.

Definition malloc (size : Z) : heapM ptr := fun w => Some (malloc_step size w).

(** [free(p)]: nothing for [NULL]; undefined on a dead block. *)
Definition free (p : ptr) : heapM unit := fun w =>
  match p with
  | None => Some (tt, w)
  | Some l =>
      match heap w !! l with
      | Some _ => Some (tt, with_heap w (delete l (heap w)))
      | None => None
      end
  end.

(** [memset(p, c, n)] on a character buffer. *)
Definition memset (p : ptr) (c : byte) (n : Z) : heapM unit := fun w =>
  match p with
  | None => None
  | Some l =>
      match heap w !! l with
      | Some (Buf bytes) =>
          if Z.of_nat (length bytes) <? n then None
          else Some (tt, with_heap w
                 (<[l := Buf (repeat c (Z.to_nat n) ++ drop (Z.to_nat n) bytes)]> (heap w)))
      | _ => None
      end
  end.

(** The eight stores [msg->field_i = ...] into a block of
    [sizeof(Message)] bytes. *)
Definition store_Message (p : ptr) (m : Message) : heapM unit := fun w =>
  match p with
  | None => None
  | Some l =>
      match heap w !! l with
      | Some (Buf bytes) =>
          if Z.of_nat (length bytes) <? sizeof_Message then None
          else Some (tt, with_heap w (<[l := MessageBlock m]> (heap w)))
      | Some (MessageBlock _) =>
          Some (tt, with_heap w (<[l := MessageBlock m]> (heap w)))
      | _ => None
      end
  end.

Definition load_Message (p : ptr) : heapM Message := fun w =>
  match p with
  | None => None
  | Some l =>
      match heap w !! l with
      | Some (MessageBlock m) => Some (m, w)
      | _ => None
      end
  end.

Definition chr_A : byte := Byte.x41.
Definition chr_B : byte := Byte.x42.
Definition chr_C : byte := Byte.x43.
Definition chr_D : byte := Byte.x44.
Definition chr_E : byte := Byte.x45.
Definition chr_F : byte := Byte.x46.
Definition chr_G : byte := Byte.x47.
Definition chr_H : byte := Byte.x48.

(** [create_message] of MT25033_Part_A_Common.h. *)
Definition create_message (field_size : Z) : heapM ptr :=
  msg <- malloc sizeof_Message ;;
  if is_null msg then ret NULL
  else
    f1 <- malloc field_size ;;
    f2 <- malloc field_size ;;
    f3 <- malloc field_size ;;
    f4 <- malloc field_size ;;
    f5 <- malloc field_size ;;
    f6 <- malloc field_size ;;
    f7 <- malloc field_size ;;
    f8 <- malloc field_size ;;
    store_Message msg (mkMessage f1 f2 f3 f4 f5 f6 f7 f8) ;;;
    if is_null f1 || is_null f2 || is_null f3 || is_null f4 ||
       is_null f5 || is_null f6 || is_null f7 || is_null f8
    then
      free f1 ;;; free f2 ;;; free f3 ;;; free f4 ;;;
      free f5 ;;; free f6 ;;; free f7 ;;; free f8 ;;;
      free msg ;;;
      ret NULL
    else
      memset f1 chr_A field_size ;;;
      memset f2 chr_B field_size ;;;
      memset f3 chr_C field_size ;;;
      memset f4 chr_D field_size ;;;
      memset f5 chr_E field_size ;;;
      memset f6 chr_F field_size ;;;
      memset f7 chr_G field_size ;;;
      memset f8 chr_H field_size ;;;
      ret msg.

(** [free_message] of MT25033_Part_A_Common.h. *)
Definition free_message (msg : ptr) : heapM unit :=
  if is_null msg then ret tt
  else
    m <- load_Message msg ;;
    free (field1 m) ;;; free (field2 m) ;;; free (field3 m) ;;;
    free (field4 m) ;;; free (field5 m) ;;; free (field6 m) ;;;
    free (field7 m) ;;; free (field8 m) ;;;
    free msg.

(** The two stores [smsg->total_size = ...; smsg->field_size = ...] into
    a fresh block: the bytes after the header are the flexible array. *)
Definition store_header (p : ptr) (total field : Z) : heapM unit := fun w =>
  match p with
  | None => None
  | Some l =>
      match heap w !! l with
      | Some (Buf bytes) =>
          if Z.of_nat (length bytes) <? sizeof_SerializedMessage then None
          else Some (tt, with_heap w
                 (<[l := SerializedBlock
                           {| total_size := total; field_size := field;
                              data := drop (Z.to_nat sizeof_SerializedMessage) bytes |}]>
                    (heap w)))
      | _ => None
      end
  end.

(** [memcpy(smsg->data + off, src, n)]. *)
Definition memcpy_data (dst : ptr) (off : Z) (src : ptr) (n : Z) : heapM unit :=
  fun w =>
  match dst, src with
  | Some d, Some s =>
      match heap w !! d, heap w !! s with
      | Some (SerializedBlock sm), Some (Buf bytes) =>
          if (Z.of_nat (length bytes) <? n)
             || (Z.of_nat (length (data sm)) <? off + n)
          then None
          else Some (tt, with_heap w
                 (<[d := SerializedBlock
                           {| total_size := total_size sm;
                              field_size := field_size sm;
                              data := take (Z.to_nat off) (data sm)
                                      ++ take (Z.to_nat n) bytes
                                      ++ drop (Z.to_nat (off + n)) (data sm) |}]>
                    (heap w)))
      | _, _ => None
      end
  | _, _ => None
  end.

Definition load_Serialized (p : ptr) : heapM SerializedMessage := fun w =>
  match p with
  | None => None
  | Some l =>
      match heap w !! l with
      | Some (SerializedBlock s) => Some (s, w)
      | _ => None
      end
  end.

(** [serialize_message] of MT25033_Part_A_Common.h.  The cursor [ptr]
    is the offset into [smsg->data]. *)
Definition serialize_message (msg : ptr) (field_size : Z) : heapM ptr :=
  let total_data_size := wrap64 (NUM_FIELDS * field_size) in
  let total_size := wrap64 (sizeof_SerializedMessage + total_data_size) in
  smsg <- malloc total_size ;;
  if is_null smsg then ret NULL
  else
    store_header smsg total_data_size field_size ;;;
    m <- load_Message msg ;;
    let ptr0 := 0 in
    memcpy_data smsg ptr0 (field1 m) field_size ;;;
    let ptr1 := ptr0 + field_size in
    memcpy_data smsg ptr1 (field2 m) field_size ;;;
    let ptr2 := ptr1 + field_size in
    memcpy_data smsg ptr2 (field3 m) field_size ;;;
    let ptr3 := ptr2 + field_size in
    memcpy_data smsg ptr3 (field4 m) field_size ;;;
    let ptr4 := ptr3 + field_size in
    memcpy_data smsg ptr4 (field5 m) field_size ;;;
    let ptr5 := ptr4 + field_size in
    memcpy_data smsg ptr5 (field6 m) field_size ;;;
    let ptr6 := ptr5 + field_size in
    memcpy_data smsg ptr6 (field7 m) field_size ;;;
    let ptr7 := ptr6 + field_size in
    memcpy_data smsg ptr7 (field8 m) field_size ;;;
    ret smsg.

(** The byte pattern of a Transfer Unit: [s] bytes of ['A'], then of
    ['B'], ..., then of ['H']. *)
Definition pattern (s : Z) : list byte :=
  repeat chr_A (Z.to_nat s) ++ repeat chr_B (Z.to_nat s) ++
  repeat chr_C (Z.to_nat s) ++ repeat chr_D (Z.to_nat s) ++
  repeat chr_E (Z.to_nat s) ++ repeat chr_F (Z.to_nat s) ++
  repeat chr_G (Z.to_nat s) ++ repeat chr_H (Z.to_nat s).

(** ** Doubles, transport answers, thread records *)

(** The [double] operations the sources use.  [d_of_Z] is the
    conversion of an [int] or [unsigned long] operand. *)
Class FloatOps := {
  double : Type;
  d_zero : double;
  d_add : double -> double -> double;
  d_sub : double -> double -> double;
  d_mul : double -> double -> double;
  d_div : double -> double -> double;
  d_leb : double -> double -> bool;
  d_ltb : double -> double -> bool;
  d_of_Z : Z -> double
}.

(** Exact rational arithmetic, used to run the model on examples. *)
Definition Q_FloatOps : FloatOps := {|
  double := Q;
  d_zero := 0%Q;
  d_add := Qplus;
  d_sub := Qminus;
  d_mul := Qmult;
  d_div := Qdiv;
  d_leb := Qle_bool;
  d_ltb := fun x y => negb (Qle_bool y x);
  d_of_Z := inject_Z
|}.

(** The rationals with a NaN: every operation on the NaN gives the NaN,
    every comparison with it is false, and so is a division by zero.
    Used to run the model on examples in which not every double is
    ordered. *)
Definition lift_nan (f : Q -> Q -> Q) (x y : option Q) : option Q :=
  match x, y with
  | Some a, Some b => Some (f a b)
  | _, _ => None
  end.

Definition test_nan (f : Q -> Q -> bool) (x y : option Q) : bool :=
  match x, y with
  | Some a, Some b => f a b
  | _, _ => false
  end.

Definition NaN_FloatOps : FloatOps := {|
  double := option Q;
  d_zero := Some 0%Q;
  d_add := lift_nan Qplus;
  d_sub := lift_nan Qminus;
  d_mul := lift_nan Qmult;
  d_div := fun x y =>
    match y with
    | Some b => if Qeq_bool b 0 then None else lift_nan Qdiv x y
    | None => None
    end;
  d_leb := test_nan Qle_bool;
  d_ltb := test_nan (fun a b => negb (Qle_bool b a));
  d_of_Z := fun z => Some (inject_Z z)
|}.

(** What a transport call returned, and [errno] after it. *)
Record sysret := mkSysret { rv : Z; err : Z }.

Inductive syscall :=
  | SYS_send (fd : Z) (buf : ptr) (len : Z) (flags : Z)
  | SYS_sendmsg (fd : Z) (iov : list (ptr * Z)) (flags : Z)
  | SYS_recv (fd : Z) (len : Z) (flags : Z)
  | SYS_recvmsg (fd : Z) (iov_len : list Z) (flags : Z).

(** How a worker left its loop.  [NotStarted]: the thread exited before
    the loop. *)
Inductive exit_reason :=
  | Expired
  | PeerClosed
  | IOError (e : Z)
  | NotStarted.

(** The run of a worker: its thread-argument record at the end, the
    transport calls it issued with their answers, the number of loop
    iterations it started, and how the loop ended. *)
Record run (A : Type) := mkRun {
  final : A;
  calls : list (syscall * sysret);
  iterations : nat;
  exit : exit_reason
}.
Arguments mkRun {A}.
Arguments final {A}.
Arguments calls {A}.
Arguments iterations {A}.
Arguments exit {A}.

(** One more iteration in front of the rest of a run. *)
Definition iterate {A} (cs : list (syscall * sysret)) (r : run A) : run A :=
  mkRun (final r) (cs ++ calls r) (S (iterations r)) (exit r).

Definition not_started {A} (a : A) : run A := mkRun a [] 0%nat NotStarted.

Section Records.
Context `{FloatOps}.

Record ServerThreadArgs := mkServerThreadArgs {
  client_fd : Z;
  sa_thread_id : Z;
  sa_msg_size : Z;
  sa_duration : Z;
  bytes_sent : Z;
  messages_sent : Z;
  sa_elapsed_time : double
}.

Record ClientThreadArgs := mkClientThreadArgs {
  ca_thread_id : Z;
  ca_msg_size : Z;
  ca_duration : Z;
  bytes_received : Z;
  messages_received : Z;
  total_latency : double;
  ca_elapsed_time : double
}.

Record Metrics := mkMetrics {
  total_bytes : Z;
  total_messages : Z;
  total_time : double;
  throughput_gbps : double;
  avg_latency_us : double
}.

(** [calc_throughput_gbps] of MT25033_Part_A_Common.h. *)
Definition calc_throughput_gbps (bytes : Z) (seconds : double) : double :=
  if d_leb seconds d_zero then d_zero
  else d_div (d_mul (d_of_Z bytes) (d_of_Z 8))
             (d_mul seconds (d_of_Z 1000000000)).

(** [args->bytes_sent += sent; args->messages_sent++]. *)
Definition count_sent (args : ServerThreadArgs) (sent : Z) : ServerThreadArgs :=
  {| client_fd := client_fd args; sa_thread_id := sa_thread_id args;
     sa_msg_size := sa_msg_size args; sa_duration := sa_duration args;
     bytes_sent := wrap64 (bytes_sent args + sent);
     messages_sent := wrap64 (messages_sent args + 1);
     sa_elapsed_time := sa_elapsed_time args |}.

(** [args->bytes_sent = 0; args->messages_sent = 0]. *)
Definition reset_sent (args : ServerThreadArgs) : ServerThreadArgs :=
  {| client_fd := client_fd args; sa_thread_id := sa_thread_id args;
     sa_msg_size := sa_msg_size args; sa_duration := sa_duration args;
     bytes_sent := 0; messages_sent := 0;
     sa_elapsed_time := sa_elapsed_time args |}.

Definition set_sa_elapsed_time (args : ServerThreadArgs) (t : double) :
  ServerThreadArgs :=
  {| client_fd := client_fd args; sa_thread_id := sa_thread_id args;
     sa_msg_size := sa_msg_size args; sa_duration := sa_duration args;
     bytes_sent := bytes_sent args; messages_sent := messages_sent args;
     sa_elapsed_time := t |}.

(** [args->bytes_received += received; args->messages_received++;
    args->total_latency += (msg_end - msg_start)]. *)
Definition count_received (args : ClientThreadArgs) (received : Z)
    (msg_start msg_end : double) : ClientThreadArgs :=
  {| ca_thread_id := ca_thread_id args; ca_msg_size := ca_msg_size args;
     ca_duration := ca_duration args;
     bytes_received := wrap64 (bytes_received args + received);
     messages_received := wrap64 (messages_received args + 1);
     total_latency := d_add (total_latency args) (d_sub msg_end msg_start);
     ca_elapsed_time := ca_elapsed_time args |}.

Definition reset_received (args : ClientThreadArgs) : ClientThreadArgs :=
  {| ca_thread_id := ca_thread_id args; ca_msg_size := ca_msg_size args;
     ca_duration := ca_duration args;
     bytes_received := 0; messages_received := 0; total_latency := d_zero;
     ca_elapsed_time := ca_elapsed_time args |}.

Definition set_ca_elapsed_time (args : ClientThreadArgs) (t : double) :
  ClientThreadArgs :=
  {| ca_thread_id := ca_thread_id args; ca_msg_size := ca_msg_size args;
     ca_duration := ca_duration args;
     bytes_received := bytes_received args;
     messages_received := messages_received args;
     total_latency := total_latency args;
     ca_elapsed_time := t |}.

(** The environment of a server worker: the clock at [start_time] and
    after the loop, and one transport answer per iteration that the loop
    condition lets start. *)
Record server_env (answer : Type) := mkServerEnv {
  setsockopt_rv : Z;           (* SO_ZEROCOPY, A3 only *)
  start_time : double;
  trace : list answer;
  finish_time : double
}.

(** One iteration of a receiving loop: the two [get_time_us] readings
    around the call and the answer of the call. *)
Record recv_event := mkRecvEvent {
  msg_start : double;
  received : sysret;
  msg_end : double
}.

Record client_env := mkClientEnv {
  socket_rv : Z;
  inet_pton_rv : Z;
  connect_rv : Z;
  alloc_ok : nat -> bool;      (* k-th buffer allocation of the thread *)
  c_start_time : double;
  c_trace : list recv_event;
  c_finish_time : double
}.

End Records.

Arguments setsockopt_rv {_ _}.
Arguments start_time {_ _}.
Arguments trace {_ _}.
Arguments finish_time {_ _}.
Arguments mkServerEnv {_ _}.

(** The [iovec] over the eight fields of a Message. *)
Definition iov_of_message (m : Message) (field_size : Z) : list (ptr * Z) :=
  [ (field1 m, field_size); (field2 m, field_size);
    (field3 m, field_size); (field4 m, field_size);
    (field5 m, field_size); (field6 m, field_size);
    (field7 m, field_size); (field8 m, field_size) ].

(** ** Servers *)

(** The [main] of the three servers: the same text, around its own
    [handle_client]. *)
Record accept_event := mkAcceptEvent {
  accept_rv : Z;            (* client_fd, or negative *)
  pthread_create_rv : Z
}.

Section ServerMain.
Context `{FloatOps} {answer : Type}.
Variable handle_client :
  ServerThreadArgs -> server_env answer -> heapM (run ServerThreadArgs).

Record server_totals := mkServerTotals {
  st_total_bytes : Z;
  st_total_messages : Z;
  st_max_time : double
}.

(** The four stores into [thread_args[num_threads]]; the slot comes from
    [malloc], so its other fields keep their indeterminate contents. *)
Definition init_slot (slot : ServerThreadArgs) (fd tid msg_size duration : Z) :
    ServerThreadArgs :=
  {| client_fd := fd; sa_thread_id := tid; sa_msg_size := msg_size;
     sa_duration := duration;
     bytes_sent := bytes_sent slot; messages_sent := messages_sent slot;
     sa_elapsed_time := sa_elapsed_time slot |}.

(** The accept loop on arrays that exist: the thread-argument records
    of the threads it created, in slot order. *)
Fixpoint accept_loop (msg_size duration : Z) (slots : nat -> ServerThreadArgs)
    (max_threads : nat) (thread_id : Z) (num_threads : nat)
    (evs : list accept_event) : list ServerThreadArgs :=
  match evs with
  | [] => []
  | ev :: rest =>
      if accept_rv ev <? 0 then
        accept_loop msg_size duration slots max_threads thread_id num_threads rest
      else if (max_threads <=? num_threads)%nat then
        accept_loop msg_size duration slots max_threads thread_id num_threads rest
      else
        let a := init_slot (slots num_threads) (accept_rv ev) thread_id
                           msg_size duration in
        if negb (pthread_create_rv ev =? 0) then
          accept_loop msg_size duration slots max_threads (thread_id + 1)
                      num_threads rest
        else
          a :: accept_loop msg_size duration slots max_threads (thread_id + 1)
                           (S num_threads) rest
  end.

(** Every created thread runs [handle_client] on its record, with its
    own transport and its own view of the allocator; [pthread_join]
    waits for all of them. *)
Fixpoint join_all (envs : nat -> server_env answer) (worlds : nat -> world)
    (i : nat) (started : list ServerThreadArgs) :
    option (list (run ServerThreadArgs)) :=
  match started with
  | [] => Some []
  | a :: rest =>
      match handle_client a (envs i) (worlds i) with
      | None => None
      | Some (r, _) =>
          match join_all envs worlds (S i) rest with
          | None => None
          | Some rs => Some (r :: rs)
          end
      end
  end.

(** The loop [for (i = 0; i < num_threads; i++)] over [thread_args]. *)
Definition total_metrics (thread_args : list ServerThreadArgs) : server_totals :=
  fold_left
    (fun t a =>
       {| st_total_bytes := wrap64 (st_total_bytes t + bytes_sent a);
          st_total_messages := wrap64 (st_total_messages t + messages_sent a);
          st_max_time := if d_ltb (st_max_time t) (sa_elapsed_time a)
                         then sa_elapsed_time a else st_max_time t |})
    thread_args
    {| st_total_bytes := 0; st_total_messages := 0; st_max_time := d_zero |}.

(** The accept loop as [main] runs it, on the two arrays that it took
    from [malloc] without a check.  The stores into
    [thread_args[num_threads]], and the store of [pthread_create] into
    [threads[num_threads]], are undefined through [NULL]; on arrays that
    exist the loop creates the records of [accept_loop], and
    [num_threads < max_threads] keeps the index inside both arrays. *)
Fixpoint accept_loop_on (threads thread_args : ptr) (msg_size duration : Z)
    (slots : nat -> ServerThreadArgs) (max_threads : nat) (thread_id : Z)
    (num_threads : nat) (evs : list accept_event) :
    option (list ServerThreadArgs) :=
  match evs with
  | [] => Some []
  | ev :: rest =>
      if accept_rv ev <? 0 then
        accept_loop_on threads thread_args msg_size duration slots max_threads
                       thread_id num_threads rest
      else if (max_threads <=? num_threads)%nat then
        accept_loop_on threads thread_args msg_size duration slots max_threads
                       thread_id num_threads rest
      else if is_null thread_args then None
      else
        let a := init_slot (slots num_threads) (accept_rv ev) thread_id
                           msg_size duration in
        if is_null threads then None
        else if negb (pthread_create_rv ev =? 0) then
          accept_loop_on threads thread_args msg_size duration slots
                         max_threads (thread_id + 1) num_threads rest
        else
          match accept_loop_on threads thread_args msg_size duration slots
                               max_threads (thread_id + 1) (S num_threads)
                               rest with
          | None => None
          | Some started => Some (a :: started)
          end
  end.

(** [main], from the allocation of the two arrays to their release.
    [slots] is what [malloc] left in [thread_args]. *)
Definition server_main (msg_size duration : Z)
    (slots : nat -> ServerThreadArgs) (evs : list accept_event)
    (envs : nat -> server_env answer) (worlds : nat -> world) :
    heapM (list (run ServerThreadArgs) * server_totals) :=
  let max_threads := 100%nat in
  threads <- malloc (Z.of_nat max_threads * sizeof_pthread_t) ;;
  thread_args <- malloc (Z.of_nat max_threads * sizeof_ServerThreadArgs) ;;
  started <- defined (accept_loop_on threads thread_args msg_size duration
                                     slots max_threads 0 0 evs) ;;
  runs <- defined (join_all envs worlds 0 started) ;;
  let totals := total_metrics (map final runs) in
  free threads ;;;
  free thread_args ;;;
  ret (runs, totals).

End ServerMain.

Module A1_Server.
Section Worker.
Context `{FloatOps}.

(** The [while (running && get_time_sec() < end_time)] loop. *)
Fixpoint send_loop (call : syscall) (args : ServerThreadArgs)
    (tr : list sysret) : run ServerThreadArgs :=
  match tr with
  | [] => mkRun args [] 0%nat Expired
  | sent :: rest =>
      if rv sent <? 0 then
        if (err sent =? EPIPE) || (err sent =? ECONNRESET)
        then mkRun args [(call, sent)] 1%nat PeerClosed
        else mkRun args [(call, sent)] 1%nat (IOError (err sent))
      else
        iterate [(call, sent)] (send_loop call (count_sent args (rv sent)) rest)
  end.

Definition handle_client (args : ServerThreadArgs) (env : server_env sysret) :
    heapM (run ServerThreadArgs) :=
  let fd := client_fd args in
  let field_size := sa_msg_size args / NUM_FIELDS in
  msg <- create_message field_size ;;
  if is_null msg then ret (not_started args)
  else
    smsg <- serialize_message msg field_size ;;
    if is_null smsg then
      free_message msg ;;; ret (not_started args)
    else
      sm <- load_Serialized smsg ;;
      let total_msg_size := total_size sm in
      let args := reset_sent args in
      let r := send_loop (SYS_send fd smsg total_msg_size 0) args (trace env) in
      let args := set_sa_elapsed_time (final r)
                    (d_sub (finish_time env) (start_time env)) in
      free smsg ;;;
      free_message msg ;;;
      ret (mkRun args (calls r) (iterations r) (exit r)).

Definition main := server_main handle_client.

End Worker.
End A1_Server.

Module A2_Server.
Section Worker.
Context `{FloatOps}.

Fixpoint send_loop (call : syscall) (args : ServerThreadArgs)
    (tr : list sysret) : run ServerThreadArgs :=
  match tr with
  | [] => mkRun args [] 0%nat Expired
  | sent :: rest =>
      if rv sent <? 0 then
        if (err sent =? EPIPE) || (err sent =? ECONNRESET)
        then mkRun args [(call, sent)] 1%nat PeerClosed
        else mkRun args [(call, sent)] 1%nat (IOError (err sent))
      else
        iterate [(call, sent)] (send_loop call (count_sent args (rv sent)) rest)
  end.

Definition handle_client (args : ServerThreadArgs) (env : server_env sysret) :
    heapM (run ServerThreadArgs) :=
  let fd := client_fd args in
  let field_size := sa_msg_size args / NUM_FIELDS in
  msg <- create_message field_size ;;
  if is_null msg then ret (not_started args)
  else
    m <- load_Message msg ;;
    let iov := iov_of_message m field_size in
    let args := reset_sent args in
    let r := send_loop (SYS_sendmsg fd iov 0) args (trace env) in
    let args := set_sa_elapsed_time (final r)
                  (d_sub (finish_time env) (start_time env)) in
    free_message msg ;;;
    ret (mkRun args (calls r) (iterations r) (exit r)).

Definition main := server_main handle_client.

End Worker.
End A2_Server.

Module A3_Server.

(** What the kernel answers in one iteration: to the [sendmsg] with
    [MSG_ZEROCOPY] if it is issued, and to the [sendmsg] without flag if
    it is issued. *)
Record answers := mkAnswers {
  zerocopy_answer : sysret;
  plain_answer : sysret
}.

Section Worker.
Context `{FloatOps}.

Fixpoint send_loop (use_zerocopy : bool) (fd : Z) (iov : list (ptr * Z))
    (args : ServerThreadArgs) (tr : list answers) : run ServerThreadArgs :=
  match tr with
  | [] => mkRun args [] 0%nat Expired
  | k :: rest =>
      let '(sent, issued) :=
        if use_zerocopy then
          let sent := zerocopy_answer k in
          if (rv sent <? 0) && ((err sent =? ENOBUFS) || (err sent =? EINVAL))
          then (plain_answer k,
                [(SYS_sendmsg fd iov MSG_ZEROCOPY, sent);
                 (SYS_sendmsg fd iov 0, plain_answer k)])
          else (sent, [(SYS_sendmsg fd iov MSG_ZEROCOPY, sent)])
        else (plain_answer k, [(SYS_sendmsg fd iov 0, plain_answer k)]) in
      if rv sent <? 0 then
        if (err sent =? EPIPE) || (err sent =? ECONNRESET)
        then mkRun args issued 1%nat PeerClosed
        else if (err sent =? EAGAIN) || (err sent =? EWOULDBLOCK)
        then iterate issued (send_loop use_zerocopy fd iov args rest)
        else mkRun args issued 1%nat (IOError (err sent))
      else
        iterate issued
          (send_loop use_zerocopy fd iov (count_sent args (rv sent)) rest)
  end.

Definition handle_client (args : ServerThreadArgs) (env : server_env answers) :
    heapM (run ServerThreadArgs) :=
  let fd := client_fd args in
  let field_size := sa_msg_size args / NUM_FIELDS in
  let use_zerocopy := setsockopt_rv env =? 0 in
  msg <- create_message field_size ;;
  if is_null msg then ret (not_started args)
  else
    m <- load_Message msg ;;
    let iov := iov_of_message m field_size in
    let args := reset_sent args in
    let r := send_loop use_zerocopy fd iov args (trace env) in
    let args := set_sa_elapsed_time (final r)
                  (d_sub (finish_time env) (start_time env)) in
    free_message msg ;;;
    ret (mkRun args (calls r) (iterations r) (exit r)).

Definition main := server_main handle_client.

End Worker.
End A3_Server.

(** ** Clients *)

(** The [main] of the three clients: the same text, around its own
    [client_thread]. *)
Section ClientMain.
Context `{FloatOps}.
Variable client_thread :
  ClientThreadArgs -> client_env -> Metrics -> run ClientThreadArgs * Metrics.

(** The creation loop; [num_threads = i; break] when [pthread_create]
    fails.  The result is [num_threads] after the loop. *)
Fixpoint create_loop (num_threads : Z) (create_rv : nat -> Z)
    (todo : nat) (i : nat) : Z :=
  match todo with
  | O => num_threads
  | S todo' =>
      if negb (create_rv i =? 0) then Z.of_nat i
      else create_loop num_threads create_rv todo' (S i)
  end.

Definition init_client_slot (slot : ClientThreadArgs) (i : nat)
    (msg_size duration : Z) : ClientThreadArgs :=
  {| ca_thread_id := Z.of_nat i; ca_msg_size := msg_size;
     ca_duration := duration;
     bytes_received := bytes_received slot;
     messages_received := messages_received slot;
     total_latency := total_latency slot;
     ca_elapsed_time := ca_elapsed_time slot |}.

(** The created threads, run in the order in which they take
    [metrics_mutex] (a thread that exits early never takes it and leaves
    [global_metrics] as it is). *)
Definition run_threads (msg_size duration : Z) (slots : nat -> ClientThreadArgs)
    (envs : nat -> client_env) (lock_order : list nat) (g : Metrics) : Metrics :=
  fold_left
    (fun g i =>
       snd (client_thread (init_client_slot (slots i) i msg_size duration)
                          (envs i) g))
    lock_order g.

Definition global_metrics_init : Metrics :=
  {| total_bytes := 0; total_messages := 0; total_time := d_zero;
     throughput_gbps := d_zero; avg_latency_us := d_zero |}.

Definition client_main (num_threads msg_size duration : Z)
    (create_rv : nat -> Z) (slots : nat -> ClientThreadArgs)
    (envs : nat -> client_env) (lock_order : list nat) : Metrics :=
  let num_threads :=
    create_loop num_threads create_rv (Z.to_nat num_threads) 0 in
  let g := run_threads msg_size duration slots envs lock_order
             global_metrics_init in
  {| total_bytes := total_bytes g;
     total_messages := total_messages g;
     total_time := total_time g;
     throughput_gbps := calc_throughput_gbps (total_bytes g) (total_time g);
     avg_latency_us := d_div (avg_latency_us g) (d_of_Z num_threads) |}.

End ClientMain.

Section ClientMerge.
Context `{FloatOps}.

(** The tail of [client_thread], from "Calculate thread metrics" to the
    unlock of [metrics_mutex]. *)
Definition avg_latency (args : ClientThreadArgs) : double :=
  if 0 <? messages_received args
  then d_div (total_latency args) (d_of_Z (messages_received args))
  else d_zero.

Definition update_global_metrics (g : Metrics) (args : ClientThreadArgs) :
    Metrics :=
  {| total_bytes := wrap64 (total_bytes g + bytes_received args);
     total_messages := wrap64 (total_messages g + messages_received args);
     total_time := ca_elapsed_time args;
     throughput_gbps := throughput_gbps g;
     avg_latency_us := d_add (avg_latency_us g) (avg_latency args) |}.

End ClientMerge.

Module A1_Client.
Section Worker.
Context `{FloatOps}.

Fixpoint recv_loop (call : syscall) (args : ClientThreadArgs)
    (tr : list recv_event) : run ClientThreadArgs :=
  match tr with
  | [] => mkRun args [] 0%nat Expired
  | ev :: rest =>
      let r := received ev in
      if rv r <? 0 then
        if err r =? EINTR
        then iterate [(call, r)] (recv_loop call args rest)
        else mkRun args [(call, r)] 1%nat (IOError (err r))
      else if rv r =? 0 then
        mkRun args [(call, r)] 1%nat PeerClosed
      else
        iterate [(call, r)]
          (recv_loop call (count_received args (rv r) (msg_start ev) (msg_end ev))
                     rest)
  end.

Definition client_thread (args : ClientThreadArgs) (env : client_env)
    (global_metrics : Metrics) : run ClientThreadArgs * Metrics :=
  let msg_size := ca_msg_size args in
  let sock_fd := socket_rv env in
  if sock_fd <? 0 then (not_started args, global_metrics)
  else if inet_pton_rv env <=? 0 then (not_started args, global_metrics)
  else if connect_rv env <? 0 then (not_started args, global_metrics)
  else if negb (alloc_ok env 0%nat) then (not_started args, global_metrics)
  else
    let args := reset_received args in
    let r := recv_loop (SYS_recv sock_fd msg_size 0) args (c_trace env) in
    let args := set_ca_elapsed_time (final r)
                  (d_sub (c_finish_time env) (c_start_time env)) in
    (mkRun args (calls r) (iterations r) (exit r),
     update_global_metrics global_metrics args).

Definition main := client_main client_thread.

End Worker.
End A1_Client.

Module A2_Client.
Section Worker.
Context `{FloatOps}.

Fixpoint recv_loop (call : syscall) (args : ClientThreadArgs)
    (tr : list recv_event) : run ClientThreadArgs :=
  match tr with
  | [] => mkRun args [] 0%nat Expired
  | ev :: rest =>
      let r := received ev in
      if rv r <? 0 then
        if err r =? EINTR
        then iterate [(call, r)] (recv_loop call args rest)
        else mkRun args [(call, r)] 1%nat (IOError (err r))
      else if rv r =? 0 then
        mkRun args [(call, r)] 1%nat PeerClosed
      else
        iterate [(call, r)]
          (recv_loop call (count_received args (rv r) (msg_start ev) (msg_end ev))
                     rest)
  end.

(** [for (i = 0; i < NUM_FIELDS; i++) buffers[i] = malloc(field_size)],
    leaving at the first failure. *)
Fixpoint alloc_buffers (ok : nat -> bool) (todo : nat) (i : nat) : bool :=
  match todo with
  | O => true
  | S todo' => if negb (ok i) then false else alloc_buffers ok todo' (S i)
  end.

Definition client_thread (args : ClientThreadArgs) (env : client_env)
    (global_metrics : Metrics) : run ClientThreadArgs * Metrics :=
  let field_size := ca_msg_size args / NUM_FIELDS in
  let sock_fd := socket_rv env in
  if sock_fd <? 0 then (not_started args, global_metrics)
  else if inet_pton_rv env <=? 0 then (not_started args, global_metrics)
  else if connect_rv env <? 0 then (not_started args, global_metrics)
  else if negb (alloc_buffers (alloc_ok env) (Z.to_nat NUM_FIELDS) 0)
  then (not_started args, global_metrics)
  else
    let iov := repeat field_size (Z.to_nat NUM_FIELDS) in
    let args := reset_received args in
    let r := recv_loop (SYS_recvmsg sock_fd iov 0) args (c_trace env) in
    let args := set_ca_elapsed_time (final r)
                  (d_sub (c_finish_time env) (c_start_time env)) in
    (mkRun args (calls r) (iterations r) (exit r),
     update_global_metrics global_metrics args).

Definition main := client_main client_thread.

End Worker.
End A2_Client.

Module A3_Client.
Section Worker.
Context `{FloatOps}.

Fixpoint recv_loop (call : syscall) (args : ClientThreadArgs)
    (tr : list recv_event) : run ClientThreadArgs :=
  match tr with
  | [] => mkRun args [] 0%nat Expired
  | ev :: rest =>
      let r := received ev in
      if rv r <? 0 then
        if err r =? EINTR
        then iterate [(call, r)] (recv_loop call args rest)
        else mkRun args [(call, r)] 1%nat (IOError (err r))
      else if rv r =? 0 then
        mkRun args [(call, r)] 1%nat PeerClosed
      else
        iterate [(call, r)]
          (recv_loop call (count_received args (rv r) (msg_start ev) (msg_end ev))
                     rest)
  end.

Definition client_thread (args : ClientThreadArgs) (env : client_env)
    (global_metrics : Metrics) : run ClientThreadArgs * Metrics :=
  let msg_size := ca_msg_size args in
  let sock_fd := socket_rv env in
  if sock_fd <? 0 then (not_started args, global_metrics)
  else if inet_pton_rv env <=? 0 then (not_started args, global_metrics)
  else if connect_rv env <? 0 then (not_started args, global_metrics)
  else if negb (alloc_ok env 0%nat) then (not_started args, global_metrics)
  else
    let iov := [msg_size] in
    let args := reset_received args in
    let r := recv_loop (SYS_recvmsg sock_fd iov 0) args (c_trace env) in
    let args := set_ca_elapsed_time (final r)
                  (d_sub (c_finish_time env) (c_start_time env)) in
    (mkRun args (calls r) (iterations r) (exit r),
     update_global_metrics global_metrics args).

Definition main := client_main client_thread.

End Worker.
End A3_Client.

(** ** Vocabulary of the statements *)

(** The non-null pointers of a list. *)
Definition locs (ps : list ptr) : list loc := omap id ps.

(** [h'] is [h] plus one live block for every non-null pointer of [ps],
    all of them distinct and absent from [h]. *)
Definition extends (h : gmap loc block) (ps : list ptr) (h' : gmap loc block) :
    Prop :=
  ∃ N : gmap loc block,
    h' = N ∪ h ∧ N ##ₘ h ∧ NoDup (locs ps) ∧ dom N = list_to_set (locs ps).

(** A run of [free] over a list of pointers, then [k]. *)
Fixpoint free_each {A} (ps : list ptr) (k : heapM A) : heapM A :=
  match ps with
  | [] => k
  | p :: ps' => free p ;;; free_each ps' k
  end.

(** [h'] is [h] plus a Message at [m] whose eight fields are the fresh
    blocks [l1 .. l8], field [i] holding [s] times its own byte. *)
Definition built (h : gmap loc block) (s : Z) (m : loc) (ls : list loc)
    (h' : gmap loc block) : Prop :=
  match ls with
  | [l1; l2; l3; l4; l5; l6; l7; l8] =>
      NoDup (m :: ls) ∧
      (∀ l, l ∈ m :: ls → h !! l = None) ∧
      (∀ l, l ∉ m :: ls → h' !! l = h !! l) ∧
      h' !! m = Some (MessageBlock
                        (mkMessage (Some l1) (Some l2) (Some l3) (Some l4)
                                   (Some l5) (Some l6) (Some l7) (Some l8))) ∧
      h' !! l1 = Some (Buf (repeat chr_A (Z.to_nat s))) ∧
      h' !! l2 = Some (Buf (repeat chr_B (Z.to_nat s))) ∧
      h' !! l3 = Some (Buf (repeat chr_C (Z.to_nat s))) ∧
      h' !! l4 = Some (Buf (repeat chr_D (Z.to_nat s))) ∧
      h' !! l5 = Some (Buf (repeat chr_E (Z.to_nat s))) ∧
      h' !! l6 = Some (Buf (repeat chr_F (Z.to_nat s))) ∧
      h' !! l7 = Some (Buf (repeat chr_G (Z.to_nat s))) ∧
      h' !! l8 = Some (Buf (repeat chr_H (Z.to_nat s)))
  | _ => False
  end.

(** The bytes that the calls of a run returned: the sum of the positive
    return values. *)
Definition sum_positive (cs : list (syscall * sysret)) : Z :=
  fold_right (fun c acc => if 0 <? rv c.2 then rv c.2 + acc else acc) 0 cs.

(** The number of calls of a run that returned a positive value. *)
Definition count_positive (cs : list (syscall * sysret)) : Z :=
  fold_right (fun c acc => if 0 <? rv c.2 then 1 + acc else acc) 0 cs.

(** The number of calls of a run that did not fail. *)
Definition count_nonnegative (cs : list (syscall * sysret)) : Z :=
  fold_right (fun c acc => if 0 <=? rv c.2 then 1 + acc else acc) 0 cs.

(** A call that failed with [EINTR]. *)
Definition interrupted (r : sysret) : Prop := rv r < 0 ∧ err r = EINTR.

(** A call that failed with [EAGAIN] / [EWOULDBLOCK]. *)
Definition would_block (r : sysret) : bool :=
  (rv r <? 0) && ((err r =? EAGAIN) || (err r =? EWOULDBLOCK)).

(** A call that failed with [ENOBUFS] or [EINVAL]. *)
Definition offload_refused (r : sysret) : bool :=
  (rv r <? 0) && ((err r =? ENOBUFS) || (err r =? EINVAL)).

(** The calls of one iteration of the offloaded strategy, in the words
    of the specification: the vectorized send with the offload flag
    first, and, when that call is refused for lack of resources or as an
    invalid argument, the same send once more without the flag. *)
Definition offload_iteration (fd : Z) (iov : list (ptr * Z))
    (k : A3_Server.answers) : list (syscall * sysret) :=
  if offload_refused (A3_Server.zerocopy_answer k)
  then [(SYS_sendmsg fd iov MSG_ZEROCOPY, A3_Server.zerocopy_answer k);
        (SYS_sendmsg fd iov 0, A3_Server.plain_answer k)]
  else [(SYS_sendmsg fd iov MSG_ZEROCOPY, A3_Server.zerocopy_answer k)].

(** The scatter/gather environment that gives, iteration by iteration,
    the answers that the offloaded strategy gets to its sends without
    flag. *)
Definition plain_env `{FloatOps} (env : server_env A3_Server.answers) :
    server_env sysret :=
  mkServerEnv (setsockopt_rv env) (start_time env)
              (map A3_Server.plain_answer (trace env)) (finish_time env).

Section Means.
Context `{FloatOps}.

(** A sum of doubles, from [0.0], in list order. *)
Definition sum_double (l : list double) : double := fold_left d_add l d_zero.

(** What a worker adds to [global_metrics.avg_latency_us]: its own mean
    latency per call if it reaches the merge, nothing if it exits
    before. *)
Definition worker_mean
    (client_thread : ClientThreadArgs -> client_env -> Metrics ->
                     run ClientThreadArgs * Metrics)
    (args : ClientThreadArgs) (env : client_env) : option double :=
  let r := fst (client_thread args env global_metrics_init) in
  match exit r with
  | NotStarted => None
  | _ => Some (avg_latency (final r))
  end.

End Means.

(** The header of the serialized block at [d] says [t] bytes. *)
Definition header_at (d : loc) (t : Z) (w : world) : Prop :=
  ∃ sm, heap w !! d = Some (SerializedBlock sm) ∧ total_size sm = t.

(** What a vectorized send reads: the first [iov_len] bytes of every
    buffer of the [iovec], in order. *)
Fixpoint gather (h : gmap loc block) (iov : list (ptr * Z)) :
    option (list byte) :=
  match iov with
  | [] => Some []
  | (Some l, len) :: rest =>
      match h !! l with
      | Some (Buf bytes) =>
          if Z.of_nat (length bytes) <? len then None
          else match gather h rest with
               | Some tl => Some (take (Z.to_nat len) bytes ++ tl)
               | None => None
               end
      | _ => None
      end
  | (None, _) :: _ => None
  end.

(** The answer that decides an iteration of the offloaded server: the
    answer to the send without flag when the offload is off or was
    refused for this call, the answer to the send with the flag
    otherwise. *)
Definition decisive_answer (use_zerocopy : bool) (k : A3_Server.answers) :
    sysret :=
  if use_zerocopy then
    if offload_refused (A3_Server.zerocopy_answer k)
    then A3_Server.plain_answer k
    else A3_Server.zerocopy_answer k
  else A3_Server.plain_answer k.

(** A sum of integers. *)
Definition sum_Z (l : list Z) : Z := foldr Z.add 0 l.

(** The largest [int]. *)
Definition INT_MAX : Z := 2147483647.

(** The buffer phase of the scatter/gather client (the loop
    [for (i = 0; i < NUM_FIELDS; i++) buffers[i] = malloc(field_size)]
    with its release of [buffers[0 .. i-1]] when [buffers[i]] is refused),
    on the heap.  [None]: the thread exits. *)
Fixpoint recv_buffers_alloc (field_size : Z) (todo : nat) (buffers : list ptr) :
    heapM (option (list ptr)) :=
  match todo with
  | O => ret (Some buffers)
  | S todo' =>
      p <- malloc field_size ;;
      if is_null p then free_each buffers (ret None)
      else recv_buffers_alloc field_size todo' (buffers ++ [p])
  end.

(** The cleanup [for (i = 0; i < NUM_FIELDS; i++) free(buffers[i])]. *)
Definition recv_buffers_free (buffers : list ptr) : heapM unit :=
  free_each buffers (ret tt).

(** Why a loop over the answers [tr] made [n] iterations and left with
    [x]: every answer before the last one lets the loop go on; the time
    ran out after the last answer, or the last answer made the loop
    leave. *)
Definition stops_at {A} (continues closed : A -> Prop) (failed : A -> Z -> Prop)
    (tr : list A) (n : nat) (x : exit_reason) : Prop :=
  match x with
  | Expired => Forall continues tr ∧ n = length tr
  | PeerClosed =>
      ∃ pre a post, tr = pre ++ a :: post ∧ Forall continues pre ∧
                    n = S (length pre) ∧ closed a
  | IOError e =>
      ∃ pre a post, tr = pre ++ a :: post ∧ Forall continues pre ∧
                    n = S (length pre) ∧ failed a e
  | NotStarted => False
  end.

(** The longest prefix of [l] whose elements all satisfy [P]. *)
Fixpoint leading {A} (P : A -> bool) (l : list A) : list A :=
  match l with
  | [] => []
  | a :: l' => if P a then a :: leading P l' else []
  end.

(** The prefix of [l] up to and including its first element that
    satisfies [P]; [l] itself if there is none. *)
Fixpoint through {A} (P : A -> bool) (l : list A) : list A :=
  match l with
  | [] => []
  | a :: l' => if P a then [a] else a :: through P l'
  end.

(** The number of worker threads that a client created: the calls of
    [pthread_create] that succeeded before the first one that failed,
    among the [num_threads] asked for. *)
Definition threads_created (num_threads : Z) (create_rv : nat -> Z) : Z :=
  Z.of_nat (length (leading (fun i => create_rv i =? 0)
                            (seq 0 (Z.to_nat num_threads)))).

(** An iteration after which the offloaded loop leaves: the call that
    decides it failed, and not because it would block. *)
Definition send_ends (use_zerocopy : bool) (k : A3_Server.answers) : bool :=
  (rv (decisive_answer use_zerocopy k) <? 0)
  && negb (would_block (decisive_answer use_zerocopy k)).

(** [main]'s two calls of [malloc], for [threads] and [thread_args],
    both granted. *)
Definition arrays_granted (w : world) : Prop :=
  is_Some (supply w (served w)) ∧ is_Some (supply w (S (served w))).

(** Some [accept] returned a descriptor. *)
Definition connection_accepted (evs : list accept_event) : Prop :=
  Exists (fun ev => 0 <= accept_rv ev) evs.

Section Accounts.
Context `{FloatOps}.

(** The three receiving loops go on after a positive count and after
    [EINTR]; they leave on a zero count and on any other error. *)
Definition recv_stops (tr : list recv_event) (r : run ClientThreadArgs) : Prop :=
  stops_at (fun ev => 0 < rv (received ev) ∨ interrupted (received ev))
           (fun ev => rv (received ev) = 0)
           (fun ev e => rv (received ev) < 0 ∧ err (received ev) = e ∧
                        e ≠ EINTR)
           tr (iterations r) (exit r).

(** The sending loops of the copy-based and the scatter/gather server go
    on after every call that did not fail; they leave on every error. *)
Definition send_stops (tr : list sysret) (r : run ServerThreadArgs) : Prop :=
  stops_at (fun s => 0 <= rv s)
           (fun s => rv s < 0 ∧ (err s = EPIPE ∨ err s = ECONNRESET))
           (fun s e => rv s < 0 ∧ err s = e ∧ e ≠ EPIPE ∧ e ≠ ECONNRESET)
           tr (iterations r) (exit r).

(** The sending loop of the offloaded server also goes on after
    [EAGAIN] / [EWOULDBLOCK]. *)
Definition offload_send_stops (use_zerocopy : bool)
    (tr : list A3_Server.answers) (r : run ServerThreadArgs) : Prop :=
  stops_at (fun k => 0 <= rv (decisive_answer use_zerocopy k) ∨
                     would_block (decisive_answer use_zerocopy k) = true)
           (fun k => rv (decisive_answer use_zerocopy k) < 0 ∧
                     (err (decisive_answer use_zerocopy k) = EPIPE ∨
                      err (decisive_answer use_zerocopy k) = ECONNRESET))
           (fun k e => rv (decisive_answer use_zerocopy k) < 0 ∧
                       err (decisive_answer use_zerocopy k) = e ∧
                       e ≠ EPIPE ∧ e ≠ ECONNRESET ∧
                       e ≠ EAGAIN ∧ e ≠ EWOULDBLOCK)
           tr (iterations r) (exit r).

(** The latencies that a receiving loop adds up: one per event whose
    call returned a positive count. *)
Definition latencies (evs : list recv_event) : list double :=
  map (fun ev => d_sub (msg_end ev) (msg_start ev))
      (filter (fun ev => 0 < rv (received ev)) evs).

(** A receive after which a worker receives again: data arrived, or
    the call was interrupted. *)
Definition goes_on (ev : recv_event) : bool :=
  (0 <? rv (received ev))
  || ((rv (received ev) <? 0) && (err (received ev) =? EINTR)).

(** The mean of the latencies of one worker, in the words of the
    specification: their sum over their number, and 0 for a worker
    without message. *)
Definition mean_latency (ls : list double) : double :=
  match ls with
  | [] => d_zero
  | _ => d_div (fold_left d_add ls d_zero) (d_of_Z (Z.of_nat (length ls)))
  end.

(** A worker that gets its socket, its address, its connection and its
    [buffers] receive buffers. *)
Definition connects (buffers : nat) (env : client_env) : bool :=
  (0 <=? socket_rv env) && (0 <? inet_pton_rv env) && (0 <=? connect_rv env)
  && forallb (alloc_ok env) (seq 0 buffers).

(** The means that the workers of a client report, in the order of the
    lock: the mean over the receives that delivered data before the
    worker's loop ended, for every worker that connected. *)
Definition reported_means (buffers : nat) (envs : nat -> client_env)
    (lock_order : list nat) : list double :=
  omap (fun i => if connects buffers (envs i)
                 then Some (mean_latency
                              (latencies (leading goes_on (c_trace (envs i)))))
                 else None)
       lock_order.

(** The record that a client worker merges into [global_metrics], if it
    reaches the merge. *)
Definition worker_record
    (client_thread : ClientThreadArgs -> client_env -> Metrics ->
                     run ClientThreadArgs * Metrics)
    (args : ClientThreadArgs) (env : client_env) : option ClientThreadArgs :=
  let r := fst (client_thread args env global_metrics_init) in
  match exit r with
  | NotStarted => None
  | _ => Some (final r)
  end.

(** The records merged into [global_metrics] by a client, in the order
    in which the workers take [metrics_mutex]. *)
Definition merged
    (client_thread : ClientThreadArgs -> client_env -> Metrics ->
                     run ClientThreadArgs * Metrics)
    (msg_size duration : Z) (slots : nat -> ClientThreadArgs)
    (envs : nat -> client_env) (lock_order : list nat) :
    list ClientThreadArgs :=
  omap (fun i => worker_record client_thread
                   (init_client_slot (slots i) i msg_size duration) (envs i))
       lock_order.

(** [x <= y] on doubles, as the comparison of the sources decides it. *)
Definition d_le (x y : double) : Prop := d_ltb y x = false.


End Accounts.

(** ** Concrete runs *)

Module Examples.
#[local] Existing Instance Q_FloatOps.

Definition zeros : junk := fun _ => Byte.x00.
(** An allocator that grants every request, and one that refuses all. *)
Definition generous : nat -> option junk := fun _ => Some zeros.
Definition exhausted : nat -> option junk := fun _ => None.
Definition empty_world (sup : nat -> option junk) : world :=
  {| heap := ∅; supply := sup; served := 0 |}.

(** A slot of [thread_args] as [malloc] may hand it out. *)
Definition dirty_slot : ServerThreadArgs :=
  {| client_fd := 0; sa_thread_id := 0; sa_msg_size := 0; sa_duration := 0;
     bytes_sent := 7; messages_sent := 3; sa_elapsed_time := 5%Q |}.

Definition full (n : Z) : sysret := mkSysret n 0.
Definition failed (e : Z) : sysret := mkSysret (-1) e.

Definition server_args (msg_size : Z) : ServerThreadArgs :=
  {| client_fd := 4; sa_thread_id := 0; sa_msg_size := msg_size;
     sa_duration := 1;
     bytes_sent := 7; messages_sent := 3; sa_elapsed_time := 5%Q |}.

(** A server worker whose [setsockopt] returned [opt] and whose sends
    get the given answers. *)
Definition serving {answer : Type} (opt : Z) (tr : list answer) :
    server_env answer :=
  mkServerEnv opt 0%Q tr 1%Q.

Definition client_args (msg_size : Z) : ClientThreadArgs :=
  {| ca_thread_id := 0; ca_msg_size := msg_size; ca_duration := 2;
     bytes_received := 0; messages_received := 0; total_latency := 0%Q;
     ca_elapsed_time := 0%Q |}.

(** A client worker that connects and then sees the given answers, each
    call taking [lat] microseconds. *)
Definition connected (lat : Q) (answers : list sysret) : client_env :=
  {| socket_rv := 3; inet_pton_rv := 1; connect_rv := 0;
     alloc_ok := fun _ => true;
     c_start_time := 0%Q;
     c_trace := map (fun r => mkRecvEvent 0%Q r lat) answers;
     c_finish_time := 2%Q |}.

Definition two_workers (i : nat) : client_env :=
  match i with
  | O => connected 10%Q [full 1024]
  | _ => connected 20%Q [full 1024; full 1024; full 1024]
  end.

(** Two accepted connections: the first worker sends two Transfer
    Units, the second is refused every allocation. *)
Definition two_accepts : list accept_event :=
  [mkAcceptEvent 4 0; mkAcceptEvent 5 0].

Definition two_servers (i : nat) : server_env sysret :=
  match i with
  | O => serving 0 [full 1024; full 1024]
  | _ => serving 0 [full 1024]
  end.

Definition two_allocators (i : nat) : world :=
  match i with
  | O => empty_world generous
  | _ => empty_world exhausted
  end.

(** The offload is refused by [setsockopt]; the first send would block. *)
Definition blocked_once : server_env A3_Server.answers :=
  serving (-1)
    [A3_Server.mkAnswers (failed EINVAL) (failed EAGAIN);
     A3_Server.mkAnswers (failed EINVAL) (full 1024)].

(** The offload is enabled; the second send with the flag is refused
    for lack of buffers. *)
Definition refused_once : server_env A3_Server.answers :=
  serving 0
    [A3_Server.mkAnswers (full 1024) (failed EINVAL);
     A3_Server.mkAnswers (failed ENOBUFS) (full 1024);
     A3_Server.mkAnswers (full 1024) (failed EINVAL)].

(** The offload is refused by [setsockopt]; no send would block. *)
Definition never_blocked : server_env A3_Server.answers :=
  serving (-1)
    [A3_Server.mkAnswers (failed EINVAL) (full 1024);
     A3_Server.mkAnswers (failed EINVAL) (full 512);
     A3_Server.mkAnswers (failed EINVAL) (failed EPIPE)].

Definition totals (bytes messages : Z) (longest : Q) : server_totals :=
  {| st_total_bytes := bytes; st_total_messages := messages;
     st_max_time := longest |}.

End Examples.

(** Runs on doubles with a NaN. *)
Module NaN_Examples.
#[local] Existing Instance NaN_FloatOps.

(** The record of a worker that ran for [t] seconds. *)
Definition worked (t : Q) : ServerThreadArgs :=
  {| client_fd := 4; sa_thread_id := 0; sa_msg_size := 1024;
     sa_duration := 5; bytes_sent := 0; messages_sent := 0;
     sa_elapsed_time := Some t |}.

Definition three_workers : list ServerThreadArgs :=
  [worked 3; worked 5; worked 2].

End NaN_Examples.

(** ** The heap monad *)

Lemma with_heap_id w : with_heap w (heap w) = w.
Proof. by destruct w. Qed.

Lemma bind_malloc {B} size (f : ptr -> heapM B) w :
  bind (malloc size) f w = f (malloc_step size w).1 (malloc_step size w).2.
Proof. reflexivity. Qed.

Lemma bind_Some {A B} (m : heapM A) (f : A -> heapM B) w a w' :
  m w = Some (a, w') -> bind m f w = f a w'.
Proof. unfold bind. by intros ->. Qed.

Lemma malloc_step_oracle size w :
  supply (malloc_step size w).2 = supply w ∧
  served (malloc_step size w).2 = S (served w).
Proof. unfold malloc_step. by destruct (supply w (served w)). Qed.

Lemma malloc_step_Some size w l w' :
  malloc_step size w = (Some l, w') ->
  ∃ j, supply w (served w) = Some j ∧ heap w !! l = None ∧
       heap w' = <[l := Buf (junk_bytes j size)]> (heap w).
Proof.
  unfold malloc_step. destruct (supply w (served w)) as [j|]; [|done].
  intros [= <- <-]. exists j. split; [done|]. split; [|done].
  apply not_elem_of_dom, is_fresh.
Qed.

Lemma malloc_step_None size w w' :
  malloc_step size w = (None, w') ->
  supply w (served w) = None ∧ heap w' = heap w.
Proof.
  unfold malloc_step. destruct (supply w (served w)); [done|].
  by intros [= <-].
Qed.

Lemma length_junk_bytes j n : length (junk_bytes j n) = Z.to_nat n.
Proof. unfold junk_bytes. by rewrite length_map, length_seq. Qed.

Lemma extends_nil h : extends h [] h.
Proof.
  exists ∅. split; [by rewrite (left_id_L ∅ (∪))|].
  split; [apply map_disjoint_empty_l|]. split; [constructor|].
  by rewrite dom_empty_L.
Qed.

Lemma extends_malloc h ps size w p w' :
  extends h ps (heap w) ->
  malloc_step size w = (p, w') ->
  extends h (ps ++ [p]) (heap w').
Proof.
  intros (N & HN & Hdisj & Hnd & Hdom) Hm. unfold extends, locs in *.
  rewrite omap_app. destruct p as [l|]; simpl.
  - apply malloc_step_Some in Hm as (j & _ & Hfresh & ->).
    rewrite HN in Hfresh. apply lookup_union_None in Hfresh as [HNl Hhl].
    exists (<[l := Buf (junk_bytes j size)]> N).
    split; [by rewrite HN, insert_union_l|].
    split; [by apply map_disjoint_insert_l_2|].
    assert (l ∉ omap id ps) as Hnotin.
    { intros Hin. apply not_elem_of_dom in HNl. apply HNl.
      rewrite Hdom. by apply elem_of_list_to_set. }
    split.
    + apply NoDup_app. split; [done|]. split; [|apply NoDup_singleton].
      intros x Hx ->%list_elem_of_singleton. done.
    + rewrite dom_insert_L, list_to_set_app_L, Hdom. simpl. set_solver.
  - apply malloc_step_None in Hm as [_ ->].
    exists N. by rewrite app_nil_r.
Qed.

Lemma extends_insert h ps h' l b :
  extends h ps h' -> l ∈ locs ps -> extends h ps (<[l := b]> h').
Proof.
  intros (N & -> & Hdisj & Hnd & Hdom) Hin.
  assert (l ∈ dom N) as HlN by (rewrite Hdom; by apply elem_of_list_to_set).
  exists (<[l := b]> N). split; [by rewrite insert_union_l|].
  split.
  - apply map_disjoint_insert_l_2; [|done].
    apply elem_of_dom in HlN as [x Hx]. by eapply map_disjoint_Some_l.
  - split; [done|]. rewrite dom_insert_L. set_solver.
Qed.

Lemma extends_perm h ps ps' h' :
  ps ≡ₚ ps' -> extends h ps h' -> extends h ps' h'.
Proof.
  intros Hp (N & -> & Hdisj & Hnd & Hdom). exists N. unfold locs in *.
  split; [done|]. split; [done|]. split; [by rewrite <- Hp|].
  rewrite Hdom. apply set_eq. intros x.
  rewrite !elem_of_list_to_set. by rewrite Hp.
Qed.

(** Freeing every block that was added gives the heap back. *)
Lemma free_each_extends {A} ps (k : heapM A) h w :
  extends h ps (heap w) ->
  free_each ps k w = k (with_heap w h).
Proof.
  revert w. induction ps as [|p ps IH]; intros w (N & HN & Hdisj & Hnd & Hdom).
  - simpl in *. apply dom_empty_inv_L in Hdom as ->.
    rewrite (left_id_L ∅ (∪)) in HN. by rewrite <- HN, with_heap_id.
  - destruct p as [l|]; simpl free_each.
    + unfold locs in *. simpl in Hnd, Hdom. apply NoDup_cons in Hnd as [Hl Hnd].
      assert (l ∈ dom N) as [x Hx]%elem_of_dom by (rewrite Hdom; set_solver).
      assert (h !! l = None) as Hhl by (by eapply map_disjoint_Some_l).
      assert (heap w !! l = Some x) as Hwl
        by (rewrite HN; by apply lookup_union_Some_l).
      unfold bind at 1. unfold free at 1. rewrite Hwl. simpl.
      rewrite (IH (with_heap w (delete l (heap w)))); [done|].
      exists (delete l N). simpl. split.
      * rewrite HN, delete_union. f_equal. by apply delete_id.
      * split; [by apply map_disjoint_delete_l|]. split; [done|].
        rewrite dom_delete_L, Hdom.
        assert (l ∉ (list_to_set (omap id ps) : gset loc))
          by (by rewrite elem_of_list_to_set).
        set_solver.
    + unfold bind at 1. simpl. apply IH. by exists N.
Qed.

Lemma malloc_step_preserves size w p w' l b :
  malloc_step size w = (p, w') -> heap w !! l = Some b -> heap w' !! l = Some b.
Proof.
  intros Hm Hl. destruct p as [l'|].
  - apply malloc_step_Some in Hm as (j & _ & Hfresh & ->).
    rewrite lookup_insert_ne; [done|]. congruence.
  - by apply malloc_step_None in Hm as [_ ->].
Qed.

Lemma malloc_step_track size w p w' :
  malloc_step size w = (p, w') ->
  supply w' = supply w ∧ served w' = S (served w) ∧
  (p = None -> supply w (served w) = None) ∧
  (p ≠ None -> is_Some (supply w (served w))).
Proof.
  intros Hm. pose proof (malloc_step_oracle size w) as [Hs Hn].
  rewrite Hm in Hs, Hn. simpl in *. split; [done|]. split; [done|].
  destruct p as [l|].
  - apply malloc_step_Some in Hm as (j & -> & _). split; [done|]. eauto.
  - apply malloc_step_None in Hm as [-> _]. done.
Qed.

Lemma store_Message_fresh w l j m :
  heap w !! l = Some (Buf (junk_bytes j sizeof_Message)) ->
  store_Message (Some l) m w
  = Some (tt, with_heap w (<[l := MessageBlock m]> (heap w))).
Proof.
  intros Hl. unfold store_Message. rewrite Hl, length_junk_bytes.
  by destruct (Z.ltb_spec (Z.of_nat (Z.to_nat sizeof_Message)) sizeof_Message);
    [unfold sizeof_Message in *; lia|].
Qed.

Lemma memset_fresh w l j c s :
  heap w !! l = Some (Buf (junk_bytes j s)) ->
  memset (Some l) c s w
  = Some (tt, with_heap w (<[l := Buf (repeat c (Z.to_nat s))]> (heap w))).
Proof.
  intros Hl. unfold memset. rewrite Hl, length_junk_bytes.
  destruct (Z.ltb_spec (Z.of_nat (Z.to_nat s)) s); [lia|].
  rewrite drop_ge by (rewrite length_junk_bytes; lia).
  by rewrite app_nil_r.
Qed.

Ltac step_malloc f w' E :=
  rewrite bind_malloc;
  match goal with |- context [malloc_step ?s ?w] =>
    destruct (malloc_step s w) as [f w'] eqn:E end;
  cbn [fst snd].

Ltac blame k Z :=
  exists k; split; [lia|]; rewrite Nat.add_comm; simpl; apply Z; reflexivity.

Ltac look :=
  repeat first [rewrite lookup_insert_eq | rewrite lookup_insert_ne by congruence].

Ltac step_memset :=
  match goal with
  | |- context [bind (memset (Some ?l) ?c ?s) ?k ?w] =>
      erewrite (bind_Some (memset (Some l) c s) k w);
      [|eapply memset_fresh; cbn [heap with_heap]; look; reflexivity]
  end.

Lemma elem_of_locs l ps : l ∈ locs ps ↔ Some l ∈ ps.
Proof.
  unfold locs. rewrite list_elem_of_omap. split.
  - intros ([x|] & Hx & Hid); simpl in Hid; [|done]. by inversion Hid; subst.
  - intros Hin. by exists (Some l).
Qed.

(** What [create_message] does, for every answer of the allocator. *)
Lemma create_message_spec (field_size : Z) (w : world) :
  ∃ p w', create_message field_size w = Some (p, w') ∧
    supply w' = supply w ∧
    match p with
    | Some m =>
        (∀ k, (k ≤ 8)%nat -> is_Some (supply w (served w + k)%nat)) ∧
        ∃ ls, built (heap w) field_size m ls (heap w')
    | None =>
        (∃ k, (k ≤ 8)%nat ∧ supply w (served w + k)%nat = None) ∧
        heap w' = heap w
    end.
Proof.
  unfold create_message.
  step_malloc msg w1 E0.
  destruct msg as [m|]; cbn [is_null].
  2: { eexists _, _. split; [reflexivity|].
       pose proof (malloc_step_track _ _ _ _ E0) as (Hs & Hn & Hnone & _).
       apply malloc_step_None in E0 as [_ Hh].
       split; [done|]. split; [|done].
       exists 0%nat. split; [lia|]. rewrite Nat.add_0_r. auto. }
  step_malloc f1 w2 E1. step_malloc f2 w3 E2. step_malloc f3 w4 E3.
  step_malloc f4 w5 E4. step_malloc f5 w6 E5. step_malloc f6 w7 E6.
  step_malloc f7 w8 E7. step_malloc f8 w9 E8.
  (* the record is still there *)
  destruct (malloc_step_Some _ _ _ _ E0) as (j0 & Hj0 & Hm0 & Hh1).
  assert (heap w9 !! m = Some (Buf (junk_bytes j0 sizeof_Message))) as Hm9.
  { eapply malloc_step_preserves; [exact E8|].
    eapply malloc_step_preserves; [exact E7|].
    eapply malloc_step_preserves; [exact E6|].
    eapply malloc_step_preserves; [exact E5|].
    eapply malloc_step_preserves; [exact E4|].
    eapply malloc_step_preserves; [exact E3|].
    eapply malloc_step_preserves; [exact E2|].
    eapply malloc_step_preserves; [exact E1|].
    rewrite Hh1. apply lookup_insert_eq. }
  rewrite (bind_Some _ _ _ _ _ (store_Message_fresh _ _ _ _ Hm9)).
  (* what the allocator was asked *)
  destruct (malloc_step_track _ _ _ _ E0) as (S0 & N0 & Z0 & P0).
  destruct (malloc_step_track _ _ _ _ E1) as (S1 & N1 & Z1 & P1).
  destruct (malloc_step_track _ _ _ _ E2) as (S2 & N2 & Z2 & P2).
  destruct (malloc_step_track _ _ _ _ E3) as (S3 & N3 & Z3 & P3).
  destruct (malloc_step_track _ _ _ _ E4) as (S4 & N4 & Z4 & P4).
  destruct (malloc_step_track _ _ _ _ E5) as (S5 & N5 & Z5 & P5).
  destruct (malloc_step_track _ _ _ _ E6) as (S6 & N6 & Z6 & P6).
  destruct (malloc_step_track _ _ _ _ E7) as (S7 & N7 & Z7 & P7).
  destruct (malloc_step_track _ _ _ _ E8) as (S8 & N8 & Z8 & P8).
  rewrite S0 in S1. rewrite S1 in S2. rewrite S2 in S3. rewrite S3 in S4.
  rewrite S4 in S5. rewrite S5 in S6. rewrite S6 in S7. rewrite S7 in S8.
  rewrite S0, N0 in Z1, P1. rewrite S1, N1, N0 in Z2, P2.
  rewrite S2, N2, N1, N0 in Z3, P3. rewrite S3, N3, N2, N1, N0 in Z4, P4.
  rewrite S4, N4, N3, N2, N1, N0 in Z5, P5.
  rewrite S5, N5, N4, N3, N2, N1, N0 in Z6, P6.
  rewrite S6, N6, N5, N4, N3, N2, N1, N0 in Z7, P7.
  rewrite S7, N7, N6, N5, N4, N3, N2, N1, N0 in Z8, P8.
  (* the blocks added so far *)
  assert (extends (heap w) [Some m; f1; f2; f3; f4; f5; f6; f7; f8] (heap w9))
    as Hext.
  { pose proof (extends_malloc _ _ _ _ _ _ (extends_nil (heap w)) E0) as X0.
    pose proof (extends_malloc _ _ _ _ _ _ X0 E1) as X1.
    pose proof (extends_malloc _ _ _ _ _ _ X1 E2) as X2.
    pose proof (extends_malloc _ _ _ _ _ _ X2 E3) as X3.
    pose proof (extends_malloc _ _ _ _ _ _ X3 E4) as X4.
    pose proof (extends_malloc _ _ _ _ _ _ X4 E5) as X5.
    pose proof (extends_malloc _ _ _ _ _ _ X5 E6) as X6.
    pose proof (extends_malloc _ _ _ _ _ _ X6 E7) as X7.
    exact (extends_malloc _ _ _ _ _ _ X7 E8). }
  destruct (is_null f1 || is_null f2 || is_null f3 || is_null f4 ||
            is_null f5 || is_null f6 || is_null f7 || is_null f8) eqn:Hnull.
  - (* some field is missing: everything is released *)
    change (free f1;;; free f2;;; free f3;;; free f4;;; free f5;;; free f6;;;
            free f7;;; free f8;;; free (Some m);;; ret NULL)
      with (free_each [f1; f2; f3; f4; f5; f6; f7; f8; Some m] (ret NULL)).
    rewrite (free_each_extends _ _ (heap w)).
    2: { simpl. apply extends_insert;
           [|apply elem_of_locs; do 8 apply list_elem_of_further;
             apply list_elem_of_here].
         eapply extends_perm; [|exact Hext].
         apply (Permutation_cons_append [f1; f2; f3; f4; f5; f6; f7; f8]). }
    eexists _, _. split; [reflexivity|]. simpl. split; [done|]. split; [|done].
    repeat (apply orb_true_iff in Hnull as [Hnull|Hnull]).
    + destruct f1; [done|]. blame 1%nat Z1.
    + destruct f2; [done|]. blame 2%nat Z2.
    + destruct f3; [done|]. blame 3%nat Z3.
    + destruct f4; [done|]. blame 4%nat Z4.
    + destruct f5; [done|]. blame 5%nat Z5.
    + destruct f6; [done|]. blame 6%nat Z6.
    + destruct f7; [done|]. blame 7%nat Z7.
    + destruct f8; [done|]. blame 8%nat Z8.
  - (* the eight fields are there: they are filled *)
    repeat (apply orb_false_iff in Hnull as [Hnull ?Hn]).
    destruct f1 as [l1|]; [|done]. destruct f2 as [l2|]; [|done].
    destruct f3 as [l3|]; [|done]. destruct f4 as [l4|]; [|done].
    destruct f5 as [l5|]; [|done]. destruct f6 as [l6|]; [|done].
    destruct f7 as [l7|]; [|done]. destruct f8 as [l8|]; [|done].
    destruct (malloc_step_Some _ _ _ _ E1) as (j1 & _ & F1 & G1).
    destruct (malloc_step_Some _ _ _ _ E2) as (j2 & _ & F2 & G2).
    destruct (malloc_step_Some _ _ _ _ E3) as (j3 & _ & F3 & G3).
    destruct (malloc_step_Some _ _ _ _ E4) as (j4 & _ & F4 & G4).
    destruct (malloc_step_Some _ _ _ _ E5) as (j5 & _ & F5 & G5).
    destruct (malloc_step_Some _ _ _ _ E6) as (j6 & _ & F6 & G6).
    destruct (malloc_step_Some _ _ _ _ E7) as (j7 & _ & F7 & G7).
    destruct (malloc_step_Some _ _ _ _ E8) as (j8 & _ & F8 & G8).
    rewrite Hh1 in *. rewrite G1 in *. rewrite G2 in *. rewrite G3 in *.
    rewrite G4 in *. rewrite G5 in *. rewrite G6 in *. rewrite G7 in *.
    clear Hext Hm9 Hh1 G1 G2 G3 G4 G5 G6 G7.
    repeat match goal with
           | F : <[_ := _]> _ !! _ = None |- _ =>
               apply lookup_insert_None in F as [F ?]
           end.
    rewrite G8. clear G8.
    do 8 step_memset.
    eexists _, _. split; [reflexivity|]. split; [exact S8|]. split.
    { intros k Hk. rewrite Nat.add_comm.
      assert (Some m ≠ None) as Q0 by done.
      assert (Some l1 ≠ None) as Q1 by done.
      assert (Some l2 ≠ None) as Q2 by done.
      assert (Some l3 ≠ None) as Q3 by done.
      assert (Some l4 ≠ None) as Q4 by done.
      assert (Some l5 ≠ None) as Q5 by done.
      assert (Some l6 ≠ None) as Q6 by done.
      assert (Some l7 ≠ None) as Q7 by done.
      assert (Some l8 ≠ None) as Q8 by done.
      
      do 9 (destruct k as [|k]; [cbn [Nat.add]; auto|]). clear -Hk. lia. }
    
    exists [l1; l2; l3; l4; l5; l6; l7; l8]. unfold built.
    split.
    { repeat (apply NoDup_cons_2;
                [rewrite ?not_elem_of_cons;
                 repeat split; (congruence || apply not_elem_of_nil)|]).
      apply NoDup_nil_2. }
    
    split.
    { intros l Hl.
      repeat (apply elem_of_cons in Hl as [->|Hl]; [done|]).
      by apply elem_of_nil in Hl. }
    
    split.
    { intros l Hl. rewrite !not_elem_of_cons in Hl. destruct_and!.
      cbn [heap with_heap]. by look. }
    
    cbn [heap with_heap]. repeat split; by look.
Qed.

Lemma store_header_fresh w l j size total field :
  heap w !! l = Some (Buf (junk_bytes j size)) ->
  sizeof_SerializedMessage <= size ->
  store_header (Some l) total field w
  = Some (tt, with_heap w
       (<[l := SerializedBlock
                 {| total_size := total; field_size := field;
                    data := drop (Z.to_nat sizeof_SerializedMessage)
                                 (junk_bytes j size) |}]> (heap w))).
Proof.
  intros Hl Hsz. unfold store_header. rewrite Hl, length_junk_bytes.
  destruct (Z.ltb_spec (Z.of_nat (Z.to_nat size)) sizeof_SerializedMessage);
    [lia|done].
Qed.

Lemma load_Message_at w l m :
  heap w !! l = Some (MessageBlock m) -> load_Message (Some l) w = Some (m, w).
Proof. intros Hl. unfold load_Message. by rewrite Hl. Qed.

(** One [memcpy] into the flexible array, when the cursor stands after
    [pre] and [rest] has room for the source. *)
Lemma memcpy_data_at w d sm src bytes off n pre rest :
  heap w !! d = Some (SerializedBlock sm) ->
  heap w !! src = Some (Buf bytes) ->
  data sm = pre ++ rest ->
  0 <= off -> 0 <= n ->
  Z.to_nat off = length pre ->
  length bytes = Z.to_nat n ->
  (Z.to_nat n <= length rest)%nat ->
  memcpy_data (Some d) off (Some src) n w
  = Some (tt, with_heap w
       (<[d := SerializedBlock
                 {| total_size := total_size sm; field_size := field_size sm;
                    data := (pre ++ bytes) ++ drop (Z.to_nat n) rest |}]>
          (heap w))).
Proof.
  intros Hd Hs Hdata Hoff Hn Hpre Hlen Hroom. unfold memcpy_data.
  rewrite Hd, Hs, Hdata, length_app.
  destruct (Z.ltb_spec (Z.of_nat (length bytes)) n); [lia|].
  destruct (Z.ltb_spec (Z.of_nat (length pre + length rest)) (off + n)); [lia|].
  simpl. do 5 f_equal.
  rewrite Hpre, take_app_length.
  rewrite <- Hlen, firstn_all.
  replace (Z.to_nat (off + n)) with (length pre + length bytes)%nat by lia.
  rewrite drop_app_add', Hlen by done. by rewrite <- app_assoc.
Qed.

Ltac step_memcpy Hs Hlen pre rest :=
  erewrite bind_Some;
  [|eapply (memcpy_data_at _ _ _ _ _ _ _ pre rest);
    [ cbn [heap with_heap]; look; reflexivity
    | cbn [heap with_heap]; look; eassumption
    | reflexivity
    | clear -Hs; lia
    | exact Hs
    | rewrite ?length_app, ?repeat_length; clear -Hs; simpl; lia
    | rewrite repeat_length; reflexivity
    | rewrite ?drop_drop, ?length_drop; clear -Hs Hlen; lia ]].

Ltac next_memcpy Hs Hlen :=
  match goal with
  | |- context [bind (memcpy_data _ _ _ _) _
                  (with_heap _ (<[_ := SerializedBlock
                                   (mkSerializedMessage _ _ (?pre ++ ?rest))]> _))] =>
      step_memcpy Hs Hlen pre rest
  end.

Lemma serialize_built (s : Z) (w : world) h0 m ls :
  0 <= s ->
  sizeof_SerializedMessage + NUM_FIELDS * s < ULONG_MODULUS ->
  built h0 s m ls (heap w) ->
  ∃ p w', serialize_message (Some m) s w = Some (p, w') ∧
    supply w' = supply w ∧ served w' = S (served w) ∧
    match p with
    | None => supply w (served w) = None ∧ heap w' = heap w
    | Some sm =>
        is_Some (supply w (served w)) ∧ heap w !! sm = None ∧
        heap w' = <[sm := SerializedBlock
                             {| total_size := NUM_FIELDS * s; field_size := s;
                                data := pattern s |}]> (heap w)
    end.
Proof.
  intros Hs Hfit Hb.
  destruct ls as [|l1 [|l2 [|l3 [|l4 [|l5 [|l6 [|l7 [|l8 [|]]]]]]]]]; try done.
  destruct Hb as (Hnd & Hfresh & Hsame & Hm & B1 & B2 & B3 & B4 & B5 & B6 & B7 & B8).
  unfold serialize_message.
  assert (wrap64 (NUM_FIELDS * s) = NUM_FIELDS * s) as ->.
  { unfold wrap64, NUM_FIELDS, ULONG_MODULUS, sizeof_SerializedMessage in *.
    apply Z.mod_small. lia. }
  assert (wrap64 (sizeof_SerializedMessage + NUM_FIELDS * s)
          = sizeof_SerializedMessage + NUM_FIELDS * s) as ->.
  { unfold wrap64, NUM_FIELDS, ULONG_MODULUS, sizeof_SerializedMessage in *.
    apply Z.mod_small. lia. }
  rewrite bind_malloc.
  destruct (malloc_step _ w) as [smsg w1] eqn:E. cbn [fst snd].
  destruct (malloc_step_track _ _ _ _ E) as (S0 & N0 & Z0 & P0).
  destruct smsg as [d|]; cbn [is_null].
  2: { apply malloc_step_None in E as [E1 E2]. eexists _, _.
       split; [reflexivity|]. done. }
  destruct (malloc_step_Some _ _ _ _ E) as (j & Hj & Hd & Hh).
  assert (d ≠ m ∧ d ≠ l1 ∧ d ≠ l2 ∧ d ≠ l3 ∧ d ≠ l4 ∧ d ≠ l5 ∧ d ≠ l6 ∧
          d ≠ l7 ∧ d ≠ l8) as (? & ? & ? & ? & ? & ? & ? & ? & ?)
    by (repeat split; congruence).
  clear Hnd Hfresh Hsame.
  erewrite bind_Some;
    [|eapply store_header_fresh;
      [rewrite Hh; apply lookup_insert_eq
      |unfold NUM_FIELDS, sizeof_SerializedMessage; lia]].
  erewrite bind_Some;
    [|apply load_Message_at; cbn [heap with_heap]; rewrite Hh; look; exact Hm].
  cbn [field1 field2 field3 field4 field5 field6 field7 field8].
  rewrite Hh. clear Hh.
  remember (drop (Z.to_nat sizeof_SerializedMessage)
              (junk_bytes j (sizeof_SerializedMessage + NUM_FIELDS * s)))
    as d0 eqn:Hd0.
  assert (length d0 = (8 * Z.to_nat s)%nat) as Hlen0.
  { rewrite Hd0, length_drop, length_junk_bytes.
    unfold NUM_FIELDS, sizeof_SerializedMessage. lia. }
  clear Hd0.
  step_memcpy Hs Hlen0 (@nil byte) d0.
  do 7 next_memcpy Hs Hlen0.
  eexists _, _. split; [reflexivity|]. cbn [heap with_heap supply served].
  split; [done|]. split; [done|]. split; [eauto|]. split; [done|].
  rewrite !insert_insert_eq. do 3 f_equal.
  match goal with
  | |- _ ++ ?r = _ =>
      assert (r = []) as ->
        by (apply nil_length_inv; rewrite ?drop_drop, length_drop; clear -Hlen0; lia)
  end.
  rewrite app_nil_r. unfold pattern. simpl. by rewrite <- !app_assoc.
Qed.

(** ** Counters *)

Lemma wrap64_add_l a b : wrap64 (wrap64 a + b) = wrap64 (a + b).
Proof. unfold wrap64. apply Zplus_mod_idemp_l. Qed.

Lemma wrap64_small a : 0 <= a < ULONG_MODULUS -> wrap64 a = a.
Proof. intros. unfold wrap64. by apply Z.mod_small. Qed.

Lemma count_positive_nonneg cs : 0 <= count_positive cs.
Proof.
  induction cs as [|c cs IH]; simpl; [done|]. destruct (0 <? rv c.2); lia.
Qed.

Lemma count_positive_le cs : count_positive cs <= Z.of_nat (length cs).
Proof.
  induction cs as [|c cs IH]; simpl; [done|]. destruct (0 <? rv c.2); lia.
Qed.

Lemma wrap64_idem a : wrap64 (wrap64 a) = wrap64 a.
Proof. unfold wrap64. apply Zmod_mod. Qed.

Lemma sum_positive_cons c cs :
  sum_positive (c :: cs)
  = if 0 <? rv c.2 then rv c.2 + sum_positive cs else sum_positive cs.
Proof. reflexivity. Qed.

Lemma count_positive_cons c cs :
  count_positive (c :: cs)
  = if 0 <? rv c.2 then 1 + count_positive cs else count_positive cs.
Proof. reflexivity. Qed.

Lemma count_nonnegative_cons c cs :
  count_nonnegative (c :: cs)
  = if 0 <=? rv c.2 then 1 + count_nonnegative cs else count_nonnegative cs.
Proof. reflexivity. Qed.

Section Loops.
Context `{FloatOps}.

(** The three sending loops count the bytes of the calls that did not
    fail, and those calls. *)
Ltac counts_base :=
  intros [Hb Hm]; cbn [calls final sum_positive count_positive
                       count_nonnegative fold_right];
  rewrite !Z.add_0_r; by rewrite Hb, Hm.

Ltac counts_split :=
  repeat match goal with
         | |- context [0 <? ?x] => destruct (Z.ltb_spec 0 x)
         | |- context [0 <=? ?x] => destruct (Z.leb_spec 0 x)
         end.

Ltac counts_stop :=
  intros [Hb Hm];
  cbn [calls final sum_positive count_positive count_nonnegative
       fold_right snd];
  counts_split; try lia; rewrite ?Z.add_0_r; by rewrite Hb, Hm.

Ltac send_counts_step IH :=
  let Hr := fresh "Hr" in
  intros Hr;
  cbn [calls final iterate app];
  rewrite ?sum_positive_cons, ?count_positive_cons, ?count_nonnegative_cons;
  cbn [snd];
  destruct IH as [-> ->];
  [first [exact Hr
         |cbn [bytes_sent messages_sent count_sent bytes_received
               messages_received count_received];
          by rewrite !wrap64_idem]|];
  cbn [bytes_sent messages_sent count_sent bytes_received messages_received
       count_received];
  rewrite ?wrap64_add_l; counts_split; try lia; split; apply (f_equal wrap64); lia.

Ltac split_loop :=
  repeat (match goal with
          | |- context [?a <? 0] => destruct (Z.ltb_spec a 0)
          | |- context [(err ?r =? ?e1) || (err ?r =? ?e2)] =>
              destruct ((err r =? e1) || (err r =? e2))
          | |- context [err ?r =? ?e] => destruct (Z.eqb_spec (err r) e)
          | |- context [?a =? 0] => destruct (Z.eqb_spec a 0)
          end; cbn [andb]; cbv beta iota).

Lemma A1_send_loop_counts call args tr :
  let r := A1_Server.send_loop call args tr in
  wrap64 (bytes_sent args) = bytes_sent args ∧
  wrap64 (messages_sent args) = messages_sent args ->
  bytes_sent (final r) = wrap64 (bytes_sent args + sum_positive (calls r)) ∧
  messages_sent (final r)
  = wrap64 (messages_sent args + count_nonnegative (calls r)).
Proof.
  cbv zeta. revert args. induction tr as [|sent rest IH]; intros args.
  - simpl. counts_base.
  - simpl. destruct (Z.ltb_spec (rv sent) 0).
    + destruct ((err sent =? EPIPE) || (err sent =? ECONNRESET)); counts_stop.
    + send_counts_step (IH (count_sent args (rv sent))).
Qed.

Lemma A2_send_loop_counts call args tr :
  let r := A2_Server.send_loop call args tr in
  wrap64 (bytes_sent args) = bytes_sent args ∧
  wrap64 (messages_sent args) = messages_sent args ->
  bytes_sent (final r) = wrap64 (bytes_sent args + sum_positive (calls r)) ∧
  messages_sent (final r)
  = wrap64 (messages_sent args + count_nonnegative (calls r)).
Proof.
  cbv zeta. revert args. induction tr as [|sent rest IH]; intros args.
  - simpl. counts_base.
  - simpl. destruct (Z.ltb_spec (rv sent) 0).
    + destruct ((err sent =? EPIPE) || (err sent =? ECONNRESET)); counts_stop.
    + send_counts_step (IH (count_sent args (rv sent))).
Qed.

Lemma A3_send_loop_counts zc fd iov args tr :
  let r := A3_Server.send_loop zc fd iov args tr in
  wrap64 (bytes_sent args) = bytes_sent args ∧
  wrap64 (messages_sent args) = messages_sent args ->
  bytes_sent (final r) = wrap64 (bytes_sent args + sum_positive (calls r)) ∧
  messages_sent (final r)
  = wrap64 (messages_sent args + count_nonnegative (calls r)).
Proof.
  cbv zeta. revert args. induction tr as [|k rest IH]; intros args.
  - simpl. counts_base.
  - cbn [A3_Server.send_loop]. destruct zc; split_loop;
      first [ counts_stop
            | send_counts_step (IH args)
            | send_counts_step
                (IH (count_sent args (rv (A3_Server.plain_answer k))))
            | send_counts_step
                (IH (count_sent args (rv (A3_Server.zerocopy_answer k)))) ].
Qed.

(** The three receiving loops count the bytes of the calls that returned
    something, and those calls. *)
Lemma A1_recv_loop_counts call args tr :
  let r := A1_Client.recv_loop call args tr in
  wrap64 (bytes_received args) = bytes_received args ∧
  wrap64 (messages_received args) = messages_received args ->
  bytes_received (final r)
  = wrap64 (bytes_received args + sum_positive (calls r)) ∧
  messages_received (final r)
  = wrap64 (messages_received args + count_positive (calls r)).
Proof.
  cbv zeta. revert args. induction tr as [|ev rest IH]; intros args.
  - simpl. counts_base.
  - cbn [A1_Client.recv_loop]. cbv zeta. split_loop;
      first [ counts_stop
            | send_counts_step (IH args)
            | send_counts_step
                (IH (count_received args (rv (received ev))
                       (msg_start ev) (msg_end ev))) ].
Qed.

Lemma A2_recv_loop_counts call args tr :
  let r := A2_Client.recv_loop call args tr in
  wrap64 (bytes_received args) = bytes_received args ∧
  wrap64 (messages_received args) = messages_received args ->
  bytes_received (final r)
  = wrap64 (bytes_received args + sum_positive (calls r)) ∧
  messages_received (final r)
  = wrap64 (messages_received args + count_positive (calls r)).
Proof.
  cbv zeta. revert args. induction tr as [|ev rest IH]; intros args.
  - simpl. counts_base.
  - cbn [A2_Client.recv_loop]. cbv zeta. split_loop;
      first [ counts_stop
            | send_counts_step (IH args)
            | send_counts_step
                (IH (count_received args (rv (received ev))
                       (msg_start ev) (msg_end ev))) ].
Qed.

Lemma A3_recv_loop_counts call args tr :
  let r := A3_Client.recv_loop call args tr in
  wrap64 (bytes_received args) = bytes_received args ∧
  wrap64 (messages_received args) = messages_received args ->
  bytes_received (final r)
  = wrap64 (bytes_received args + sum_positive (calls r)) ∧
  messages_received (final r)
  = wrap64 (messages_received args + count_positive (calls r)).
Proof.
  cbv zeta. revert args. induction tr as [|ev rest IH]; intros args.
  - simpl. counts_base.
  - cbn [A3_Client.recv_loop]. cbv zeta. split_loop;
      first [ counts_stop
            | send_counts_step (IH args)
            | send_counts_step
                (IH (count_received args (rv (received ev))
                       (msg_start ev) (msg_end ev))) ].
Qed.

(** ** Interrupted calls *)

Ltac eintr_head :=
  match goal with
  | Hi : interrupted _ |- _ =>
      let Hneg := fresh in let He := fresh in
      destruct Hi as [Hneg He];
      cbn [A1_Server.send_loop A2_Server.send_loop A3_Server.send_loop];
      apply Z.ltb_lt in Hneg; rewrite ?Hneg, ?He;
      try simpl (true && _); cbv beta iota;
      rewrite ?Hneg, ?He; reflexivity
  end.

Ltac eintr_through IH :=
  cbn [app]; simpl; split_loop;
  first [ done | cbn [iterate final exit]; apply IH ].

Lemma A1_recv_loop_interrupted call args pre ev post :
  interrupted (received ev) ->
  final (A1_Client.recv_loop call args (pre ++ ev :: post))
  = final (A1_Client.recv_loop call args (pre ++ post)) ∧
  exit (A1_Client.recv_loop call args (pre ++ ev :: post))
  = exit (A1_Client.recv_loop call args (pre ++ post)).
Proof.
  intros Hi. revert args. induction pre as [|a pre IH]; intros args.
  - destruct Hi as [Hneg He]. apply Z.ltb_lt in Hneg.
    simpl. by rewrite Hneg, He.
  - eintr_through IH.
Qed.

Lemma A2_recv_loop_interrupted call args pre ev post :
  interrupted (received ev) ->
  final (A2_Client.recv_loop call args (pre ++ ev :: post))
  = final (A2_Client.recv_loop call args (pre ++ post)) ∧
  exit (A2_Client.recv_loop call args (pre ++ ev :: post))
  = exit (A2_Client.recv_loop call args (pre ++ post)).
Proof.
  intros Hi. revert args. induction pre as [|a pre IH]; intros args.
  - destruct Hi as [Hneg He]. apply Z.ltb_lt in Hneg.
    simpl. by rewrite Hneg, He.
  - eintr_through IH.
Qed.

Lemma A3_recv_loop_interrupted call args pre ev post :
  interrupted (received ev) ->
  final (A3_Client.recv_loop call args (pre ++ ev :: post))
  = final (A3_Client.recv_loop call args (pre ++ post)) ∧
  exit (A3_Client.recv_loop call args (pre ++ ev :: post))
  = exit (A3_Client.recv_loop call args (pre ++ post)).
Proof.
  intros Hi. revert args. induction pre as [|a pre IH]; intros args.
  - destruct Hi as [Hneg He]. apply Z.ltb_lt in Hneg.
    simpl. by rewrite Hneg, He.
  - eintr_through IH.
Qed.

Lemma A1_send_loop_interrupted call args sent post :
  interrupted sent ->
  A1_Server.send_loop call args (sent :: post)
  = mkRun args [(call, sent)] 1%nat (IOError EINTR).
Proof. intros Hi. eintr_head. Qed.

Lemma A2_send_loop_interrupted call args sent post :
  interrupted sent ->
  A2_Server.send_loop call args (sent :: post)
  = mkRun args [(call, sent)] 1%nat (IOError EINTR).
Proof. intros Hi. eintr_head. Qed.

Lemma A3_send_loop_interrupted_plain fd iov args k post :
  interrupted (A3_Server.plain_answer k) ->
  A3_Server.send_loop false fd iov args (k :: post)
  = mkRun args [(SYS_sendmsg fd iov 0, A3_Server.plain_answer k)] 1%nat
          (IOError EINTR).
Proof. intros Hi. eintr_head. Qed.

Lemma A3_send_loop_interrupted_offload fd iov args k post :
  interrupted (A3_Server.zerocopy_answer k) ->
  A3_Server.send_loop true fd iov args (k :: post)
  = mkRun args [(SYS_sendmsg fd iov MSG_ZEROCOPY, A3_Server.zerocopy_answer k)]
          1%nat (IOError EINTR).
Proof. intros Hi. eintr_head. Qed.

Lemma A3_send_loop_interrupted_retry fd iov args k post :
  offload_refused (A3_Server.zerocopy_answer k) = true ->
  interrupted (A3_Server.plain_answer k) ->
  A3_Server.send_loop true fd iov args (k :: post)
  = mkRun args [(SYS_sendmsg fd iov MSG_ZEROCOPY, A3_Server.zerocopy_answer k);
                (SYS_sendmsg fd iov 0, A3_Server.plain_answer k)]
          1%nat (IOError EINTR).
Proof.
  intros Hr Hi. cbn [A3_Server.send_loop]. unfold offload_refused in Hr.
  rewrite Hr. eintr_head.
Qed.

(** ** The offloaded strategy *)

Lemma A3_offload_calls fd iov args tr :
  let r := A3_Server.send_loop true fd iov args tr in
  calls r = concat (map (offload_iteration fd iov) (take (iterations r) tr)) ∧
  (iterations r <= length tr)%nat.
Proof.
  cbv zeta. revert args. induction tr as [|k rest IH]; intros args.
  - done.
  - cbn [A3_Server.send_loop].
    assert (offload_iteration fd iov k
            = if (rv (A3_Server.zerocopy_answer k) <? 0)
                 && ((err (A3_Server.zerocopy_answer k) =? ENOBUFS)
                     || (err (A3_Server.zerocopy_answer k) =? EINVAL))
              then [(SYS_sendmsg fd iov MSG_ZEROCOPY, A3_Server.zerocopy_answer k);
                    (SYS_sendmsg fd iov 0, A3_Server.plain_answer k)]
              else [(SYS_sendmsg fd iov MSG_ZEROCOPY,
                     A3_Server.zerocopy_answer k)]) as Hit by reflexivity.
    destruct ((rv (A3_Server.zerocopy_answer k) <? 0)
              && ((err (A3_Server.zerocopy_answer k) =? ENOBUFS)
                  || (err (A3_Server.zerocopy_answer k) =? EINVAL)));
      cbv beta iota;
      repeat match goal with
             | |- context [if ?b then _ else _] => destruct b
             end;
      cbn [calls iterations iterate take map concat length app];
      rewrite Hit; cbn [app];
      first [ split; [reflexivity|lia]
            | match goal with
              | |- context [A3_Server.send_loop true fd iov ?a rest] =>
                  destruct (IH a) as [<- Hle]; split; [reflexivity|lia]
              end ].
Qed.

Lemma A3_plain_loop fd iov args tr :
  Forall (fun k => would_block (A3_Server.plain_answer k) = false) tr ->
  A3_Server.send_loop false fd iov args tr
  = A2_Server.send_loop (SYS_sendmsg fd iov 0) args
      (map A3_Server.plain_answer tr).
Proof.
  intros Hall. revert args.
  induction Hall as [|k rest Hk _ IH]; intros args; [done|].
  cbn [A3_Server.send_loop A2_Server.send_loop map]. cbv beta iota.
  unfold would_block in Hk.
  destruct (rv (A3_Server.plain_answer k) <? 0).
  - simpl in Hk. rewrite Hk.
    by destruct ((err (A3_Server.plain_answer k) =? EPIPE)
                 || (err (A3_Server.plain_answer k) =? ECONNRESET)).
  - by rewrite IH.
Qed.

End Loops.

(** ** Workers *)

Lemma bind_inv {A B} (m : heapM A) (f : A -> heapM B) w b w' :
  bind m f w = Some (b, w') ->
  ∃ a w1, m w = Some (a, w1) ∧ f a w1 = Some (b, w').
Proof.
  unfold bind. destruct (m w) as [[a w1]|]; [|done]. simpl. eauto.
Qed.

Lemma store_header_inv d total field w u w' :
  store_header (Some d) total field w = Some (u, w') -> header_at d total w'.
Proof.
  unfold store_header, header_at.
  destruct (heap w !! d) as [[bytes| |]|]; try done.
  destruct (Z.of_nat (length bytes) <? sizeof_SerializedMessage); [done|].
  intros [= _ <-]. eexists. split; [apply lookup_insert_eq|done].
Qed.

Lemma memcpy_data_inv d off src n w u w' t :
  memcpy_data (Some d) off src n w = Some (u, w') ->
  header_at d t w -> header_at d t w'.
Proof.
  unfold memcpy_data, header_at. intros Hc (sm & Hd & Ht).
  destruct src as [s|]; [|done]. rewrite Hd in Hc.
  destruct (heap w !! s) as [[bytes| |]|]; try done.
  destruct ((Z.of_nat (length bytes) <? n)
            || (Z.of_nat (length (data sm)) <? off + n)); [done|].
  injection Hc as _ <-. eexists. split; [apply lookup_insert_eq|done].
Qed.

Lemma load_Message_inv p w m w' :
  load_Message p w = Some (m, w') -> w' = w.
Proof.
  unfold load_Message. destruct p as [l|]; [|done].
  destruct (heap w !! l) as [[| |]|]; try done. by intros [= _ <-].
Qed.

Lemma serialize_total_size msg fs w d w' :
  serialize_message msg fs w = Some (Some d, w') ->
  header_at d (wrap64 (NUM_FIELDS * fs)) w'.
Proof.
  unfold serialize_message. cbv zeta. rewrite bind_malloc.
  destruct (malloc_step _ w) as [[d0|] w1]; cbn [fst snd is_null];
    [|by intros [= ]].
  intros Hrun.
  apply bind_inv in Hrun as ([] & w2 & Hh & Hrun).
  apply store_header_inv in Hh.
  apply bind_inv in Hrun as (m & w3 & Hl & Hrun).
  apply load_Message_inv in Hl as ->.
  do 8 (apply bind_inv in Hrun as ([] & ? & ?Hc & Hrun);
        eapply memcpy_data_inv in Hc; [|eassumption]; clear Hh; rename Hc into Hh).
  by injection Hrun as <- <-.
Qed.

Section Workers.
Context `{FloatOps}.

Lemma A1_send_loop_calls call args tr :
  Forall (fun c => c.1 = call) (calls (A1_Server.send_loop call args tr)).
Proof.
  revert args. induction tr as [|sent rest IH]; intros args; simpl.
  - constructor.
  - destruct (rv sent <? 0).
    + destruct ((err sent =? EPIPE) || (err sent =? ECONNRESET));
        repeat constructor.
    + constructor; [done|apply IH].
Qed.

Lemma A1_recv_loop_calls call args tr :
  Forall (fun c => c.1 = call) (calls (A1_Client.recv_loop call args tr)).
Proof.
  revert args. induction tr as [|ev rest IH]; intros args; simpl.
  - constructor.
  - destruct (rv (received ev) <? 0).
    + destruct (err (received ev) =? EINTR); [|repeat constructor].
      constructor; [done|apply IH].
    + destruct (rv (received ev) =? 0); [repeat constructor|].
      constructor; [done|apply IH].
Qed.

(** Every [send] of the copy-based server asks for the size that the
    header of its Transfer Unit says. *)
Lemma A1_handle_client_calls args env w r w' :
  A1_Server.handle_client args env w = Some (r, w') ->
  Forall (fun c => ∃ buf,
            c.1 = SYS_send (client_fd args) buf
                    (wrap64 (NUM_FIELDS * (sa_msg_size args / NUM_FIELDS))) 0)
         (calls r).
Proof.
  unfold A1_Server.handle_client. cbv zeta. intros Hrun.
  apply bind_inv in Hrun as (msg & w1 & _ & Hrun).
  destruct (is_null msg); [injection Hrun as <- _; constructor|].
  apply bind_inv in Hrun as (smsg & w2 & Hser & Hrun).
  destruct smsg as [d|]; cbn [is_null] in Hrun.
  2: { apply bind_inv in Hrun as (? & ? & _ & Hrun).
       injection Hrun as <- _. constructor. }
  apply serialize_total_size in Hser as (sm & Hd & Ht).
  apply bind_inv in Hrun as (sm' & w3 & Hload & Hrun).
  unfold load_Serialized in Hload. rewrite Hd in Hload.
  injection Hload as <- <-.
  apply bind_inv in Hrun as (? & ? & _ & Hrun).
  apply bind_inv in Hrun as (? & ? & _ & Hrun).
  injection Hrun as <- _. cbn [calls]. rewrite Ht.
  eapply Forall_impl; [apply A1_send_loop_calls|].
  intros c ->. simpl. eauto.
Qed.

Lemma A1_client_thread_calls args env g :
  Forall (fun c => c.1 = SYS_recv (socket_rv env) (ca_msg_size args) 0)
         (calls (fst (A1_Client.client_thread args env g))).
Proof.
  unfold A1_Client.client_thread. cbv zeta.
  repeat match goal with
         | |- context [if ?b then _ else _] => destruct b
         end; cbn [fst calls not_started]; try constructor.
  apply A1_recv_loop_calls.
Qed.

(** Without the socket option, the offloaded server is the
    scatter/gather server, as long as no send would block. *)
Lemma A3_fallback_handle_client args env w :
  setsockopt_rv env ≠ 0 ->
  Forall (fun k => would_block (A3_Server.plain_answer k) = false) (trace env) ->
  A3_Server.handle_client args env w
  = A2_Server.handle_client args (plain_env env) w.
Proof.
  intros Hopt Hall. unfold A3_Server.handle_client, A2_Server.handle_client.
  cbv zeta. apply Z.eqb_neq in Hopt. rewrite Hopt.
  unfold bind. destruct (create_message _ w) as [[msg w1]|]; [|done].
  cbn [fst snd]. destruct (is_null msg); [done|].
  destruct (load_Message msg w1) as [[m w2]|]; [|done].
  cbn [fst snd plain_env trace start_time finish_time].
  by rewrite A3_plain_loop.
Qed.

End Workers.

(** ** The client aggregate *)

Section Aggregate.
Context `{FloatOps}.
Variable client_thread :
  ClientThreadArgs -> client_env -> Metrics -> run ClientThreadArgs * Metrics.

(** What the three [client_thread] have in common: the run of a worker
    does not depend on [global_metrics], and the worker merges its
    record exactly when it reached its loop. *)
Hypothesis client_thread_local : ∀ a e g g',
  fst (client_thread a e g) = fst (client_thread a e g').
Hypothesis client_thread_merge : ∀ a e g,
  snd (client_thread a e g)
  = match exit (fst (client_thread a e g)) with
    | NotStarted => g
    | _ => update_global_metrics g (final (fst (client_thread a e g)))
    end.

Lemma run_threads_avg_latency msg_size duration slots envs lock_order g :
  avg_latency_us
    (run_threads client_thread msg_size duration slots envs lock_order g)
  = fold_left d_add
      (omap (fun i => worker_mean client_thread
                        (init_client_slot (slots i) i msg_size duration)
                        (envs i))
            lock_order)
      (avg_latency_us g).
Proof.
  unfold run_threads. revert g.
  induction lock_order as [|i rest IH]; intros g; [done|].
  cbn [fold_left]. rewrite IH, client_thread_merge.
  rewrite (client_thread_local _ _ g global_metrics_init).
  change (omap ?f (i :: rest))
    with (match f i with Some y => y :: omap f rest | None => omap f rest end).
  unfold worker_mean at 2.
  by destruct (exit _).
Qed.

Lemma client_main_avg_latency num_threads msg_size duration create_rv slots
    envs lock_order :
  avg_latency_us
    (client_main client_thread num_threads msg_size duration create_rv slots
                 envs lock_order)
  = d_div
      (sum_double
         (omap (fun i => worker_mean client_thread
                           (init_client_slot (slots i) i msg_size duration)
                           (envs i))
               lock_order))
      (d_of_Z (create_loop num_threads create_rv (Z.to_nat num_threads) 0)).
Proof.
  unfold client_main. cbn [avg_latency_us].
  by rewrite run_threads_avg_latency.
Qed.

End Aggregate.

Section Clients.
Context `{FloatOps}.

Ltac thread_cases :=
  intros; cbv zeta;
  repeat match goal with
         | |- context [if ?b then _ else _] => destruct b
         end; reflexivity.

Lemma A1_client_thread_local a e g g' :
  fst (A1_Client.client_thread a e g) = fst (A1_Client.client_thread a e g').
Proof. unfold A1_Client.client_thread. thread_cases. Qed.

Lemma A2_client_thread_local a e g g' :
  fst (A2_Client.client_thread a e g) = fst (A2_Client.client_thread a e g').
Proof. unfold A2_Client.client_thread. thread_cases. Qed.

Lemma A3_client_thread_local a e g g' :
  fst (A3_Client.client_thread a e g) = fst (A3_Client.client_thread a e g').
Proof. unfold A3_Client.client_thread. thread_cases. Qed.

Lemma A1_recv_loop_started call args tr :
  exit (A1_Client.recv_loop call args tr) ≠ NotStarted.
Proof.
  revert args. induction tr as [|ev rest IH]; intros args; simpl; [done|].
  repeat match goal with
         | |- context [if ?b then _ else _] => destruct b
         end; simpl; done.
Qed.

Lemma A2_recv_loop_started call args tr :
  exit (A2_Client.recv_loop call args tr) ≠ NotStarted.
Proof.
  revert args. induction tr as [|ev rest IH]; intros args; simpl; [done|].
  repeat match goal with
         | |- context [if ?b then _ else _] => destruct b
         end; simpl; done.
Qed.

Lemma A3_recv_loop_started call args tr :
  exit (A3_Client.recv_loop call args tr) ≠ NotStarted.
Proof.
  revert args. induction tr as [|ev rest IH]; intros args; simpl; [done|].
  repeat match goal with
         | |- context [if ?b then _ else _] => destruct b
         end; simpl; done.
Qed.

Lemma A1_client_thread_merge a e g :
  snd (A1_Client.client_thread a e g)
  = match exit (fst (A1_Client.client_thread a e g)) with
    | NotStarted => g
    | _ => update_global_metrics g (final (fst (A1_Client.client_thread a e g)))
    end.
Proof.
  unfold A1_Client.client_thread. cbv zeta.
  repeat match goal with
         | |- context [if ?b then _ else _] => destruct b
         end; cbn [fst snd exit final not_started]; try reflexivity.
  match goal with
  | |- context [exit (A1_Client.recv_loop ?c ?x ?t)] =>
      pose proof (A1_recv_loop_started c x t) as Hs;
      destruct (exit (A1_Client.recv_loop c x t))
  end; done.
Qed.

Lemma A2_client_thread_merge a e g :
  snd (A2_Client.client_thread a e g)
  = match exit (fst (A2_Client.client_thread a e g)) with
    | NotStarted => g
    | _ => update_global_metrics g (final (fst (A2_Client.client_thread a e g)))
    end.
Proof.
  unfold A2_Client.client_thread. cbv zeta.
  repeat match goal with
         | |- context [if ?b then _ else _] => destruct b
         end; cbn [fst snd exit final not_started]; try reflexivity.
  match goal with
  | |- context [exit (A2_Client.recv_loop ?c ?x ?t)] =>
      pose proof (A2_recv_loop_started c x t) as Hs;
      destruct (exit (A2_Client.recv_loop c x t))
  end; done.
Qed.

Lemma A3_client_thread_merge a e g :
  snd (A3_Client.client_thread a e g)
  = match exit (fst (A3_Client.client_thread a e g)) with
    | NotStarted => g
    | _ => update_global_metrics g (final (fst (A3_Client.client_thread a e g)))
    end.
Proof.
  unfold A3_Client.client_thread. cbv zeta.
  repeat match goal with
         | |- context [if ?b then _ else _] => destruct b
         end; cbn [fst snd exit final not_started]; try reflexivity.
  match goal with
  | |- context [exit (A3_Client.recv_loop ?c ?x ?t)] =>
      pose proof (A3_recv_loop_started c x t) as Hs;
      destruct (exit (A3_Client.recv_loop c x t))
  end; done.
Qed.

End Clients.

(** ** Release *)

Ltac look_deleted :=
  repeat first [rewrite lookup_delete_eq | rewrite lookup_delete_ne by congruence].

Lemma free_live w l b :
  heap w !! l = Some b ->
  free (Some l) w = Some (tt, with_heap w (delete l (heap w))).
Proof. intros Hl. unfold free. by rewrite Hl. Qed.

(** [free_message] gives back everything [create_message] obtained. *)
Lemma free_message_built h s m ls w :
  built h s m ls (heap w) ->
  free_message (Some m) w = Some (tt, with_heap w h).
Proof.
  intros Hb.
  destruct ls as [|l1 [|l2 [|l3 [|l4 [|l5 [|l6 [|l7 [|l8 [|]]]]]]]]]; try done.
  destruct Hb as (Hnd & Hfresh & Hsame & Hm & B1 & B2 & B3 & B4 & B5 & B6 & B7 & B8).
  unfold free_message. cbn [is_null].
  rewrite (bind_Some _ _ _ _ _ (load_Message_at _ _ _ Hm)).
  cbn [field1 field2 field3 field4 field5 field6 field7 field8].
  repeat (apply NoDup_cons in Hnd as [?Hne Hnd]).
  rewrite ?not_elem_of_cons in *. destruct_and!.
  do 8 (erewrite bind_Some;
        [|eapply free_live; cbn [heap with_heap]; look_deleted; eassumption]).
  erewrite free_live; [|cbn [heap with_heap]; look_deleted; eassumption].
  cbn [heap with_heap]. do 2 f_equal. unfold with_heap. f_equal.
  apply map_eq. intros l.
  destruct (decide (l ∈ [m; l1; l2; l3; l4; l5; l6; l7; l8])) as [Hin|Hin].
  - rewrite (Hfresh l Hin).
    repeat (apply elem_of_cons in Hin as [->|Hin]; [by look_deleted|]).
    by apply elem_of_nil in Hin.
  - rewrite <- (Hsame l Hin). rewrite !not_elem_of_cons in Hin. destruct_and!.
    by look_deleted.
Qed.

Section Release.
Context `{FloatOps}.

(** The copy-based worker is defined on every path and leaves the heap
    as it found it. *)
Lemma A1_handle_client_defined args env w :
  0 <= sa_msg_size args ->
  sa_msg_size args + sizeof_SerializedMessage < ULONG_MODULUS ->
  ∃ r w', A1_Server.handle_client args env w = Some (r, w') ∧
          heap w' = heap w.
Proof.
  intros Hpos Hfit. unfold A1_Server.handle_client. cbv zeta.
  set (fs := sa_msg_size args / NUM_FIELDS).
  assert (0 <= fs ∧ sizeof_SerializedMessage + NUM_FIELDS * fs < ULONG_MODULUS)
    as [Hfs Hfit'].
  { unfold fs, NUM_FIELDS in *. pose proof (Z.mul_div_le (sa_msg_size args) 8).
    pose proof (Z.div_pos (sa_msg_size args) 8). lia. }
  destruct (create_message_spec fs w) as (p & w1 & Hrun & _ & Hp).
  rewrite (bind_Some _ _ _ _ _ Hrun).
  destruct p as [m|]; cbn [is_null].
  2: { destruct Hp as [_ Hh]. by eexists _, _. }
  destruct Hp as [_ [ls Hb]].
  destruct (serialize_built fs w1 (heap w) m ls Hfs Hfit' Hb)
    as (q & w2 & Hser & _ & _ & Hq).
  rewrite (bind_Some _ _ _ _ _ Hser).
  destruct q as [d|]; cbn [is_null].
  - destruct Hq as (_ & Hfresh & Hh2).
    erewrite bind_Some;
      [|unfold load_Serialized; rewrite Hh2, lookup_insert_eq; reflexivity].
    erewrite bind_Some;
      [|eapply free_live; rewrite Hh2; apply lookup_insert_eq].
    erewrite bind_Some;
      [|apply (free_message_built (heap w) fs m ls); cbn [heap with_heap];
        rewrite Hh2, delete_insert_id by done; exact Hb].
    by eexists _, _.
  - destruct Hq as [_ Hh2].
    erewrite bind_Some;
      [|apply (free_message_built (heap w) fs m ls); by rewrite Hh2].
    by eexists _, _.
Qed.

Lemma built_load h s m ls w :
  built h s m ls (heap w) -> ∃ msg, load_Message (Some m) w = Some (msg, w).
Proof.
  intros Hb.
  destruct ls as [|l1 [|l2 [|l3 [|l4 [|l5 [|l6 [|l7 [|l8 [|]]]]]]]]]; try done.
  destruct Hb as (_ & _ & _ & Hm & _). eexists. by apply load_Message_at.
Qed.

(** So are the scatter/gather worker and the offloaded worker. *)
Lemma A2_handle_client_defined args env w :
  ∃ r w', A2_Server.handle_client args env w = Some (r, w') ∧
          heap w' = heap w.
Proof.
  unfold A2_Server.handle_client. cbv zeta.
  set (fs := sa_msg_size args / NUM_FIELDS).
  destruct (create_message_spec fs w) as (p & w1 & Hrun & _ & Hp).
  rewrite (bind_Some _ _ _ _ _ Hrun).
  destruct p as [m|]; cbn [is_null].
  2: { destruct Hp as [_ Hh]. by eexists _, _. }
  destruct Hp as [_ [ls Hb]].
  destruct (built_load _ _ _ _ _ Hb) as [msg Hload].
  rewrite (bind_Some _ _ _ _ _ Hload).
  rewrite (bind_Some _ _ _ _ _ (free_message_built _ _ _ _ _ Hb)).
  by eexists _, _.
Qed.

Lemma A3_handle_client_defined args env w :
  ∃ r w', A3_Server.handle_client args env w = Some (r, w') ∧
          heap w' = heap w.
Proof.
  unfold A3_Server.handle_client. cbv zeta.
  set (fs := sa_msg_size args / NUM_FIELDS).
  destruct (create_message_spec fs w) as (p & w1 & Hrun & _ & Hp).
  rewrite (bind_Some _ _ _ _ _ Hrun).
  destruct p as [m|]; cbn [is_null].
  2: { destruct Hp as [_ Hh]. by eexists _, _. }
  destruct Hp as [_ [ls Hb]].
  destruct (built_load _ _ _ _ _ Hb) as [msg Hload].
  rewrite (bind_Some _ _ _ _ _ Hload).
  rewrite (bind_Some _ _ _ _ _ (free_message_built _ _ _ _ _ Hb)).
  by eexists _, _.
Qed.

End Release.

(** Where the size condition of [serialize_built] ends: for a field of
    [2^61 - 1] bytes the size of the block wraps around to 8 bytes, and
    the stores of the header already fall outside it. *)
Lemma serialize_message_header_overflow msg w j :
  supply w (served w) = Some j ->
  serialize_message msg (2 ^ 61 - 1) w = None.
Proof.
  intros Hj. unfold serialize_message. cbv zeta. rewrite bind_malloc.
  unfold malloc_step. rewrite Hj. cbn [fst snd is_null].
  unfold bind at 1. unfold store_header. cbn [heap].
  rewrite lookup_insert_eq, length_junk_bytes.
  replace (wrap64 (sizeof_SerializedMessage + wrap64 (NUM_FIELDS * (2 ^ 61 - 1))))
    with 8 by (by vm_compute).
  reflexivity.
Qed.

(** ** Receive counts *)

Lemma count_positive_pos cs :
  Exists (fun c : syscall * sysret => 0 < rv c.2) cs -> 0 < count_positive cs.
Proof.
  induction 1 as [c cs Hc|c cs _ IH]; rewrite count_positive_cons.
  - apply Z.ltb_lt in Hc. rewrite Hc. pose proof (count_positive_nonneg cs). lia.
  - destruct (0 <? rv c.2); lia.
Qed.

Lemma sum_positive_multiple (u : Z) cs :
  Forall (fun c : syscall * sysret => 0 < rv c.2 -> rv c.2 mod u = 0) cs ->
  sum_positive cs mod u = 0.
Proof.
  induction 1 as [|c cs Hc _ IH]; [apply Zmod_0_l|].
  rewrite sum_positive_cons. destruct (Z.ltb_spec 0 (rv c.2)); [|done].
  rewrite <- Zplus_mod_idemp_l, (Hc ltac:(done)), Z.add_0_l. done.
Qed.

Lemma A1_recv_loop_calls_length `{FloatOps} call args tr :
  (length (calls (A1_Client.recv_loop call args tr)) <= length tr)%nat.
Proof.
  revert args. induction tr as [|ev rest IH]; intros args; simpl; [done|].
  repeat match goal with
         | |- context [if ?b then _ else _] => destruct b
         end; simpl; try lia.
  - specialize (IH args). lia.
  - specialize (IH (count_received args (rv (received ev)) (msg_start ev)
                      (msg_end ev))). lia.
Qed.

(** ** Main results *)

(** C8. [create_message] is all or nothing, whatever the allocator
    answers to each of its nine requests: it is always defined, and
    either it returns a Message whose eight fields are live blocks, field
    [i] holding [field_size] times its own byte (and then every request
    was granted), or it returns [NULL] with the heap exactly as it found
    it, every field it had obtained and the record itself released (and
    then some request was refused). *)
Theorem create_message_all_or_nothing (field_size : Z) (w : world) :
  ∃ p w', create_message field_size w = Some (p, w') ∧
    match p with
    | Some m =>
        (∀ k, (k ≤ 8)%nat -> is_Some (supply w (served w + k)%nat)) ∧
        ∃ ls, built (heap w) field_size m ls (heap w')
    | None =>
        (∃ k, (k ≤ 8)%nat ∧ supply w (served w + k)%nat = None) ∧
        heap w' = heap w
    end.
Proof.
  destruct (create_message_spec field_size w) as (p & w' & Hrun & _ & Hp).
  by exists p, w'.
Qed.

(** C4. For a Message built with field size [s] (no wrap-around of
    [sizeof(SerializedMessage) + 8 * s]), [serialize_message] is defined;
    it returns [NULL] exactly when its one allocation is refused, and
    then changes nothing; otherwise its block holds [total_size = 8 * s]
    and, as data, [s] bytes of ['A'], then [s] of ['B'], ..., then [s] of
    ['H']: [8 * s] bytes. *)
Theorem serialize_message_is_concatenation (s : Z) (w : world) (m : loc)
    (w1 : world) :
  0 <= s ->
  sizeof_SerializedMessage + NUM_FIELDS * s < ULONG_MODULUS ->
  create_message s w = Some (Some m, w1) ->
  ∃ p w2, serialize_message (Some m) s w1 = Some (p, w2) ∧
    (p = NULL ↔ supply w1 (served w1) = None) ∧
    match p with
    | None => heap w2 = heap w1
    | Some sm =>
        heap w1 !! sm = None ∧
        heap w2 = <[sm := SerializedBlock
                             {| total_size := 8 * s; field_size := s;
                                data := pattern s |}]> (heap w1) ∧
        Z.of_nat (length (pattern s)) = 8 * s
    end.
Proof.
  intros Hs Hfit Hmsg.
  destruct (create_message_spec s w) as (p & w' & Hrun & _ & Hp).
  rewrite Hmsg in Hrun. injection Hrun as <- <-.
  destruct Hp as [_ [ls Hb]].
  destruct (serialize_built s w1 (heap w) m ls Hs Hfit Hb)
    as (p & w2 & Hser & _ & _ & Hp).
  exists p, w2. split; [done|]. destruct p as [sm|].
  - destruct Hp as ([j Hj] & Hfresh & Hheap). split.
    + split; [done|]. rewrite Hj. done.
    + split; [done|]. split; [done|].
      unfold pattern. rewrite !length_app, !repeat_length. lia.
  - destruct Hp as [Hnone Hheap]. done.
Qed.

Lemma serialize_message_is_concatenation_witness :
  ∃ p w2,
    serialize_message (Some 1%positive) 2
      (match create_message 2 (Examples.empty_world Examples.generous) with
       | Some (_, w1) => w1
       | None => Examples.empty_world Examples.generous
       end) = Some (p, w2) ∧ p ≠ NULL.
Proof.
  destruct (serialize_message_is_concatenation 2
              (Examples.empty_world Examples.generous) 1%positive
              (match create_message 2 (Examples.empty_world Examples.generous) with
               | Some (_, w1) => w1
               | None => Examples.empty_world Examples.generous
               end))
    as (p & w2 & Hrun & Hnull & _).
  - lia.
  - vm_compute. reflexivity.
  - vm_compute. reflexivity.
  - exists p, w2. split; [exact Hrun|].
    intros Hp. apply Hnull in Hp. vm_compute in Hp. discriminate.
Defined.

(** C9. For every configured size [m] (a [size_t]), each [send] of the
    copy-based server asks for [8 * (m / 8)] bytes, which is less than [m]
    whenever [m] is not a multiple of 8, while each [recv] of the
    copy-based client asks for the full [m] bytes.  (The server worker
    is defined as soon as the block of the Transfer Unit, header
    included, has a size that fits [size_t].) *)
Theorem wire_size_truncates `{FloatOps} (m : Z) :
  0 <= m < ULONG_MODULUS ->
  let wire := wrap64 (NUM_FIELDS * (m / NUM_FIELDS)) in
  wire = 8 * (m / 8) ∧
  (m mod 8 ≠ 0 -> wire < m) ∧
  (∀ args env w r w',
     sa_msg_size args = m ->
     A1_Server.handle_client args env w = Some (r, w') ->
     Forall (fun c => ∃ buf, c.1 = SYS_send (client_fd args) buf wire 0)
            (calls r)) ∧
  (m + sizeof_SerializedMessage < ULONG_MODULUS ->
   ∀ args env w,
     sa_msg_size args = m ->
     ∃ r w', A1_Server.handle_client args env w = Some (r, w')) ∧
  (∀ args env g,
     ca_msg_size args = m ->
     Forall (fun c => c.1 = SYS_recv (socket_rv env) m 0)
            (calls (fst (A1_Client.client_thread args env g)))).
Proof.
  intros Hm wire.
  assert (wire = 8 * (m / 8)) as Hwire.
  { unfold wire, NUM_FIELDS. apply wrap64_small.
    pose proof (Z.mul_div_le m 8). pose proof (Z.div_pos m 8). lia. }
  split; [done|]. split.
  { intros Hrem. rewrite Hwire.
    pose proof (Z.div_mod m 8). pose proof (Z.mod_pos_bound m 8). lia. }
  split.
  { intros args env w r w' <- Hrun. by apply A1_handle_client_calls in Hrun. }
  split.
  { intros Hfit args env w <-.
    destruct (A1_handle_client_defined args env w) as (r & w' & Hrun & _);
      [lia|done|eauto]. }
  intros args env g <-. apply A1_client_thread_calls.
Qed.

Lemma wire_size_truncates_witness :
  (0 <= 1001 < ULONG_MODULUS) ∧
  wrap64 (NUM_FIELDS * (1001 / NUM_FIELDS)) = 1000 ∧
  (∃ r w,
     A1_Server.handle_client (Examples.server_args 1001)
       (Examples.serving 0 [Examples.full 1000])
       (Examples.empty_world Examples.generous) = Some (r, w) ∧
     calls r = [(SYS_send 4 (Some 10%positive) 1000 0, Examples.full 1000)]) ∧
  calls (fst (A1_Client.client_thread (Examples.client_args 1001)
                (Examples.connected 10%Q [Examples.full 1000])
                global_metrics_init))
  = [(SYS_recv 3 1001 0, Examples.full 1000)].
Proof.
  split; [by vm_compute|].
  destruct (wire_size_truncates (H := Q_FloatOps) 1001) as (Hw & _ & _ & _).
  - by vm_compute.
  - split; [exact Hw|]. split; [|reflexivity].
    eexists _, _. vm_compute. split; reflexivity.
Defined.

(** C10, as the code has it.  In every worker loop of every strategy the
    byte counter is the sum, modulo [2^64], of the positive return
    values of the transfer calls, a short call counting as one call like
    any other.  The message counter of a receiving loop is the number
    (modulo [2^64]) of the calls that returned a positive value; the
    message counter of a sending loop is the number of the calls that
    did not fail, a send that returned 0 included. *)
Theorem counters_follow_calls `{FloatOps} :
  (∀ call args tr,
     let r := A1_Server.send_loop call (reset_sent args) tr in
     bytes_sent (final r) = wrap64 (sum_positive (calls r)) ∧
     messages_sent (final r) = wrap64 (count_nonnegative (calls r))) ∧
  (∀ call args tr,
     let r := A2_Server.send_loop call (reset_sent args) tr in
     bytes_sent (final r) = wrap64 (sum_positive (calls r)) ∧
     messages_sent (final r) = wrap64 (count_nonnegative (calls r))) ∧
  (∀ use_zerocopy fd iov args tr,
     let r := A3_Server.send_loop use_zerocopy fd iov (reset_sent args) tr in
     bytes_sent (final r) = wrap64 (sum_positive (calls r)) ∧
     messages_sent (final r) = wrap64 (count_nonnegative (calls r))) ∧
  (∀ call args tr,
     let r := A1_Client.recv_loop call (reset_received args) tr in
     bytes_received (final r) = wrap64 (sum_positive (calls r)) ∧
     messages_received (final r) = wrap64 (count_positive (calls r))) ∧
  (∀ call args tr,
     let r := A2_Client.recv_loop call (reset_received args) tr in
     bytes_received (final r) = wrap64 (sum_positive (calls r)) ∧
     messages_received (final r) = wrap64 (count_positive (calls r))) ∧
  (∀ call args tr,
     let r := A3_Client.recv_loop call (reset_received args) tr in
     bytes_received (final r) = wrap64 (sum_positive (calls r)) ∧
     messages_received (final r) = wrap64 (count_positive (calls r))).
Proof.
  repeat split; intros.
  all: first
    [ apply (A1_send_loop_counts call (reset_sent args) tr)
    | apply (A2_send_loop_counts call (reset_sent args) tr)
    | apply (A3_send_loop_counts use_zerocopy fd iov (reset_sent args) tr)
    | apply (A1_recv_loop_counts call (reset_received args) tr)
    | apply (A2_recv_loop_counts call (reset_received args) tr)
    | apply (A3_recv_loop_counts call (reset_received args) tr) ].
  all: by split.
Qed.

(** C10, as stated, fails: with a configured size of 4 bytes the
    Transfer Unit is empty, [send] returns 0, and the copy-based server
    counts one message although no call returned a positive value. *)
Lemma zero_byte_send_counted :
  ∃ r w,
    A1_Server.handle_client (Examples.server_args 4)
      (Examples.serving 0 [Examples.full 0])
      (Examples.empty_world Examples.generous) = Some (r, w) ∧
    calls r = [(SYS_send 4 (Some 10%positive) 0 0, Examples.full 0)] ∧
    count_positive (calls r) = 0 ∧
    messages_sent (final r) = 1.
Proof. eexists _, _. vm_compute. repeat split; reflexivity. Qed.

(** The offloaded worker with the offload enabled, over three
    iterations: accepted, refused for lack of buffers and sent again
    without the flag, accepted. *)
Example offload_refused_once :
  ∃ r w iov,
    A3_Server.handle_client (Examples.server_args 1024) Examples.refused_once
      (Examples.empty_world Examples.generous) = Some (r, w) ∧
    map (fun c => c.1) (calls r)
    = [SYS_sendmsg 4 iov MSG_ZEROCOPY;
       SYS_sendmsg 4 iov MSG_ZEROCOPY; SYS_sendmsg 4 iov 0;
       SYS_sendmsg 4 iov MSG_ZEROCOPY] ∧
    messages_sent (final r) = 3 ∧ bytes_sent (final r) = 3072.
Proof. eexists _, _, _. vm_compute. repeat split; reflexivity. Qed.

(** C5, evaluated where the code departs from it.  Two connections are
    accepted into slots of [thread_args] that [malloc] left dirty
    ([bytes_sent = 7], [messages_sent = 3], [elapsed_time = 5]).  The
    first worker sends 2048 bytes in two calls within one second; the
    second is refused its Message and exits before its loop, without
    writing its counters.  [main], which was granted its two arrays,
    adds the dirty counters of the second slot: 2055 bytes and 5
    messages, and 5 seconds as the longest time. *)
Theorem failed_worker_counters_are_added :
  ∃ r1 r2 w,
    A1_Server.main (H := Q_FloatOps) 1024 1 (fun _ => Examples.dirty_slot)
      Examples.two_accepts Examples.two_servers Examples.two_allocators
      (Examples.empty_world Examples.generous)
    = Some (([r1; r2], Examples.totals 2055 5 5%Q), w) ∧
    exit r1 = Expired ∧ bytes_sent (final r1) = 2048 ∧
    messages_sent (final r1) = 2 ∧
    exit r2 = NotStarted.
Proof. eexists _, _, _. vm_compute. repeat split; reflexivity. Qed.

(** C2, as the code has it.  For the copy-based client configured with
    a Transfer Unit of 1024 bytes, after a run of fewer than [2^64]
    iterations in which some [recv] returned a positive count,
    [messages_received] is positive and [bytes_received] is the sum
    (modulo [2^64]) of the positive counts returned; it is a multiple of
    1024 when every positive count returned is one, that is when no
    [recv] was short. *)
Theorem copy_client_received_multiple `{FloatOps} args env g :
  let r := fst (A1_Client.client_thread args env g) in
  ca_msg_size args = 1024 ->
  Z.of_nat (length (c_trace env)) < ULONG_MODULUS ->
  Exists (fun c => 0 < rv c.2) (calls r) ->
  0 < messages_received (final r) ∧
  bytes_received (final r) = wrap64 (sum_positive (calls r)) ∧
  (Forall (fun c => 0 < rv c.2 -> rv c.2 mod 1024 = 0) (calls r) ->
   bytes_received (final r) mod 1024 = 0).
Proof.
  cbv zeta. unfold A1_Client.client_thread. cbv zeta.
  intros _ Hlen Hsome.
  repeat match goal with
         | H : context [if ?b then _ else _] |- _ => destruct b
         end; cbn [fst calls not_started] in Hsome;
    try (by apply Exists_nil in Hsome).
  cbn [fst calls final messages_received bytes_received set_ca_elapsed_time].
  destruct (A1_recv_loop_counts
              (SYS_recv (socket_rv env) (ca_msg_size args) 0)
              (reset_received args) (c_trace env) ltac:(by split))
    as [Hb Hm].
  cbn [bytes_received messages_received reset_received] in Hb, Hm.
  rewrite Z.add_0_l in Hb, Hm. rewrite Hb, Hm.
  pose proof (count_positive_pos _ Hsome) as Hpos.
  pose proof (count_positive_le
                (calls (A1_Client.recv_loop
                          (SYS_recv (socket_rv env) (ca_msg_size args) 0)
                          (reset_received args) (c_trace env)))) as Hle.
  pose proof (A1_recv_loop_calls_length
                (SYS_recv (socket_rv env) (ca_msg_size args) 0)
                (reset_received args) (c_trace env)) as Hcalls.
  split; [rewrite wrap64_small; lia|]. split; [done|].
  intros Hmult. unfold wrap64.
  rewrite Z.mod_mod_divide by (exists (2 ^ 54); reflexivity).
  by apply sum_positive_multiple.
Qed.

Lemma copy_client_received_multiple_witness :
  ca_msg_size (Examples.client_args 1024) = 1024 ∧
  0 < messages_received
        (final (fst (A1_Client.client_thread (Examples.client_args 1024)
                       (Examples.connected 10%Q
                          [Examples.full 1024; Examples.full 1024])
                       global_metrics_init))) ∧
  bytes_received
    (final (fst (A1_Client.client_thread (Examples.client_args 1024)
                   (Examples.connected 10%Q
                      [Examples.full 1024; Examples.full 1024])
                   global_metrics_init))) mod 1024 = 0.
Proof.
  split; [reflexivity|].
  destruct (copy_client_received_multiple (H := Q_FloatOps)
              (Examples.client_args 1024)
              (Examples.connected 10%Q [Examples.full 1024; Examples.full 1024])
              global_metrics_init) as (Hm & _ & Hb).
  - reflexivity.
  - by vm_compute.
  - vm_compute. apply Exists_cons_hd. by vm_compute.
  - split; [exact Hm|]. apply Hb. vm_compute.
    repeat constructor.
Defined.

(** C2, as stated, fails: one [recv] that returns 500 of the 1024 bytes
    asked for leaves [messages_received = 1] and [bytes_received = 500]. *)
Lemma short_receive_is_counted_whole :
  messages_received
    (final (fst (A1_Client.client_thread (Examples.client_args 1024)
                   (Examples.connected 10%Q [Examples.full 500])
                   global_metrics_init))) = 1 ∧
  bytes_received
    (final (fst (A1_Client.client_thread (Examples.client_args 1024)
                   (Examples.connected 10%Q [Examples.full 500])
                   global_metrics_init))) = 500 ∧
  500 mod 1024 = 500.
Proof. by vm_compute. Qed.

(** C3, as the code has it.  A call that fails with [EINTR] adds to no
    counter anywhere.  On the receive path of every strategy it is
    retried by the loop: the worker ends with the same record and for
    the same reason as if the call had not been interrupted.  On the
    transmit path of every strategy it is a fatal I/O error: the loop
    ends at that call, with the counters as they were. *)
Theorem interrupted_receive_retried_send_fatal `{FloatOps} (r : sysret) :
  interrupted r ->
  (∀ call args pre ev post, received ev = r ->
     final (A1_Client.recv_loop call args (pre ++ ev :: post))
     = final (A1_Client.recv_loop call args (pre ++ post)) ∧
     exit (A1_Client.recv_loop call args (pre ++ ev :: post))
     = exit (A1_Client.recv_loop call args (pre ++ post))) ∧
  (∀ call args pre ev post, received ev = r ->
     final (A2_Client.recv_loop call args (pre ++ ev :: post))
     = final (A2_Client.recv_loop call args (pre ++ post)) ∧
     exit (A2_Client.recv_loop call args (pre ++ ev :: post))
     = exit (A2_Client.recv_loop call args (pre ++ post))) ∧
  (∀ call args pre ev post, received ev = r ->
     final (A3_Client.recv_loop call args (pre ++ ev :: post))
     = final (A3_Client.recv_loop call args (pre ++ post)) ∧
     exit (A3_Client.recv_loop call args (pre ++ ev :: post))
     = exit (A3_Client.recv_loop call args (pre ++ post))) ∧
  (∀ call args post,
     A1_Server.send_loop call args (r :: post)
     = mkRun args [(call, r)] 1%nat (IOError EINTR)) ∧
  (∀ call args post,
     A2_Server.send_loop call args (r :: post)
     = mkRun args [(call, r)] 1%nat (IOError EINTR)) ∧
  (∀ fd iov args k post, A3_Server.plain_answer k = r ->
     A3_Server.send_loop false fd iov args (k :: post)
     = mkRun args [(SYS_sendmsg fd iov 0, r)] 1%nat (IOError EINTR)) ∧
  (∀ fd iov args k post, A3_Server.zerocopy_answer k = r ->
     A3_Server.send_loop true fd iov args (k :: post)
     = mkRun args [(SYS_sendmsg fd iov MSG_ZEROCOPY, r)] 1%nat
             (IOError EINTR)) ∧
  (∀ fd iov args k post,
     offload_refused (A3_Server.zerocopy_answer k) = true ->
     A3_Server.plain_answer k = r ->
     A3_Server.send_loop true fd iov args (k :: post)
     = mkRun args [(SYS_sendmsg fd iov MSG_ZEROCOPY, A3_Server.zerocopy_answer k);
                   (SYS_sendmsg fd iov 0, r)] 1%nat (IOError EINTR)).
Proof.
  intros Hr. repeat split; intros; try subst r;
    first [ by apply A1_recv_loop_interrupted
          | by apply A2_recv_loop_interrupted
          | by apply A3_recv_loop_interrupted
          | by apply A1_send_loop_interrupted
          | by apply A2_send_loop_interrupted
          | by apply A3_send_loop_interrupted_plain
          | by apply A3_send_loop_interrupted_offload
          | by apply A3_send_loop_interrupted_retry ].
Qed.

Lemma interrupted_receive_retried_send_fatal_witness :
  interrupted (Examples.failed EINTR) ∧
  A1_Server.send_loop (H := Q_FloatOps) (SYS_send 4 NULL 1024 0)
    (Examples.server_args 1024)
    [Examples.failed EINTR; Examples.full 1024]
  = mkRun (Examples.server_args 1024)
          [(SYS_send 4 NULL 1024 0, Examples.failed EINTR)] 1%nat
          (IOError EINTR).
Proof.
  assert (interrupted (Examples.failed EINTR)) as Hi by (by vm_compute).
  split; [exact Hi|].
  destruct (interrupted_receive_retried_send_fatal (H := Q_FloatOps)
              (Examples.failed EINTR) Hi) as (_ & _ & _ & Hsend & _).
  apply Hsend.
Defined.

(** C3, as stated, fails on the transmit path: the copy-based server
    whose first [send] is interrupted sends nothing more, although the
    next [send] would have succeeded. *)
Lemma interrupted_send_ends_the_loop :
  messages_sent
    (final (A1_Server.send_loop (H := Q_FloatOps) (SYS_send 4 NULL 1024 0)
              (reset_sent (Examples.server_args 1024))
              [Examples.failed EINTR; Examples.full 1024])) = 0 ∧
  exit (A1_Server.send_loop (H := Q_FloatOps) (SYS_send 4 NULL 1024 0)
          (reset_sent (Examples.server_args 1024))
          [Examples.failed EINTR; Examples.full 1024]) = IOError EINTR ∧
  messages_sent
    (final (A1_Server.send_loop (H := Q_FloatOps) (SYS_send 4 NULL 1024 0)
              (reset_sent (Examples.server_args 1024))
              [Examples.full 1024])) = 1.
Proof. by vm_compute. Qed.

(** C7, as the code has it.  When [setsockopt(SO_ZEROCOPY)] fails, the
    offloaded server and the scatter/gather server, given the same
    thread record, the same allocator and the same answers to their
    sends, run identically (same calls, all without the offload flag,
    same counters, same heap), provided that no send fails with
    [EAGAIN] / [EWOULDBLOCK]. *)
Theorem fallback_is_scatter_gather `{FloatOps} args env w :
  setsockopt_rv env ≠ 0 ->
  Forall (fun k => would_block (A3_Server.plain_answer k) = false) (trace env) ->
  A3_Server.handle_client args env w
  = A2_Server.handle_client args (plain_env env) w.
Proof. apply A3_fallback_handle_client. Qed.

Lemma fallback_is_scatter_gather_witness :
  setsockopt_rv Examples.never_blocked ≠ 0 ∧
  A3_Server.handle_client (Examples.server_args 1024) Examples.never_blocked
    (Examples.empty_world Examples.generous)
  = A2_Server.handle_client (Examples.server_args 1024)
      (plain_env Examples.never_blocked)
      (Examples.empty_world Examples.generous) ∧
  ∃ r w,
    A3_Server.handle_client (Examples.server_args 1024) Examples.never_blocked
      (Examples.empty_world Examples.generous) = Some (r, w) ∧
    bytes_sent (final r) = 1536 ∧ messages_sent (final r) = 2.
Proof.
  split; [by vm_compute|]. split.
  - apply (fallback_is_scatter_gather (H := Q_FloatOps)).
    + by vm_compute.
    + vm_compute. repeat constructor.
  - eexists _, _. vm_compute. repeat split; reflexivity.
Defined.

(** C7, as stated, fails: when the first send would block, the
    offloaded server in fallback mode goes on and sends one Transfer
    Unit, while the scatter/gather server, given the same answers, stops
    with nothing sent. *)
Lemma fallback_differs_when_send_would_block :
  ∃ r3 w3 r2 w2,
    A3_Server.handle_client (Examples.server_args 1024) Examples.blocked_once
      (Examples.empty_world Examples.generous) = Some (r3, w3) ∧
    A2_Server.handle_client (Examples.server_args 1024)
      (plain_env Examples.blocked_once)
      (Examples.empty_world Examples.generous) = Some (r2, w2) ∧
    messages_sent (final r3) = 1 ∧ bytes_sent (final r3) = 1024 ∧
    messages_sent (final r2) = 0 ∧ bytes_sent (final r2) = 0.
Proof. eexists _, _, _, _. vm_compute. repeat split; reflexivity. Qed.

(** ** The Message on the heap *)

(** X1. [free_message] undoes [create_message], whatever the allocator
    answered: after the two calls the heap is what it was, also when
    [create_message] returned [NULL]. *)
Theorem message_round_trip (field_size : Z) (w : world) :
  ∃ p w1 w2,
    create_message field_size w = Some (p, w1) ∧
    free_message p w1 = Some (tt, w2) ∧
    heap w2 = heap w.
Proof.
  destruct (create_message_spec field_size w) as (p & w1 & Hrun & _ & Hp).
  destruct p as [m|].
  - destruct Hp as [_ [ls Hb]].
    exists (Some m), w1, (with_heap w1 (heap w)).
    split; [done|]. split; [|done]. by eapply free_message_built.
  - destruct Hp as [_ Hh]. by exists None, w1, w1.
Qed.

Lemma gather_app h iov1 iov2 :
  gather h (iov1 ++ iov2)
  = match gather h iov1, gather h iov2 with
    | Some a, Some b => Some (a ++ b)
    | _, _ => None
    end.
Proof.
  induction iov1 as [|[[l|] len] rest IH]; simpl.
  - by destruct (gather h iov2).
  - destruct (h !! l) as [[bytes| |]|]; try done.
    destruct (Z.of_nat (length bytes) <? len); [done|].
    rewrite IH. destruct (gather h rest); [|done].
    destruct (gather h iov2); [|done]. by rewrite app_assoc.
  - done.
Qed.

Lemma gather_field h l c s :
  0 <= s ->
  h !! l = Some (Buf (repeat c (Z.to_nat s))) ->
  gather h [(Some l, s)] = Some (repeat c (Z.to_nat s)).
Proof.
  intros Hs Hl. simpl. rewrite Hl, repeat_length.
  destruct (Z.ltb_spec (Z.of_nat (Z.to_nat s)) s); [lia|].
  rewrite <- (repeat_length c (Z.to_nat s)) at 1.
  by rewrite firstn_all, app_nil_r.
Qed.

(** X2. The [iovec] that the scatter/gather and the offloaded servers
    build over a Message denotes, in field order, the byte pattern that
    the copy-based server materializes: [s] bytes of ['A'], ..., [s]
    bytes of ['H']. *)
Theorem iovec_denotes_pattern (s : Z) (w : world) (m : loc) (w1 : world) :
  0 <= s ->
  create_message s w = Some (Some m, w1) ->
  ∃ msg,
    load_Message (Some m) w1 = Some (msg, w1) ∧
    gather (heap w1) (iov_of_message msg s) = Some (pattern s).
Proof.
  intros Hs Hmsg.
  destruct (create_message_spec s w) as (p & w' & Hrun & _ & Hp).
  rewrite Hmsg in Hrun. injection Hrun as <- <-.
  destruct Hp as [_ [ls Hb]].
  destruct ls as [|l1 [|l2 [|l3 [|l4 [|l5 [|l6 [|l7 [|l8 [|]]]]]]]]]; try done.
  destruct Hb as (_ & _ & _ & Hm & B1 & B2 & B3 & B4 & B5 & B6 & B7 & B8).
  eexists. split; [by apply load_Message_at|].
  unfold iov_of_message.
  cbn [field1 field2 field3 field4 field5 field6 field7 field8].
  change [(Some l1, s); (Some l2, s); (Some l3, s); (Some l4, s);
          (Some l5, s); (Some l6, s); (Some l7, s); (Some l8, s)]
    with ([(Some l1, s)] ++ [(Some l2, s)] ++ [(Some l3, s)] ++ [(Some l4, s)]
          ++ [(Some l5, s)] ++ [(Some l6, s)] ++ [(Some l7, s)]
          ++ [(Some l8, s)]).
  rewrite !gather_app.
  rewrite (gather_field _ _ _ _ Hs B1), (gather_field _ _ _ _ Hs B2),
    (gather_field _ _ _ _ Hs B3), (gather_field _ _ _ _ Hs B4),
    (gather_field _ _ _ _ Hs B5), (gather_field _ _ _ _ Hs B6),
    (gather_field _ _ _ _ Hs B7), (gather_field _ _ _ _ Hs B8).
  reflexivity.
Qed.

Lemma iovec_denotes_pattern_witness :
  ∃ msg,
    load_Message (Some 1%positive)
      (match create_message 2 (Examples.empty_world Examples.generous) with
       | Some (_, w1) => w1
       | None => Examples.empty_world Examples.generous
       end)
    = Some (msg,
            match create_message 2 (Examples.empty_world Examples.generous) with
            | Some (_, w1) => w1
            | None => Examples.empty_world Examples.generous
            end) ∧
    gather
      (heap (match create_message 2 (Examples.empty_world Examples.generous) with
             | Some (_, w1) => w1
             | None => Examples.empty_world Examples.generous
             end))
      (iov_of_message msg 2) = Some (pattern 2).
Proof.
  apply (iovec_denotes_pattern 2 (Examples.empty_world Examples.generous)).
  - lia.
  - vm_compute. reflexivity.
Defined.

(** ** Server workers *)

Section ServerWorkers.
Context `{FloatOps}.

Lemma A1_send_loop_started call args tr :
  exit (A1_Server.send_loop call args tr) ≠ NotStarted.
Proof.
  revert args. induction tr as [|sent rest IH]; intros args; simpl; [done|].
  repeat match goal with
         | |- context [if ?b then _ else _] => destruct b
         end; simpl; done.
Qed.

Lemma A2_send_loop_started call args tr :
  exit (A2_Server.send_loop call args tr) ≠ NotStarted.
Proof.
  revert args. induction tr as [|sent rest IH]; intros args; simpl; [done|].
  repeat match goal with
         | |- context [if ?b then _ else _] => destruct b
         end; simpl; done.
Qed.

Lemma A3_send_loop_started zc fd iov args tr :
  exit (A3_Server.send_loop zc fd iov args tr) ≠ NotStarted.
Proof.
  revert args. induction tr as [|k rest IH]; intros args; [done|].
  cbn [A3_Server.send_loop].
  repeat match goal with
         | |- context [if ?b then _ else _] => destruct b
         end; cbv beta iota;
  repeat match goal with
         | |- context [if ?b then _ else _] => destruct b
         end; simpl; done.
Qed.




End ServerWorkers.

(** X3. The copy-based server worker is defined on every path (refused
    Message, refused serialized buffer, any answers of the transport)
    and leaves the heap as it found it: the Message, its eight fields
    and the serialized buffer are all released.  The size of the
    serialized block must fit [size_t]. *)
Theorem copy_worker_releases_everything `{FloatOps} args
    (env : server_env sysret) (w : world) :
  0 <= sa_msg_size args ->
  sa_msg_size args + sizeof_SerializedMessage < ULONG_MODULUS ->
  ∃ r w', A1_Server.handle_client args env w = Some (r, w') ∧
          heap w' = heap w.
Proof. apply A1_handle_client_defined. Qed.

Lemma copy_worker_releases_everything_witness :
  ∃ r w',
    A1_Server.handle_client (Examples.server_args 1024)
      (Examples.serving 0 [Examples.full 1024; Examples.failed EPIPE])
      (Examples.empty_world Examples.generous) = Some (r, w') ∧
    heap w' = heap (Examples.empty_world Examples.generous).
Proof.
  apply (copy_worker_releases_everything (H := Q_FloatOps)).
  - by vm_compute.
  - by vm_compute.
Defined.

(** X4. The scatter/gather server worker and the offloaded server
    worker are defined on every path, for every configured size and
    every answer of the allocator and of the transport, and leave the
    heap as they found it. *)
Theorem vectorized_workers_release_everything `{FloatOps} args :
  (∀ (env : server_env sysret) w,
     ∃ r w', A2_Server.handle_client args env w = Some (r, w') ∧
             heap w' = heap w) ∧
  (∀ (env : server_env A3_Server.answers) w,
     ∃ r w', A3_Server.handle_client args env w = Some (r, w') ∧
             heap w' = heap w).
Proof.
  split; intros.
  - apply A2_handle_client_defined.
  - apply A3_handle_client_defined.
Qed.



(** ** The [main] of the servers *)

Section ServerAccounts.
Context `{FloatOps}.

Lemma accept_loop_length msg_size duration slots max_threads thread_id
    num_threads evs :
  (length (accept_loop msg_size duration slots max_threads thread_id
             num_threads evs) <= max_threads - num_threads)%nat.
Proof.
  revert thread_id num_threads.
  induction evs as [|ev rest IH]; intros tid n; cbn [accept_loop length];
    [lia|].
  destruct (accept_rv ev <? 0); [apply IH|].
  destruct (Nat.leb_spec max_threads n) as [Hfull|Hroom]; [apply IH|].
  cbv zeta. destruct (negb (pthread_create_rv ev =? 0)); [apply IH|].
  cbn [length]. specialize (IH (tid + 1) (S n)). lia.
Qed.

Lemma accept_loop_slots msg_size duration slots max_threads thread_id
    num_threads evs k a :
  accept_loop msg_size duration slots max_threads thread_id num_threads evs
    !! k = Some a ->
  sa_msg_size a = msg_size ∧ sa_duration a = duration ∧ 0 <= client_fd a ∧
  bytes_sent a = bytes_sent (slots (num_threads + k)%nat) ∧
  messages_sent a = messages_sent (slots (num_threads + k)%nat) ∧
  sa_elapsed_time a = sa_elapsed_time (slots (num_threads + k)%nat) ∧
  thread_id + Z.of_nat k <= sa_thread_id a
  < thread_id + Z.of_nat (length evs).
Proof.
  revert thread_id num_threads k.
  induction evs as [|ev rest IH]; intros tid n k; cbn [accept_loop length];
    [done|].
  destruct (Z.ltb_spec (accept_rv ev) 0) as [Hneg|Hfd].
  { intros Hk. destruct (IH _ _ _ Hk) as (?&?&?&?&?&?&?). repeat split; try done; lia. }
  destruct (Nat.leb_spec max_threads n) as [Hfull|Hroom].
  { intros Hk. destruct (IH _ _ _ Hk) as (?&?&?&?&?&?&?). repeat split; try done; lia. }
  cbv zeta. destruct (negb (pthread_create_rv ev =? 0)).
  { intros Hk. destruct (IH _ _ _ Hk) as (?&?&?&?&?&?&?). repeat split; try done; lia. }
  destruct k as [|k]; cbn [lookup list_lookup].
  - intros [= <-]. cbn [init_slot sa_msg_size sa_duration client_fd bytes_sent
                        messages_sent sa_elapsed_time sa_thread_id].
    rewrite Nat.add_0_r. repeat split; try done; lia.
  - intros Hk. destruct (IH _ _ _ Hk) as (?&?&?&?&?&?&?).
    replace (n + S k)%nat with (S n + k)%nat by lia.
    repeat split; try done; lia.
Qed.

Lemma accept_loop_drop msg_size duration slots max_threads thread_id
    num_threads evs k a :
  accept_loop msg_size duration slots max_threads thread_id num_threads evs
    !! k = Some a ->
  ∃ tid' evs',
    sa_thread_id a < tid' ∧
    drop (S k) (accept_loop msg_size duration slots max_threads thread_id
                  num_threads evs)
    = accept_loop msg_size duration slots max_threads tid'
        (S (num_threads + k)) evs'.
Proof.
  revert thread_id num_threads k.
  induction evs as [|ev rest IH]; intros tid n k; cbn [accept_loop];
    [done|].
  destruct (accept_rv ev <? 0); [apply IH|].
  destruct (max_threads <=? n)%nat; [apply IH|].
  cbv zeta. destruct (negb (pthread_create_rv ev =? 0)); [apply IH|].
  destruct k as [|k]; cbn [lookup list_lookup drop].
  - intros [= <-]. exists (tid + 1), rest. cbn [init_slot sa_thread_id].
    rewrite Nat.add_0_r, drop_0. split; [lia|done].
  - intros Hk. destruct (IH _ _ _ Hk) as (tid' & evs' & Hlt & Heq).
    exists tid', evs'. split; [done|].
    by replace (S (n + S k)) with (S (S n + k)) by lia.
Qed.

Lemma accept_loop_increasing msg_size duration slots max_threads thread_id
    num_threads evs i j a b :
  (i < j)%nat ->
  accept_loop msg_size duration slots max_threads thread_id num_threads evs
    !! i = Some a ->
  accept_loop msg_size duration slots max_threads thread_id num_threads evs
    !! j = Some b ->
  sa_thread_id a < sa_thread_id b.
Proof.
  intros Hij Hi Hj.
  destruct (accept_loop_drop _ _ _ _ _ _ _ _ _ Hi) as (tid' & evs' & Hlt & Heq).
  assert (drop (S i) (accept_loop msg_size duration slots max_threads
                        thread_id num_threads evs) !! (j - S i)%nat = Some b)
    as Hb.
  { rewrite lookup_drop. by replace (S i + (j - S i))%nat with j by lia. }
  rewrite Heq in Hb. apply accept_loop_slots in Hb. lia.
Qed.

Lemma total_metrics_fold (l : list ServerThreadArgs) t0 :
  wrap64 (st_total_bytes t0) = st_total_bytes t0 ->
  wrap64 (st_total_messages t0) = st_total_messages t0 ->
  let t := fold_left
    (fun t a =>
       {| st_total_bytes := wrap64 (st_total_bytes t + bytes_sent a);
          st_total_messages := wrap64 (st_total_messages t + messages_sent a);
          st_max_time := if d_ltb (st_max_time t) (sa_elapsed_time a)
                         then sa_elapsed_time a else st_max_time t |})
    l t0 in
  st_total_bytes t = wrap64 (st_total_bytes t0 + sum_Z (map bytes_sent l)) ∧
  st_total_messages t
  = wrap64 (st_total_messages t0 + sum_Z (map messages_sent l)).
Proof.
  cbv zeta. revert t0. induction l as [|a l IH]; intros t0 Hb Hm.
  - cbn [fold_left map sum_Z foldr]. by rewrite !Z.add_0_r, Hb, Hm.
  - cbn [fold_left map sum_Z foldr].
    destruct (IH {| st_total_bytes := wrap64 (st_total_bytes t0 + bytes_sent a);
                    st_total_messages :=
                      wrap64 (st_total_messages t0 + messages_sent a);
                    st_max_time := if d_ltb (st_max_time t0) (sa_elapsed_time a)
                                   then sa_elapsed_time a else st_max_time t0 |})
      as [-> ->]; cbn [st_total_bytes st_total_messages];
      [apply wrap64_idem | apply wrap64_idem |].
    fold (sum_Z (map bytes_sent l)). fold (sum_Z (map messages_sent l)).
    rewrite !wrap64_add_l. split; apply (f_equal wrap64); lia.
Qed.

Lemma sum_Z_perm (l l' : list Z) : l ≡ₚ l' -> sum_Z l = sum_Z l'.
Proof.
  induction 1 as [|x l l' _ IH|x y l|l l' l'' _ IH1 _ IH2]; cbn [sum_Z foldr].
  - done.
  - unfold sum_Z in IH. by rewrite IH.
  - lia.
  - congruence.
Qed.

Lemma max_time_origin (l : list ServerThreadArgs) t0 :
  let t := fold_left
    (fun t a =>
       {| st_total_bytes := wrap64 (st_total_bytes t + bytes_sent a);
          st_total_messages := wrap64 (st_total_messages t + messages_sent a);
          st_max_time := if d_ltb (st_max_time t) (sa_elapsed_time a)
                         then sa_elapsed_time a else st_max_time t |})
    l t0 in
  st_max_time t = st_max_time t0 ∨ st_max_time t ∈ map sa_elapsed_time l.
Proof.
  cbv zeta. revert t0. induction l as [|a l IH]; intros t0; cbn [fold_left].
  - by left.
  - match goal with
    | |- context [fold_left ?f l ?t1] => destruct (IH t1) as [Heq|Hin]
    end.
    + rewrite Heq. cbn [st_max_time map].
      destruct (d_ltb _ _); [right; apply list_elem_of_here|by left].
    + right. cbn [map]. by apply list_elem_of_further.
Qed.

End ServerAccounts.

(** X6. The accept loop of the servers never hands out more thread
    slots than remain free below [max_threads]; every record it hands to
    a worker carries the configured message size and duration and a
    valid descriptor, and still holds, in its counters and its elapsed
    time, whatever the slot of [thread_args] held before. *)
Theorem accept_loop_fills_free_slots `{FloatOps} msg_size duration
    (slots : nat -> ServerThreadArgs) max_threads thread_id num_threads evs :
  let started := accept_loop msg_size duration slots max_threads thread_id
                   num_threads evs in
  (length started <= max_threads - num_threads)%nat ∧
  ∀ k a, started !! k = Some a ->
    sa_msg_size a = msg_size ∧ sa_duration a = duration ∧ 0 <= client_fd a ∧
    bytes_sent a = bytes_sent (slots (num_threads + k)%nat) ∧
    messages_sent a = messages_sent (slots (num_threads + k)%nat) ∧
    sa_elapsed_time a = sa_elapsed_time (slots (num_threads + k)%nat).
Proof.
  cbv zeta. split; [apply accept_loop_length|].
  intros k a Hk.
  destruct (accept_loop_slots _ _ _ _ _ _ _ _ _ Hk) as (?&?&?&?&?&?&_).
  done.
Qed.

Lemma accept_loop_fills_free_slots_witness :
  let started :=
    accept_loop (H := Q_FloatOps) 1024 1 (fun _ => Examples.dirty_slot)
      100 0 0 Examples.two_accepts in
  ∃ a, started !! 1%nat = Some a ∧
       sa_msg_size a = 1024 ∧ sa_duration a = 1 ∧ 0 <= client_fd a ∧
       bytes_sent a = bytes_sent Examples.dirty_slot ∧
       messages_sent a = messages_sent Examples.dirty_slot ∧
       sa_elapsed_time a = sa_elapsed_time Examples.dirty_slot.
Proof.
  eexists. split; [reflexivity|].
  apply (proj2 (accept_loop_fills_free_slots (H := Q_FloatOps) 1024 1
                  (fun _ => Examples.dirty_slot) 100 0 0%nat
                  Examples.two_accepts) 1%nat).
  reflexivity.
Defined.

(** X7. As long as the [int] counter of the accept loop does not
    overflow, the thread identifiers of the started workers are
    representable, start at the counter's first value and strictly
    increase in slot order; they need not be consecutive, since an
    identifier is also used up by a failed [pthread_create]. *)
Theorem thread_ids_increase `{FloatOps} msg_size duration
    (slots : nat -> ServerThreadArgs) max_threads thread_id num_threads evs :
  0 <= thread_id ->
  thread_id + Z.of_nat (length evs) <= INT_MAX ->
  let started := accept_loop msg_size duration slots max_threads thread_id
                   num_threads evs in
  (∀ k a, started !! k = Some a ->
     thread_id + Z.of_nat k <= sa_thread_id a < INT_MAX) ∧
  (∀ i j a b, (i < j)%nat -> started !! i = Some a -> started !! j = Some b ->
     sa_thread_id a < sa_thread_id b).
Proof.
  intros Hpos Hmax. cbv zeta. split.
  - intros k a Hk.
    destruct (accept_loop_slots _ _ _ _ _ _ _ _ _ Hk) as (_&_&_&_&_&_&?).
    lia.
  - intros i j a b. apply accept_loop_increasing.
Qed.

Lemma thread_ids_increase_witness :
  let started :=
    accept_loop (H := Q_FloatOps) 1024 1 (fun _ => Examples.dirty_slot)
      100 0 0
      [mkAcceptEvent 4 0; mkAcceptEvent 5 11; mkAcceptEvent 6 0] in
  map sa_thread_id started = [0; 2] ∧
  (∀ k a, started !! k = Some a -> 0 + Z.of_nat k <= sa_thread_id a < INT_MAX) ∧
  (∀ i j a b, (i < j)%nat -> started !! i = Some a -> started !! j = Some b ->
     sa_thread_id a < sa_thread_id b).
Proof.
  split; [reflexivity|].
  apply (thread_ids_increase (H := Q_FloatOps)).
  - lia.
  - by vm_compute.
Defined.

(** X8. The totals that a server prints are the sums of the workers'
    counters, reduced modulo [2^64] once; they do not depend on the
    order of the slots. *)
Theorem server_totals_are_sums `{FloatOps} (thread_args : list ServerThreadArgs) :
  st_total_bytes (total_metrics thread_args)
  = wrap64 (sum_Z (map bytes_sent thread_args)) ∧
  st_total_messages (total_metrics thread_args)
  = wrap64 (sum_Z (map messages_sent thread_args)) ∧
  ∀ thread_args', thread_args ≡ₚ thread_args' ->
    st_total_bytes (total_metrics thread_args')
    = st_total_bytes (total_metrics thread_args) ∧
    st_total_messages (total_metrics thread_args')
    = st_total_messages (total_metrics thread_args).
Proof.
  assert (∀ l : list ServerThreadArgs,
    st_total_bytes (total_metrics l) = wrap64 (sum_Z (map bytes_sent l)) ∧
    st_total_messages (total_metrics l) = wrap64 (sum_Z (map messages_sent l)))
    as Hsum.
  { intros l. unfold total_metrics.
    match goal with
    | |- context [fold_left _ l ?t0] =>
        destruct (total_metrics_fold l t0 eq_refl eq_refl) as [Hb Hm]
    end.
    cbv zeta in Hb, Hm. cbn [st_total_bytes st_total_messages] in Hb, Hm.
    by rewrite Hb, Hm. }
  destruct (Hsum thread_args) as [Hb Hm]. split; [done|]. split; [done|].
  intros l' Hperm. destruct (Hsum l') as [-> ->]. rewrite Hb, Hm.
  split; apply (f_equal wrap64); symmetry; apply sum_Z_perm;
    by apply Permutation_map.
Qed.

(** ** How the loops end *)

Lemma stops_at_cons_continue {A} (continues closed : A -> Prop) failed a tr n x :
  continues a -> x ≠ NotStarted ->
  stops_at continues closed failed tr n x ->
  stops_at continues closed failed (a :: tr) (S n) x.
Proof.
  intros Ha Hx. destruct x as [| |e|]; cbn [stops_at].
  - intros [Hall ->]. split; [by constructor|done].
  - intros (pre & b & post & -> & Hall & -> & Hb).
    exists (a :: pre), b, post. repeat split; try done. by constructor.
  - intros (pre & b & post & -> & Hall & -> & Hb).
    exists (a :: pre), b, post. repeat split; try done. by constructor.
  - done.
Qed.

Lemma stops_at_closed {A} (continues closed : A -> Prop) failed a tr :
  closed a -> stops_at continues closed failed (a :: tr) 1 PeerClosed.
Proof. intros Ha. exists [], a, tr. repeat split; try done. Qed.

Lemma stops_at_failed {A} (continues closed : A -> Prop)
    (failed : A -> Z -> Prop) a tr e :
  failed a e -> stops_at continues closed failed (a :: tr) 1 (IOError e).
Proof. intros Ha. exists [], a, tr. repeat split; try done. Qed.

Section Stops.
Context `{FloatOps}.

Lemma A1_recv_loop_stops call args tr :
  recv_stops tr (A1_Client.recv_loop call args tr).
Proof.
  unfold recv_stops. revert args.
  induction tr as [|ev rest IH]; intros args.
  - by split.
  - cbn [A1_Client.recv_loop]. cbv zeta.
    destruct (Z.ltb_spec (rv (received ev)) 0) as [Hneg|Hpos].
    + destruct (Z.eqb_spec (err (received ev)) EINTR) as [He|He].
      * cbn [iterate iterations exit]. apply stops_at_cons_continue;
          [by right|apply A1_recv_loop_started|apply IH].
      * by apply stops_at_failed.
    + destruct (Z.eqb_spec (rv (received ev)) 0) as [Hz|Hnz].
      * by apply stops_at_closed.
      * cbn [iterate iterations exit]. apply stops_at_cons_continue;
          [left; lia|apply A1_recv_loop_started|apply IH].
Qed.

Lemma A2_recv_loop_stops call args tr :
  recv_stops tr (A2_Client.recv_loop call args tr).
Proof.
  unfold recv_stops. revert args.
  induction tr as [|ev rest IH]; intros args.
  - by split.
  - cbn [A2_Client.recv_loop]. cbv zeta.
    destruct (Z.ltb_spec (rv (received ev)) 0) as [Hneg|Hpos].
    + destruct (Z.eqb_spec (err (received ev)) EINTR) as [He|He].
      * cbn [iterate iterations exit]. apply stops_at_cons_continue;
          [by right|apply A2_recv_loop_started|apply IH].
      * by apply stops_at_failed.
    + destruct (Z.eqb_spec (rv (received ev)) 0) as [Hz|Hnz].
      * by apply stops_at_closed.
      * cbn [iterate iterations exit]. apply stops_at_cons_continue;
          [left; lia|apply A2_recv_loop_started|apply IH].
Qed.

Lemma A3_recv_loop_stops call args tr :
  recv_stops tr (A3_Client.recv_loop call args tr).
Proof.
  unfold recv_stops. revert args.
  induction tr as [|ev rest IH]; intros args.
  - by split.
  - cbn [A3_Client.recv_loop]. cbv zeta.
    destruct (Z.ltb_spec (rv (received ev)) 0) as [Hneg|Hpos].
    + destruct (Z.eqb_spec (err (received ev)) EINTR) as [He|He].
      * cbn [iterate iterations exit]. apply stops_at_cons_continue;
          [by right|apply A3_recv_loop_started|apply IH].
      * by apply stops_at_failed.
    + destruct (Z.eqb_spec (rv (received ev)) 0) as [Hz|Hnz].
      * by apply stops_at_closed.
      * cbn [iterate iterations exit]. apply stops_at_cons_continue;
          [left; lia|apply A3_recv_loop_started|apply IH].
Qed.

Lemma A1_send_loop_stops call args tr :
  send_stops tr (A1_Server.send_loop call args tr).
Proof.
  unfold send_stops. revert args.
  induction tr as [|sent rest IH]; intros args.
  - by split.
  - cbn [A1_Server.send_loop].
    destruct (Z.ltb_spec (rv sent) 0) as [Hneg|Hpos].
    + destruct (Z.eqb_spec (err sent) EPIPE) as [He|He]; cbn [orb].
      { apply stops_at_closed. split; [done|by left]. }
      destruct (Z.eqb_spec (err sent) ECONNRESET) as [Hr|Hr].
      { apply stops_at_closed. split; [done|by right]. }
      by apply stops_at_failed.
    + cbn [iterate iterations exit]. apply stops_at_cons_continue;
        [done|apply A1_send_loop_started|apply IH].
Qed.

Lemma A2_send_loop_stops call args tr :
  send_stops tr (A2_Server.send_loop call args tr).
Proof.
  unfold send_stops. revert args.
  induction tr as [|sent rest IH]; intros args.
  - by split.
  - cbn [A2_Server.send_loop].
    destruct (Z.ltb_spec (rv sent) 0) as [Hneg|Hpos].
    + destruct (Z.eqb_spec (err sent) EPIPE) as [He|He]; cbn [orb].
      { apply stops_at_closed. split; [done|by left]. }
      destruct (Z.eqb_spec (err sent) ECONNRESET) as [Hr|Hr].
      { apply stops_at_closed. split; [done|by right]. }
      by apply stops_at_failed.
    + cbn [iterate iterations exit]. apply stops_at_cons_continue;
        [done|apply A2_send_loop_started|apply IH].
Qed.

(** One iteration of the offloaded loop, in terms of the answer that
    decides it. *)
Lemma A3_send_loop_step zc fd iov args k rest :
  ∃ issued,
    A3_Server.send_loop zc fd iov args (k :: rest)
    = let sent := decisive_answer zc k in
      if rv sent <? 0 then
        if (err sent =? EPIPE) || (err sent =? ECONNRESET)
        then mkRun args issued 1%nat PeerClosed
        else if (err sent =? EAGAIN) || (err sent =? EWOULDBLOCK)
        then iterate issued (A3_Server.send_loop zc fd iov args rest)
        else mkRun args issued 1%nat (IOError (err sent))
      else
        iterate issued
          (A3_Server.send_loop zc fd iov (count_sent args (rv sent)) rest).
Proof.
  cbn [A3_Server.send_loop]. unfold decisive_answer, offload_refused.
  destruct zc; [|eexists; reflexivity].
  destruct ((rv (A3_Server.zerocopy_answer k) <? 0)
            && ((err (A3_Server.zerocopy_answer k) =? ENOBUFS)
                || (err (A3_Server.zerocopy_answer k) =? EINVAL)));
    eexists; reflexivity.
Qed.

Lemma A3_send_loop_stops zc fd iov args tr :
  offload_send_stops zc tr (A3_Server.send_loop zc fd iov args tr).
Proof.
  unfold offload_send_stops. revert args.
  induction tr as [|k rest IH]; intros args.
  - by split.
  - destruct (A3_send_loop_step zc fd iov args k rest) as [issued ->].
    cbv zeta. unfold would_block.
    destruct (Z.ltb_spec (rv (decisive_answer zc k)) 0) as [Hneg|Hpos].
    + destruct (Z.eqb_spec (err (decisive_answer zc k)) EPIPE) as [He|He];
        cbn [orb].
      { apply stops_at_closed. split; [done|by left]. }
      destruct (Z.eqb_spec (err (decisive_answer zc k)) ECONNRESET) as [Hr|Hr].
      { apply stops_at_closed. split; [done|by right]. }
      destruct ((err (decisive_answer zc k) =? EAGAIN)
                || (err (decisive_answer zc k) =? EWOULDBLOCK)) eqn:Hb.
      * cbn [iterate iterations exit]. apply stops_at_cons_continue;
          [|apply A3_send_loop_started|apply IH].
        right. apply andb_true_iff. split; [by apply Z.ltb_lt|done].
      * apply stops_at_failed. apply orb_false_iff in Hb as [Ha Hw].
        apply Z.eqb_neq in Ha, Hw. done.
    + cbn [iterate iterations exit]. apply stops_at_cons_continue;
        [by left|apply A3_send_loop_started|apply IH].
Qed.

(** A send that would block costs the offloaded loop an iteration and
    nothing else. *)
Lemma A3_send_loop_would_block zc fd iov args tr :
  let r := A3_Server.send_loop zc fd iov args tr in
  let r' := A3_Server.send_loop zc fd iov args
              (filter (fun k => would_block (decisive_answer zc k) = false) tr) in
  final r = final r' ∧ exit r = exit r' ∧
  (iterations r' <= iterations r)%nat.
Proof.
  cbv zeta. revert args. induction tr as [|k rest IH]; intros args.
  - done.
  - rewrite filter_cons.
    destruct (decide (would_block (decisive_answer zc k) = false)) as [Hb|Hb].
    + destruct (A3_send_loop_step zc fd iov args k rest) as [issued ->].
      destruct (A3_send_loop_step zc fd iov args k
                  (filter (fun k => would_block (decisive_answer zc k) = false)
                          rest)) as [issued' ->].
      cbv zeta. unfold would_block in Hb.
      destruct (rv (decisive_answer zc k) <? 0).
      * cbn [andb] in Hb. rewrite Hb.
        by destruct ((err (decisive_answer zc k) =? EPIPE)
                     || (err (decisive_answer zc k) =? ECONNRESET)).
      * cbn [iterate final exit iterations].
        destruct (IH (count_sent args (rv (decisive_answer zc k))))
          as (-> & -> & Hle).
        split; [done|]. split; [done|lia].
    + apply not_false_is_true in Hb.
      destruct (A3_send_loop_step zc fd iov args k rest) as [issued ->].
      cbv zeta. unfold would_block in Hb.
      apply andb_true_iff in Hb as [-> Hb]. rewrite Hb.
      assert ((err (decisive_answer zc k) =? EPIPE)
              || (err (decisive_answer zc k) =? ECONNRESET) = false) as ->.
      { apply orb_true_iff in Hb.
        unfold EAGAIN, EWOULDBLOCK, EPIPE, ECONNRESET in *.
        apply orb_false_iff. split; apply Z.eqb_neq;
          destruct Hb as [Hb|Hb]; apply Z.eqb_eq in Hb; lia. }
      cbn [iterate final exit iterations].
      destruct (IH args) as (-> & -> & Hle).
      split; [done|]. split; [done|lia].
Qed.

End Stops.

(** X11. Why a receiving loop ends.  In each of the three clients the
    loop goes on after a positive count and after [EINTR], leaves as
    [PeerClosed] on the first zero count and as [IOError] on the first
    other failure, and otherwise runs until the time is out; the number
    of iterations is the position of the answer that ended it. *)
Theorem receiving_loops_stop `{FloatOps} call args (tr : list recv_event) :
  recv_stops tr (A1_Client.recv_loop call args tr) ∧
  recv_stops tr (A2_Client.recv_loop call args tr) ∧
  recv_stops tr (A3_Client.recv_loop call args tr).
Proof.
  split; [apply A1_recv_loop_stops|].
  split; [apply A2_recv_loop_stops|apply A3_recv_loop_stops].
Qed.

(** X12. Why a sending loop ends.  The loops of the copy-based and of
    the scatter/gather server go on after every call that did not fail,
    a zero count included, and leave on the first failure: as
    [PeerClosed] for [EPIPE] and [ECONNRESET], as [IOError] for every
    other error.  The loop of the offloaded server decides on the answer
    to its last call of the iteration, and also goes on after [EAGAIN]. *)
Theorem sending_loops_stop `{FloatOps} call args (tr : list sysret)
    use_zerocopy fd iov (ks : list A3_Server.answers) :
  send_stops tr (A1_Server.send_loop call args tr) ∧
  send_stops tr (A2_Server.send_loop call args tr) ∧
  offload_send_stops use_zerocopy ks
    (A3_Server.send_loop use_zerocopy fd iov args ks).
Proof.
  split; [apply A1_send_loop_stops|].
  split; [apply A2_send_loop_stops|apply A3_send_loop_stops].
Qed.

(** X13. A send that would block is invisible in the account of the
    offloaded server: the record and the exit reason of the loop are
    those of the loop run on the answers without the iterations whose
    deciding call failed with [EAGAIN] / [EWOULDBLOCK]; only iterations
    are spent. *)
Theorem would_block_is_retried `{FloatOps} use_zerocopy fd iov args
    (tr : list A3_Server.answers) :
  let r := A3_Server.send_loop use_zerocopy fd iov args tr in
  let r' := A3_Server.send_loop use_zerocopy fd iov args
              (filter (fun k => would_block (decisive_answer use_zerocopy k)
                                = false) tr) in
  final r = final r' ∧ exit r = exit r' ∧
  (iterations r' <= iterations r)%nat.
Proof. apply A3_send_loop_would_block. Qed.

(** ** The accounts of the clients *)

Section ClientAccounts.
Context `{FloatOps}.

Lemma latencies_cons ev evs :
  latencies (ev :: evs)
  = if 0 <? rv (received ev)
    then d_sub (msg_end ev) (msg_start ev) :: latencies evs
    else latencies evs.
Proof.
  unfold latencies. rewrite filter_cons.
  destruct (Z.ltb_spec 0 (rv (received ev))) as [Hpos|Hle];
    destruct (decide (0 < rv (received ev))); try lia; done.
Qed.

Lemma A1_recv_loop_latency call args tr :
  let r := A1_Client.recv_loop call args tr in
  total_latency (final r)
  = fold_left d_add (latencies (take (iterations r) tr)) (total_latency args) ∧
  calls r = map (fun ev => (call, received ev)) (take (iterations r) tr) ∧
  (iterations r <= length tr)%nat.
Proof.
  cbv zeta. revert args. induction tr as [|ev rest IH]; intros args.
  - done.
  - cbn [A1_Client.recv_loop]. cbv zeta.
    destruct (Z.ltb_spec (rv (received ev)) 0) as [Hneg|Hpos].
    + destruct (err (received ev) =? EINTR).
      * cbn [iterate final iterations calls take map length].
        destruct (IH args) as (-> & <- & Hle). rewrite latencies_cons.
        destruct (Z.ltb_spec 0 (rv (received ev))); [lia|].
        split; [done|]. split; [done|lia].
      * cbn [final iterations calls take map length]. rewrite latencies_cons.
        destruct (Z.ltb_spec 0 (rv (received ev))); [lia|].
        rewrite take_0. split; [done|]. split; [done|lia].
    + destruct (Z.eqb_spec (rv (received ev)) 0) as [Hz|Hnz].
      * cbn [final iterations calls take map length]. rewrite latencies_cons.
        destruct (Z.ltb_spec 0 (rv (received ev))); [lia|].
        rewrite take_0. split; [done|]. split; [done|lia].
      * cbn [iterate final iterations calls take map length].
        destruct (IH (count_received args (rv (received ev)) (msg_start ev)
                        (msg_end ev))) as (-> & <- & Hle).
        rewrite latencies_cons.
        destruct (Z.ltb_spec 0 (rv (received ev))); [|lia].
        split; [done|]. split; [done|lia].
Qed.

Lemma A2_recv_loop_latency call args tr :
  let r := A2_Client.recv_loop call args tr in
  total_latency (final r)
  = fold_left d_add (latencies (take (iterations r) tr)) (total_latency args) ∧
  calls r = map (fun ev => (call, received ev)) (take (iterations r) tr) ∧
  (iterations r <= length tr)%nat.
Proof.
  cbv zeta. revert args. induction tr as [|ev rest IH]; intros args.
  - done.
  - cbn [A2_Client.recv_loop]. cbv zeta.
    destruct (Z.ltb_spec (rv (received ev)) 0) as [Hneg|Hpos].
    + destruct (err (received ev) =? EINTR).
      * cbn [iterate final iterations calls take map length].
        destruct (IH args) as (-> & <- & Hle). rewrite latencies_cons.
        destruct (Z.ltb_spec 0 (rv (received ev))); [lia|].
        split; [done|]. split; [done|lia].
      * cbn [final iterations calls take map length]. rewrite latencies_cons.
        destruct (Z.ltb_spec 0 (rv (received ev))); [lia|].
        rewrite take_0. split; [done|]. split; [done|lia].
    + destruct (Z.eqb_spec (rv (received ev)) 0) as [Hz|Hnz].
      * cbn [final iterations calls take map length]. rewrite latencies_cons.
        destruct (Z.ltb_spec 0 (rv (received ev))); [lia|].
        rewrite take_0. split; [done|]. split; [done|lia].
      * cbn [iterate final iterations calls take map length].
        destruct (IH (count_received args (rv (received ev)) (msg_start ev)
                        (msg_end ev))) as (-> & <- & Hle).
        rewrite latencies_cons.
        destruct (Z.ltb_spec 0 (rv (received ev))); [|lia].
        split; [done|]. split; [done|lia].
Qed.

Lemma A3_recv_loop_latency call args tr :
  let r := A3_Client.recv_loop call args tr in
  total_latency (final r)
  = fold_left d_add (latencies (take (iterations r) tr)) (total_latency args) ∧
  calls r = map (fun ev => (call, received ev)) (take (iterations r) tr) ∧
  (iterations r <= length tr)%nat.
Proof.
  cbv zeta. revert args. induction tr as [|ev rest IH]; intros args.
  - done.
  - cbn [A3_Client.recv_loop]. cbv zeta.
    destruct (Z.ltb_spec (rv (received ev)) 0) as [Hneg|Hpos].
    + destruct (err (received ev) =? EINTR).
      * cbn [iterate final iterations calls take map length].
        destruct (IH args) as (-> & <- & Hle). rewrite latencies_cons.
        destruct (Z.ltb_spec 0 (rv (received ev))); [lia|].
        split; [done|]. split; [done|lia].
      * cbn [final iterations calls take map length]. rewrite latencies_cons.
        destruct (Z.ltb_spec 0 (rv (received ev))); [lia|].
        rewrite take_0. split; [done|]. split; [done|lia].
    + destruct (Z.eqb_spec (rv (received ev)) 0) as [Hz|Hnz].
      * cbn [final iterations calls take map length]. rewrite latencies_cons.
        destruct (Z.ltb_spec 0 (rv (received ev))); [lia|].
        rewrite take_0. split; [done|]. split; [done|lia].
      * cbn [iterate final iterations calls take map length].
        destruct (IH (count_received args (rv (received ev)) (msg_start ev)
                        (msg_end ev))) as (-> & <- & Hle).
        rewrite latencies_cons.
        destruct (Z.ltb_spec 0 (rv (received ev))); [|lia].
        split; [done|]. split; [done|lia].
Qed.

Lemma A1_send_loop_answers call args tr :
  let r := A1_Server.send_loop call args tr in
  calls r = map (fun s => (call, s)) (take (iterations r) tr) ∧
  (iterations r <= length tr)%nat.
Proof.
  cbv zeta. revert args. induction tr as [|sent rest IH]; intros args.
  - done.
  - cbn [A1_Server.send_loop]. destruct (rv sent <? 0).
    + destruct ((err sent =? EPIPE) || (err sent =? ECONNRESET));
        cbn [iterations calls take map length]; rewrite take_0;
        (split; [done|lia]).
    + cbn [iterate iterations calls take map length].
      destruct (IH (count_sent args (rv sent))) as (<- & Hle).
      split; [done|lia].
Qed.

Lemma A2_send_loop_answers call args tr :
  let r := A2_Server.send_loop call args tr in
  calls r = map (fun s => (call, s)) (take (iterations r) tr) ∧
  (iterations r <= length tr)%nat.
Proof.
  cbv zeta. revert args. induction tr as [|sent rest IH]; intros args.
  - done.
  - cbn [A2_Server.send_loop]. destruct (rv sent <? 0).
    + destruct ((err sent =? EPIPE) || (err sent =? ECONNRESET));
        cbn [iterations calls take map length]; rewrite take_0;
        (split; [done|lia]).
    + cbn [iterate iterations calls take map length].
      destruct (IH (count_sent args (rv sent))) as (<- & Hle).
      split; [done|lia].
Qed.

End ClientAccounts.

Section Merge.
Context `{FloatOps}.
Variable client_thread :
  ClientThreadArgs -> client_env -> Metrics -> run ClientThreadArgs * Metrics.

Hypothesis client_thread_local : ∀ a e g g',
  fst (client_thread a e g) = fst (client_thread a e g').
Hypothesis client_thread_merge : ∀ a e g,
  snd (client_thread a e g)
  = match exit (fst (client_thread a e g)) with
    | NotStarted => g
    | _ => update_global_metrics g (final (fst (client_thread a e g)))
    end.

Lemma run_threads_cons msg_size duration slots envs i rest g :
  run_threads client_thread msg_size duration slots envs (i :: rest) g
  = run_threads client_thread msg_size duration slots envs rest
      (match worker_record client_thread
               (init_client_slot (slots i) i msg_size duration) (envs i) with
       | Some a => update_global_metrics g a
       | None => g
       end).
Proof.
  unfold run_threads. cbn [fold_left]. f_equal.
  rewrite client_thread_merge.
  rewrite (client_thread_local _ _ g global_metrics_init).
  unfold worker_record. cbv zeta. by destruct (exit _).
Qed.

Lemma merged_cons msg_size duration slots envs i rest :
  merged client_thread msg_size duration slots envs (i :: rest)
  = match worker_record client_thread
            (init_client_slot (slots i) i msg_size duration) (envs i) with
    | Some a => a :: merged client_thread msg_size duration slots envs rest
    | None => merged client_thread msg_size duration slots envs rest
    end.
Proof. reflexivity. Qed.

Lemma run_threads_totals msg_size duration slots envs lock_order g :
  wrap64 (total_bytes g) = total_bytes g ->
  wrap64 (total_messages g) = total_messages g ->
  let g' := run_threads client_thread msg_size duration slots envs
              lock_order g in
  let ms := merged client_thread msg_size duration slots envs lock_order in
  total_bytes g' = wrap64 (total_bytes g + sum_Z (map bytes_received ms)) ∧
  total_messages g'
  = wrap64 (total_messages g + sum_Z (map messages_received ms)) ∧
  total_time g' = from_option ca_elapsed_time (total_time g) (last ms).
Proof.
  cbv zeta. revert g. induction lock_order as [|i rest IH]; intros g Hb Hm.
  - cbn. by rewrite !Z.add_0_r, Hb, Hm.
  - rewrite run_threads_cons, merged_cons.
    destruct (worker_record _ _ _) as [a|]; [|by apply IH].
    destruct (IH (update_global_metrics g a)) as (-> & -> & ->);
      cbn [update_global_metrics total_bytes total_messages total_time];
      [apply wrap64_idem | apply wrap64_idem |].
    cbn [map sum_Z foldr].
    fold (sum_Z (map bytes_received
                   (merged client_thread msg_size duration slots envs rest))).
    fold (sum_Z (map messages_received
                   (merged client_thread msg_size duration slots envs rest))).
    rewrite !wrap64_add_l.
    split; [apply (f_equal wrap64); lia|].
    split; [apply (f_equal wrap64); lia|].
    destruct (merged client_thread msg_size duration slots envs rest)
      as [|c l]; [done|].
    rewrite (last_cons a (c :: l)), (last_cons c l). by destruct (last l).
Qed.

Lemma client_main_totals num_threads msg_size duration create_rv slots envs
    lock_order :
  let g := client_main client_thread num_threads msg_size duration create_rv
             slots envs lock_order in
  let ms := merged client_thread msg_size duration slots envs lock_order in
  total_bytes g = wrap64 (sum_Z (map bytes_received ms)) ∧
  total_messages g = wrap64 (sum_Z (map messages_received ms)) ∧
  total_time g = from_option ca_elapsed_time d_zero (last ms).
Proof.
  cbv zeta. unfold client_main. cbv zeta.
  cbn [total_bytes total_messages total_time].
  by destruct (run_threads_totals msg_size duration slots envs lock_order
                 global_metrics_init eq_refl eq_refl) as (-> & -> & ->).
Qed.

Lemma merged_perm msg_size duration slots envs lock_order lock_order' :
  lock_order ≡ₚ lock_order' ->
  merged client_thread msg_size duration slots envs lock_order
  ≡ₚ merged client_thread msg_size duration slots envs lock_order'.
Proof. intros Hp. unfold merged. by rewrite Hp. Qed.

Lemma client_main_totals_perm num_threads msg_size duration create_rv slots
    envs lock_order lock_order' :
  lock_order ≡ₚ lock_order' ->
  total_bytes (client_main client_thread num_threads msg_size duration
                 create_rv slots envs lock_order)
  = total_bytes (client_main client_thread num_threads msg_size duration
                   create_rv slots envs lock_order') ∧
  total_messages (client_main client_thread num_threads msg_size duration
                    create_rv slots envs lock_order)
  = total_messages (client_main client_thread num_threads msg_size duration
                      create_rv slots envs lock_order').
Proof.
  intros Hp.
  destruct (client_main_totals num_threads msg_size duration create_rv slots
              envs lock_order) as (-> & -> & _).
  destruct (client_main_totals num_threads msg_size duration create_rv slots
              envs lock_order') as (-> & -> & _).
  pose proof (merged_perm msg_size duration slots envs _ _ Hp) as Hm.
  split; apply (f_equal wrap64); apply sum_Z_perm; by apply Permutation_map.
Qed.

End Merge.

Lemma create_loop_spec num_threads create_rv todo i :
  let r := create_loop num_threads create_rv todo i in
  (r = num_threads ∧
   ∀ j, (i <= j < i + todo)%nat -> create_rv j = 0) ∨
  (∃ j, (i <= j < i + todo)%nat ∧ r = Z.of_nat j ∧ create_rv j ≠ 0 ∧
        ∀ j', (i <= j' < j)%nat -> create_rv j' = 0).
Proof.
  cbv zeta. revert i. induction todo as [|todo IH]; intros i.
  - left. split; [done|]. intros j Hj. lia.
  - cbn [create_loop]. destruct (Z.eqb_spec (create_rv i) 0) as [Hz|Hnz];
      cbn [negb].
    + destruct (IH (S i)) as [[-> Hall]|(j & Hj & -> & Hnz & Hall)].
      * left. split; [done|]. intros j Hj.
        destruct (decide (j = i)) as [->|]; [done|]. apply Hall. lia.
      * right. exists j. split; [lia|]. split; [done|]. split; [done|].
        intros j' Hj'. destruct (decide (j' = i)) as [->|]; [done|].
        apply Hall. lia.
    + right. exists i. split; [lia|]. split; [done|]. split; [done|].
      intros j' Hj'. lia.
Qed.

Lemma recv_buffers_alloc_spec field_size todo buffers h w ok i :
  extends h buffers (heap w) ->
  Forall (fun p => ∃ l bytes, p = Some l ∧ heap w !! l = Some (Buf bytes) ∧
                              length bytes = Z.to_nat field_size) buffers ->
  (∀ k, ok (i + k)%nat = bool_decide (is_Some (supply w (served w + k)%nat))) ->
  ∃ res w',
    recv_buffers_alloc field_size todo buffers w = Some (res, w') ∧
    A2_Client.alloc_buffers ok todo i = bool_decide (is_Some res) ∧
    match res with
    | None => heap w' = h
    | Some bs =>
        length bs = (length buffers + todo)%nat ∧
        extends h bs (heap w') ∧
        Forall (fun p => ∃ l bytes, p = Some l ∧
                           heap w' !! l = Some (Buf bytes) ∧
                           length bytes = Z.to_nat field_size) bs
    end.
Proof.
  revert buffers w i.
  induction todo as [|todo IH]; intros buffers w i Hext Hall Hok.
  - exists (Some buffers), w. split; [done|]. split; [done|].
    split; [lia|done].
  - cbn [recv_buffers_alloc A2_Client.alloc_buffers]. rewrite bind_malloc.
    destruct (malloc_step field_size w) as [p w1] eqn:Hm. cbn [fst snd].
    pose proof (malloc_step_track _ _ _ _ Hm) as (Hsup & Hserved & Hnone & Hsome).
    specialize (Hok 0%nat) as Hok0. rewrite !Nat.add_0_r in Hok0.
    destruct p as [l|]; cbn [is_null].
    + rewrite Hok0, bool_decide_eq_true_2 by (by apply Hsome). cbn [negb].
      pose proof (extends_malloc _ _ _ _ _ _ Hext Hm) as Hext1.
      pose proof Hm as Hnew.
      apply malloc_step_Some in Hnew as (j & _ & Hfresh & Hheap).
      destruct (IH (buffers ++ [Some l]) w1 (S i) Hext1)
        as (res & w' & Hrun & Hbool & Hres).
      { apply Forall_app. split.
        - eapply Forall_impl; [exact Hall|].
          intros p (l' & bytes & -> & Hl' & Hlen). exists l', bytes.
          split; [done|]. split; [|done].
          by eapply malloc_step_preserves.
        - constructor; [|constructor].
          exists l, (junk_bytes j field_size). split; [done|].
          split; [by rewrite Hheap, lookup_insert_eq|].
          apply length_junk_bytes. }
      { intros k. rewrite Hsup, Hserved.
        replace (S i + k)%nat with (i + S k)%nat by lia.
        replace (S (served w) + k)%nat with (served w + S k)%nat by lia.
        apply Hok. }
      exists res, w'. split; [done|]. split; [done|].
      destruct res as [bs|]; [|done].
      destruct Hres as (Hlen & ? & ?). split; [|done].
      rewrite Hlen, length_app. cbn [length]. lia.
    + rewrite Hok0, (Hnone eq_refl).
      rewrite bool_decide_eq_false_2 by (by intros [? ?]). cbn [negb].
      apply malloc_step_None in Hm as [_ Hheap].
      rewrite (free_each_extends buffers _ h w1) by (by rewrite Hheap).
      exists None, (with_heap w1 h). split; [done|]. split; [|done].
      by rewrite bool_decide_eq_false_2 by (by intros [? ?]).
Qed.

(** X14. A receiving loop adds to [total_latency] the duration of
    exactly the calls that returned a positive count, in the order of
    the calls; an interrupted call, the call that saw the peer close and
    the call that failed add nothing. *)
Theorem latency_counts_positive_receives `{FloatOps} call args
    (tr : list recv_event) :
  let total r := total_latency (final r)
                 = fold_left d_add (latencies (take (iterations r) tr))
                     (total_latency args) in
  total (A1_Client.recv_loop call args tr) ∧
  total (A2_Client.recv_loop call args tr) ∧
  total (A3_Client.recv_loop call args tr).
Proof.
  cbv zeta. split; [apply A1_recv_loop_latency|].
  split; [apply A2_recv_loop_latency|apply A3_recv_loop_latency].
Qed.

(** X15. Outside the offloaded server, a loop issues one transport call
    per iteration, always the same call, and gets the answers of the
    environment in order: the calls of a run are the first [iterations]
    answers, each paired with the call of the loop. *)
Theorem one_call_per_iteration `{FloatOps} call sargs cargs
    (answers : list sysret) (evs : list recv_event) :
  let sent (r : run ServerThreadArgs) :=
    calls r = map (fun s => (call, s)) (take (iterations r) answers) ∧
    (iterations r <= length answers)%nat in
  let got (r : run ClientThreadArgs) :=
    calls r = map (fun ev => (call, received ev)) (take (iterations r) evs) ∧
    (iterations r <= length evs)%nat in
  sent (A1_Server.send_loop call sargs answers) ∧
  sent (A2_Server.send_loop call sargs answers) ∧
  got (A1_Client.recv_loop call cargs evs) ∧
  got (A2_Client.recv_loop call cargs evs) ∧
  got (A3_Client.recv_loop call cargs evs).
Proof.
  cbv zeta. split; [apply A1_send_loop_answers|].
  split; [apply A2_send_loop_answers|].
  split; [apply A1_recv_loop_latency|].
  split; [apply A2_recv_loop_latency|apply A3_recv_loop_latency].
Qed.

(** X16. The byte and message totals that a client reports are the sums
    of the counters of the workers that reached the merge, reduced
    modulo [2^64] once, and do not depend on the order in which the
    workers took [metrics_mutex]. *)
Theorem client_totals_are_sums `{FloatOps} num_threads msg_size duration
    create_rv slots envs lock_order :
  let sums client_thread :=
    let g := client_main client_thread num_threads msg_size duration
               create_rv slots envs lock_order in
    let ms := merged client_thread msg_size duration slots envs lock_order in
    total_bytes g = wrap64 (sum_Z (map bytes_received ms)) ∧
    total_messages g = wrap64 (sum_Z (map messages_received ms)) ∧
    ∀ lock_order', lock_order ≡ₚ lock_order' ->
      let g' := client_main client_thread num_threads msg_size duration
                  create_rv slots envs lock_order' in
      total_bytes g = total_bytes g' ∧ total_messages g = total_messages g' in
  sums A1_Client.client_thread ∧
  sums A2_Client.client_thread ∧
  sums A3_Client.client_thread.
Proof.
  cbv zeta. split; [|split].
  - destruct (client_main_totals A1_Client.client_thread
                A1_client_thread_local A1_client_thread_merge
                num_threads msg_size duration create_rv slots envs lock_order)
      as (Hb & Hm & _).
    split; [done|]. split; [done|]. intros lock_order' Hp.
    by apply client_main_totals_perm;
      [apply A1_client_thread_local|apply A1_client_thread_merge|].
  - destruct (client_main_totals A2_Client.client_thread
                A2_client_thread_local A2_client_thread_merge
                num_threads msg_size duration create_rv slots envs lock_order)
      as (Hb & Hm & _).
    split; [done|]. split; [done|]. intros lock_order' Hp.
    by apply client_main_totals_perm;
      [apply A2_client_thread_local|apply A2_client_thread_merge|].
  - destruct (client_main_totals A3_Client.client_thread
                A3_client_thread_local A3_client_thread_merge
                num_threads msg_size duration create_rv slots envs lock_order)
      as (Hb & Hm & _).
    split; [done|]. split; [done|]. intros lock_order' Hp.
    by apply client_main_totals_perm;
      [apply A3_client_thread_local|apply A3_client_thread_merge|].
Qed.

(** X17. The time that a client reports, and divides the byte total by,
    is the elapsed time of the worker that took [metrics_mutex] last
    among those that reached the merge, and [0.0] when none did: every
    merge overwrites [global_metrics.total_time]. *)
Theorem client_total_time_is_last_writer `{FloatOps} num_threads msg_size
    duration create_rv slots envs lock_order :
  let last_writer client_thread :=
    total_time (client_main client_thread num_threads msg_size duration
                  create_rv slots envs lock_order)
    = from_option ca_elapsed_time d_zero
        (last (merged client_thread msg_size duration slots envs lock_order)) in
  last_writer A1_Client.client_thread ∧
  last_writer A2_Client.client_thread ∧
  last_writer A3_Client.client_thread.
Proof.
  cbv zeta. split; [|split].
  - apply (client_main_totals A1_Client.client_thread
             A1_client_thread_local A1_client_thread_merge).
  - apply (client_main_totals A2_Client.client_thread
             A2_client_thread_local A2_client_thread_merge).
  - apply (client_main_totals A3_Client.client_thread
             A3_client_thread_local A3_client_thread_merge).
Qed.

(** X18. After the creation loop of a client, [num_threads] is the
    requested number if every [pthread_create] succeeded, and otherwise
    the index of the first one that failed, which is smaller. *)
Theorem create_loop_counts_created_threads num_threads create_rv :
  let r := create_loop num_threads create_rv (Z.to_nat num_threads) 0 in
  (r = num_threads ∧
   ∀ j, Z.of_nat j < num_threads -> create_rv j = 0) ∨
  (∃ j, r = Z.of_nat j ∧ 0 <= r < num_threads ∧ create_rv j ≠ 0 ∧
        ∀ j', (j' < j)%nat -> create_rv j' = 0).
Proof.
  cbv zeta.
  destruct (create_loop_spec num_threads create_rv (Z.to_nat num_threads) 0)
    as [[Hr Hall]|(j & Hj & Hr & Hnz & Hall)].
  - left. split; [done|]. intros j Hj. apply Hall. lia.
  - right. exists j. split; [done|]. split; [lia|]. split; [done|].
    intros j' Hj'. apply Hall. lia.
Qed.

(** X19. The buffer phase of the scatter/gather client is all or
    nothing: it ends with eight distinct live buffers of [field_size]
    bytes that were not on the heap before, or, when one [malloc] is
    refused, with the heap as it was; and the cleanup loop gives the
    eight buffers back.  The phase succeeds exactly when the worker's
    next eight calls of [malloc] do. *)
Theorem recv_buffers_all_or_nothing field_size (w : world) :
  ∃ res w',
    recv_buffers_alloc field_size (Z.to_nat NUM_FIELDS) [] w = Some (res, w') ∧
    A2_Client.alloc_buffers
      (fun k => bool_decide (is_Some (supply w (served w + k)%nat)))
      (Z.to_nat NUM_FIELDS) 0
    = bool_decide (is_Some res) ∧
    match res with
    | None => heap w' = heap w
    | Some bs =>
        length bs = 8%nat ∧ extends (heap w) bs (heap w') ∧
        Forall (fun p => ∃ l bytes, p = Some l ∧
                           heap w' !! l = Some (Buf bytes) ∧
                           length bytes = Z.to_nat field_size) bs ∧
        ∃ w'', recv_buffers_free bs w' = Some (tt, w'') ∧ heap w'' = heap w
    end.
Proof.
  destruct (recv_buffers_alloc_spec field_size (Z.to_nat NUM_FIELDS) []
              (heap w) w
              (fun k => bool_decide (is_Some (supply w (served w + k)%nat)))
              0%nat (extends_nil _) (Forall_nil_2 _))
    as (res & w' & Hrun & Hbool & Hres); [done|].
  exists res, w'. split; [done|]. split; [done|].
  destruct res as [bs|]; [|done].
  destruct Hres as (Hlen & Hext & Hall). split; [done|]. split; [done|].
  split; [done|]. exists (with_heap w' (heap w)).
  unfold recv_buffers_free. by rewrite (free_each_extends bs _ (heap w) w').
Qed.

Section MaxTime.
Context `{FloatOps}.

Lemma max_time_among (times : list double) (l : list ServerThreadArgs) t0 :
  (∀ x y z, x ∈ times -> y ∈ times -> z ∈ times ->
            d_le x y -> d_le y z -> d_le x z) ->
  (∀ x y, x ∈ times -> y ∈ times -> d_ltb x y = true -> d_le x y) ->
  (∀ x, x ∈ times -> d_le x x) ->
  st_max_time t0 ∈ times ->
  Forall (fun a => sa_elapsed_time a ∈ times) l ->
  let t := fold_left
    (fun t a =>
       {| st_total_bytes := wrap64 (st_total_bytes t + bytes_sent a);
          st_total_messages := wrap64 (st_total_messages t + messages_sent a);
          st_max_time := if d_ltb (st_max_time t) (sa_elapsed_time a)
                         then sa_elapsed_time a else st_max_time t |})
    l t0 in
  st_max_time t ∈ times ∧
  d_le (st_max_time t0) (st_max_time t) ∧
  Forall (fun a => d_le (sa_elapsed_time a) (st_max_time t)) l.
Proof.
  intros Htrans Hlt Hrefl Ht0 Hall. cbv zeta. revert t0 Ht0.
  induction Hall as [|a l Ha _ IH]; intros t0 Ht0; cbn [fold_left].
  - split; [done|]. split; [by apply Hrefl|constructor].
  - match goal with
    | |- context [fold_left ?f l ?t1] =>
        destruct (IH t1) as (Hin & Hle & Hrest)
    end.
    { cbn [st_max_time]. by destruct (d_ltb _ _). }
    cbn [st_max_time] in Hle. split; [done|].
    destruct (d_ltb (st_max_time t0) (sa_elapsed_time a)) eqn:Hcmp.
    + split; [|by constructor].
      apply (Htrans _ (sa_elapsed_time a)); try done. by apply Hlt.
    + split; [done|]. constructor; [|done].
      by apply (Htrans _ (st_max_time t0)).
Qed.

End MaxTime.

(** X9. The time that a server divides by is [0.0] or the elapsed time
    of one of its workers.  When the comparison of doubles orders these
    times (none of them is a NaN), it is at least the elapsed time of
    every worker. *)
Theorem server_max_time_is_maximum `{FloatOps}
    (thread_args : list ServerThreadArgs) :
  let times := d_zero :: map sa_elapsed_time thread_args in
  let max_time := st_max_time (total_metrics thread_args) in
  max_time ∈ times ∧
  ((∀ x y z, x ∈ times -> y ∈ times -> z ∈ times ->
             d_le x y -> d_le y z -> d_le x z) ->
   (∀ x y, x ∈ times -> y ∈ times -> d_ltb x y = true -> d_le x y) ->
   (∀ x, x ∈ times -> d_le x x) ->
   Forall (fun a => d_le (sa_elapsed_time a) max_time) thread_args).
Proof.
  cbv zeta. split.
  - destruct (max_time_origin thread_args
                {| st_total_bytes := 0; st_total_messages := 0;
                   st_max_time := d_zero |}) as [Heq|Hin].
    + unfold total_metrics. rewrite Heq. apply list_elem_of_here.
    + by apply list_elem_of_further.
  - intros Htrans Hlt Hrefl. unfold total_metrics.
    eapply (max_time_among _ thread_args _ Htrans Hlt Hrefl).
    + apply list_elem_of_here.
    + apply Forall_forall. intros a Ha. apply list_elem_of_further.
      by apply list_elem_of_fmap_2.
Qed.

(** On doubles with a NaN the comparison is no order ([2 <= NaN] and
    [NaN <= 1], but [1 < 2]); it orders the times of these three
    workers, of which the longest is 5 seconds. *)
Lemma server_max_time_is_maximum_witness :
  d_le (H := NaN_FloatOps) (Some 2%Q) None ∧
  d_le (H := NaN_FloatOps) None (Some 1%Q) ∧
  d_ltb (FloatOps := NaN_FloatOps) (Some 1%Q) (Some 2%Q) = true ∧
  st_max_time (total_metrics NaN_Examples.three_workers) = Some 5%Q ∧
  Forall (fun a => d_le (H := NaN_FloatOps) (sa_elapsed_time a)
                     (st_max_time (total_metrics NaN_Examples.three_workers)))
         NaN_Examples.three_workers.
Proof.
  split; [reflexivity|]. split; [reflexivity|]. split; [reflexivity|].
  split; [reflexivity|].
  apply (proj2 (server_max_time_is_maximum (H := NaN_FloatOps)
                  NaN_Examples.three_workers)).
  - intros x y z Hx Hy Hz. cbn in Hx, Hy, Hz. set_unfold.
    destruct_or!; subst; vm_compute; congruence.
  - intros x y Hx Hy. cbn in Hx, Hy. set_unfold.
    destruct_or!; subst; vm_compute; congruence.
  - intros x Hx. cbn in Hx. set_unfold.
    destruct_or!; subst; vm_compute; congruence.
Defined.

(** ** The arrays of [main] *)

Section ServerArrays.
Context `{FloatOps}.

Lemma accept_loop_on_granted l1 l2 msg_size duration slots max_threads
    thread_id num_threads evs :
  accept_loop_on (Some l1) (Some l2) msg_size duration slots max_threads
                 thread_id num_threads evs
  = Some (accept_loop msg_size duration slots max_threads thread_id
                      num_threads evs).
Proof.
  revert thread_id num_threads.
  induction evs as [|ev rest IH]; intros tid n; [done|].
  cbn [accept_loop_on accept_loop is_null]. cbv zeta.
  destruct (accept_rv ev <? 0); [apply IH|].
  destruct (max_threads <=? n)%nat; [apply IH|].
  destruct (negb (pthread_create_rv ev =? 0)); [apply IH|].
  by rewrite IH.
Qed.

Lemma accept_loop_on_refused threads thread_args msg_size duration slots
    max_threads thread_id num_threads evs :
  is_null threads || is_null thread_args = true ->
  (num_threads < max_threads)%nat ->
  accept_loop_on threads thread_args msg_size duration slots max_threads
                 thread_id num_threads evs
  = if existsb (fun ev => 0 <=? accept_rv ev) evs then None else Some [].
Proof.
  intros Hnull Hroom. induction evs as [|ev rest IH]; [done|].
  cbn [accept_loop_on existsb]. cbv zeta.
  destruct (Z.ltb_spec (accept_rv ev) 0) as [Hneg|Hfd].
  - rewrite IH. destruct (Z.leb_spec 0 (accept_rv ev)); [lia|done].
  - destruct (Z.leb_spec 0 (accept_rv ev)); [|lia]. cbn [orb].
    destruct (Nat.leb_spec max_threads num_threads); [lia|].
    destruct (is_null thread_args); [done|].
    cbn [orb] in Hnull. rewrite orb_false_r in Hnull. by rewrite Hnull.
Qed.

Lemma existsb_accepted evs :
  existsb (fun ev => 0 <=? accept_rv ev) evs = true <-> connection_accepted evs.
Proof.
  unfold connection_accepted. rewrite existsb_exists, Exists_exists.
  split; intros (ev & Hin & Hev); exists ev; (split; [|by apply Z.leb_le]).
  - by apply list_elem_of_In.
  - by apply list_elem_of_In.
Qed.

Lemma accept_loop_unaccepted msg_size duration slots max_threads thread_id
    num_threads evs :
  existsb (fun ev => 0 <=? accept_rv ev) evs = false ->
  accept_loop msg_size duration slots max_threads thread_id num_threads evs
  = [].
Proof.
  induction evs as [|ev rest IH]; [done|]. cbn [existsb accept_loop].
  intros [Hev Hrest]%orb_false_iff. apply Z.leb_gt in Hev.
  destruct (Z.ltb_spec (accept_rv ev) 0); [|lia]. by apply IH.
Qed.

Variable answer : Type.
Variable handle_client :
  ServerThreadArgs -> server_env answer -> heapM (run ServerThreadArgs).
Variable msg_size : Z.
Hypothesis handle_client_defined : ∀ a e w,
  sa_msg_size a = msg_size -> ∃ r w', handle_client a e w = Some (r, w').

Lemma join_all_started envs worlds i started :
  Forall (fun a => sa_msg_size a = msg_size) started ->
  ∃ runs, join_all handle_client envs worlds i started = Some runs ∧
          length runs = length started.
Proof.
  intros Hall. revert i.
  induction Hall as [|a rest Ha _ IH]; intros i; [by exists []|].
  cbn [join_all].
  destruct (handle_client_defined a (envs i) (worlds i) Ha) as (r & w' & ->).
  destruct (IH (S i)) as (rs & -> & Hrs). exists (r :: rs).
  split; [done|]. cbn [length]. by rewrite Hrs.
Qed.

Lemma server_main_defined duration slots evs envs worlds w :
  (arrays_granted w ∨ ¬ connection_accepted evs ->
   ∃ runs w',
     server_main handle_client msg_size duration slots evs envs worlds w
     = Some ((runs, total_metrics (map final runs)), w') ∧
     heap w' = heap w ∧
     length runs = length (accept_loop msg_size duration slots 100 0 0 evs) ∧
     (length runs <= 100)%nat) ∧
  (¬ arrays_granted w -> connection_accepted evs ->
   server_main handle_client msg_size duration slots evs envs worlds w = None).
Proof.
  unfold server_main, arrays_granted. cbv zeta.
  rewrite bind_malloc.
  destruct (malloc_step (Z.of_nat 100 * sizeof_pthread_t) w)
    as [threads w1] eqn:Hm1. cbn [fst snd].
  rewrite bind_malloc.
  destruct (malloc_step (Z.of_nat 100 * sizeof_ServerThreadArgs) w1)
    as [thread_args w2] eqn:Hm2. cbn [fst snd].
  pose proof (malloc_step_track _ _ _ _ Hm1) as (Hs1 & Hn1 & Hnone1 & Hsome1).
  pose proof (malloc_step_track _ _ _ _ Hm2) as (Hs2 & Hn2 & Hnone2 & Hsome2).
  rewrite Hs1, Hn1 in Hnone2, Hsome2.
  pose proof (extends_malloc _ _ _ _ _ _
                (extends_malloc _ [] _ _ _ _ (extends_nil _) Hm1) Hm2) as Hext.
  cbn [app] in Hext.
  pose proof (accept_loop_length msg_size duration slots 100 0 0 evs) as Hlen.
  destruct (join_all_started envs worlds 0%nat
              (accept_loop msg_size duration slots 100 0 0 evs))
    as (runs & Hjoin & Hruns).
  { apply Forall_lookup. intros k a Hk.
    by destruct (accept_loop_slots _ _ _ _ _ _ _ _ _ Hk) as (? & _). }
  assert (is_null threads || is_null thread_args = false
          <-> is_Some (supply w (served w)) ∧ is_Some (supply w (S (served w))))
    as Hgranted.
  { destruct threads as [l1|], thread_args as [l2|]; cbn [is_null orb]; split;
      try done.
    - intros _. split; [by apply Hsome1|by apply Hsome2].
    - intros [_ Hg]. rewrite (Hnone2 eq_refl) in Hg. by destruct Hg.
    - intros [Hg _]. rewrite (Hnone1 eq_refl) in Hg. by destruct Hg.
    - intros [Hg _]. rewrite (Hnone1 eq_refl) in Hg. by destruct Hg. }
  assert (accept_loop_on threads thread_args msg_size duration slots 100 0 0 evs
          = Some (accept_loop msg_size duration slots 100 0 0 evs) ->
          ∃ runs w',
            (started <- defined (accept_loop_on threads thread_args msg_size
                                   duration slots 100 0 0 evs) ;;
             runs <- defined (join_all handle_client envs worlds 0 started) ;;
             free threads ;;; free thread_args ;;;
             ret (runs, total_metrics (map final runs))) w2
            = Some ((runs, total_metrics (map final runs)), w') ∧
            heap w' = heap w ∧
            length runs
            = length (accept_loop msg_size duration slots 100 0 0 evs) ∧
            (length runs <= 100)%nat) as Hgo.
  { intros Hon. unfold bind at 1. rewrite Hon.
    cbn [defined fst snd]. unfold bind at 1. rewrite Hjoin.
    cbn [defined fst snd].
    change (free threads ;;; free thread_args ;;;
            ret (runs, total_metrics (map final runs)))
      with (free_each [threads; thread_args]
              (ret (runs, total_metrics (map final runs)))).
    rewrite (free_each_extends _ _ (heap w) w2 Hext).
    exists runs. eexists. repeat split; try done. rewrite Hruns. lia. }
  destruct (is_null threads || is_null thread_args) eqn:Hnull.
  - pose proof (accept_loop_on_refused threads thread_args msg_size duration
                  slots 100 0 0 evs Hnull ltac:(lia)) as Hon.
    split.
    + intros [Hg|Hno]; [by apply Hgranted in Hg|].
      apply Hgo. rewrite Hon.
      destruct (existsb _ evs) eqn:Hex; [by apply existsb_accepted in Hex|].
      by rewrite (accept_loop_unaccepted _ _ _ _ _ _ _ Hex).
    + intros _ Hacc. apply existsb_accepted in Hacc.
      unfold bind at 1. by rewrite Hon, Hacc.
  - split.
    + intros _. apply Hgo.
      destruct threads as [l1|], thread_args as [l2|]; try done.
      apply accept_loop_on_granted.
    + intros Hno. by destruct Hno; apply Hgranted.
Qed.

End ServerArrays.

(** X10. The scatter/gather server and the offloaded server, on runs in
    which the accept loop and the loop of every worker end.  If [malloc]
    granted [main] its two arrays, or if no connection was accepted,
    [main] is defined whatever the allocator and the transport answer
    to the workers: one run per started worker, at most a hundred, the
    totals taken over their records, and the two arrays given back.  If
    an array was refused and a connection is accepted, [main] stores
    through [NULL]: it never checks the two pointers. *)
Theorem vectorized_servers_join_every_worker `{FloatOps} msg_size duration
    (slots : nat -> ServerThreadArgs) (evs : list accept_event)
    (worlds : nat -> world) (w : world) :
  let joined (main : heapM (list (run ServerThreadArgs) * server_totals)) :=
    (arrays_granted w ∨ ¬ connection_accepted evs ->
     ∃ runs w',
       main w = Some ((runs, total_metrics (map final runs)), w') ∧
       heap w' = heap w ∧
       length runs
       = length (accept_loop msg_size duration slots 100 0 0 evs) ∧
       (length runs <= 100)%nat) ∧
    (¬ arrays_granted w -> connection_accepted evs -> main w = None) in
  (∀ envs, joined (A2_Server.main msg_size duration slots evs envs worlds)) ∧
  (∀ envs, joined (A3_Server.main msg_size duration slots evs envs worlds)).
Proof.
  cbv zeta. split; intros envs.
  - apply server_main_defined. intros a e w0 _.
    destruct (A2_handle_client_defined a e w0) as (r & w' & ? & _).
    by exists r, w'.
  - apply server_main_defined. intros a e w0 _.
    destruct (A3_handle_client_defined a e w0) as (r & w' & ? & _).
    by exists r, w'.
Qed.

Lemma vectorized_servers_join_every_worker_witness :
  (∃ runs w',
     A2_Server.main (H := Q_FloatOps) 1024 1 (fun _ => Examples.dirty_slot)
       Examples.two_accepts Examples.two_servers Examples.two_allocators
       (Examples.empty_world Examples.generous)
     = Some ((runs, total_metrics (map final runs)), w') ∧
     heap w' = heap (Examples.empty_world Examples.generous) ∧
     length runs
     = length (accept_loop (H := Q_FloatOps) 1024 1
                 (fun _ => Examples.dirty_slot) 100 0 0 Examples.two_accepts) ∧
     (length runs <= 100)%nat) ∧
  A2_Server.main (H := Q_FloatOps) 1024 1 (fun _ => Examples.dirty_slot)
    Examples.two_accepts Examples.two_servers Examples.two_allocators
    (Examples.empty_world Examples.exhausted) = None.
Proof.
  split.
  - apply (proj1 (proj1 (vectorized_servers_join_every_worker (H := Q_FloatOps)
                    1024 1 (fun _ => Examples.dirty_slot) Examples.two_accepts
                    Examples.two_allocators
                    (Examples.empty_world Examples.generous))
                    Examples.two_servers)).
    left. split; by eexists.
  - apply (proj2 (proj1 (vectorized_servers_join_every_worker (H := Q_FloatOps)
                    1024 1 (fun _ => Examples.dirty_slot) Examples.two_accepts
                    Examples.two_allocators
                    (Examples.empty_world Examples.exhausted))
                    Examples.two_servers)).
    + intros [[j Hj] _]. discriminate Hj.
    + apply Exists_cons_hd. by vm_compute.
Defined.

(** X20. The copy-based server, on runs in which the accept loop and the
    loop of every worker end, when the size of the serialized block
    fits [size_t].  If [malloc] granted [main] its two arrays, or if no
    connection was accepted, [main] is defined whatever the allocator
    and the transport answer to the workers: one run per started
    worker, at most a hundred, and the two arrays given back.  If an
    array was refused and a connection is accepted, [main] stores
    through [NULL]. *)
Theorem copy_server_joins_every_worker `{FloatOps} msg_size duration
    (slots : nat -> ServerThreadArgs) (evs : list accept_event)
    (envs : nat -> server_env sysret) (worlds : nat -> world) (w : world) :
  0 <= msg_size ->
  msg_size + sizeof_SerializedMessage < ULONG_MODULUS ->
  (arrays_granted w ∨ ¬ connection_accepted evs ->
   ∃ runs w',
     A1_Server.main msg_size duration slots evs envs worlds w
     = Some ((runs, total_metrics (map final runs)), w') ∧
     heap w' = heap w ∧
     length runs = length (accept_loop msg_size duration slots 100 0 0 evs) ∧
     (length runs <= 100)%nat) ∧
  (¬ arrays_granted w -> connection_accepted evs ->
   A1_Server.main msg_size duration slots evs envs worlds w = None).
Proof.
  intros Hpos Hfit. apply server_main_defined. intros a e w0 Ha.
  destruct (A1_handle_client_defined a e w0) as (r & w' & ? & _);
    [by rewrite Ha|by rewrite Ha|].
  by exists r, w'.
Qed.

Lemma copy_server_joins_every_worker_witness :
  (∃ runs w',
     A1_Server.main (H := Q_FloatOps) 1024 1 (fun _ => Examples.dirty_slot)
       Examples.two_accepts Examples.two_servers Examples.two_allocators
       (Examples.empty_world Examples.generous)
     = Some ((runs, total_metrics (map final runs)), w') ∧
     heap w' = heap (Examples.empty_world Examples.generous) ∧
     length runs
     = length (accept_loop (H := Q_FloatOps) 1024 1
                 (fun _ => Examples.dirty_slot) 100 0 0 Examples.two_accepts) ∧
     (length runs <= 100)%nat) ∧
  A1_Server.main (H := Q_FloatOps) 1024 1 (fun _ => Examples.dirty_slot)
    Examples.two_accepts Examples.two_servers Examples.two_allocators
    (Examples.empty_world Examples.exhausted) = None.
Proof.
  assert (0 <= 1024) as Hpos by lia.
  assert (1024 + sizeof_SerializedMessage < ULONG_MODULUS) as Hfit
    by (by vm_compute).
  split.
  - apply (proj1 (copy_server_joins_every_worker (H := Q_FloatOps)
                    1024 1 (fun _ => Examples.dirty_slot) Examples.two_accepts
                    Examples.two_servers Examples.two_allocators
                    (Examples.empty_world Examples.generous) Hpos Hfit)).
    left. split; by eexists.
  - apply (proj2 (copy_server_joins_every_worker (H := Q_FloatOps)
                    1024 1 (fun _ => Examples.dirty_slot) Examples.two_accepts
                    Examples.two_servers Examples.two_allocators
                    (Examples.empty_world Examples.exhausted) Hpos Hfit)).
    + intros [[j Hj] _]. discriminate Hj.
    + apply Exists_cons_hd. by vm_compute.
Defined.

(** ** The iterations that a loop makes *)

Section OffloadIterations.
Context `{FloatOps}.

Lemma A3_send_loop_through zc fd iov args tr :
  take (iterations (A3_Server.send_loop zc fd iov args tr)) tr
  = through (send_ends zc) tr.
Proof.
  revert args. induction tr as [|k rest IH]; intros args; [done|].
  destruct (A3_send_loop_step zc fd iov args k rest) as [issued ->].
  cbv zeta. cbn [through]. unfold send_ends, would_block.
  destruct (Z.ltb_spec (rv (decisive_answer zc k)) 0) as [Hneg|Hpos];
    cbn [andb].
  - destruct (Z.eqb_spec (err (decisive_answer zc k)) EPIPE) as [He|He];
      cbn [orb].
    { rewrite He.
      by change (negb ((EPIPE =? EAGAIN) || (EPIPE =? EWOULDBLOCK))) with true. }
    destruct (Z.eqb_spec (err (decisive_answer zc k)) ECONNRESET) as [Hr|Hr].
    { rewrite Hr.
      by change (negb ((ECONNRESET =? EAGAIN) || (ECONNRESET =? EWOULDBLOCK)))
        with true. }
    destruct ((err (decisive_answer zc k) =? EAGAIN)
              || (err (decisive_answer zc k) =? EWOULDBLOCK)); cbn [negb].
    + cbn [iterate iterations take]. by rewrite IH.
    + done.
  - cbn [iterate iterations take]. by rewrite IH.
Qed.

Lemma A3_offload_calls_through fd iov args tr :
  let r := A3_Server.send_loop true fd iov args tr in
  calls r = concat (map (offload_iteration fd iov)
                        (through (send_ends true) tr)) ∧
  iterations r = length (through (send_ends true) tr).
Proof.
  cbv zeta. destruct (A3_offload_calls fd iov args tr) as [Hcalls Hle].
  cbv zeta in Hcalls, Hle.
  rewrite <- (A3_send_loop_through true fd iov args tr). split; [done|].
  rewrite length_take. lia.
Qed.

Lemma A3_handle_client_granted args env w :
  (∀ k, (k ≤ 8)%nat -> is_Some (supply w (served w + k)%nat)) ->
  ∃ w' msg,
    A3_Server.handle_client args env w
    = Some (let r := A3_Server.send_loop (setsockopt_rv env =? 0)
                       (client_fd args)
                       (iov_of_message msg (sa_msg_size args / NUM_FIELDS))
                       (reset_sent args) (trace env) in
            mkRun (set_sa_elapsed_time (final r)
                     (d_sub (finish_time env) (start_time env)))
                  (calls r) (iterations r) (exit r), w').
Proof.
  intros Hgranted. unfold A3_Server.handle_client. cbv zeta.
  set (fs := sa_msg_size args / NUM_FIELDS).
  destruct (create_message_spec fs w) as (p & w1 & Hrun & _ & Hp).
  rewrite (bind_Some _ _ _ _ _ Hrun).
  destruct p as [m|]; cbn [is_null].
  2: { destruct Hp as [(k & Hk & Hnone) _].
       destruct (Hgranted k Hk) as [j Hj]. congruence. }
  destruct Hp as [_ [ls Hb]].
  destruct (built_load _ _ _ _ _ Hb) as [msg Hload].
  rewrite (bind_Some _ _ _ _ _ Hload).
  rewrite (bind_Some _ _ _ _ _ (free_message_built _ _ _ _ _ Hb)).
  by eexists _, msg.
Qed.

End OffloadIterations.

(** C6. With the offload enabled, the sending loop makes an iteration
    for every answer of the transport up to the first one that ends it
    (a failure of the deciding call other than [EAGAIN] /
    [EWOULDBLOCK]), and its calls are, iteration after iteration, those
    of [offload_iteration]: first the vectorized send with
    [MSG_ZEROCOPY], then, only if that call failed with [ENOBUFS] or
    [EINVAL], the same send once without the flag; the next iteration
    asks for the flag again.  So it is for the whole worker when
    [setsockopt(SO_ZEROCOPY)] returned 0 and its Message was granted:
    it is defined and sends over the [iovec] of its Message. *)
Theorem offload_requested_every_iteration `{FloatOps} :
  (∀ fd iov args tr,
     let r := A3_Server.send_loop true fd iov args tr in
     calls r = concat (map (offload_iteration fd iov)
                           (through (send_ends true) tr)) ∧
     iterations r = length (through (send_ends true) tr)) ∧
  (∀ args env w,
     setsockopt_rv env = 0 ->
     (∀ k, (k ≤ 8)%nat -> is_Some (supply w (served w + k)%nat)) ->
     ∃ r w' msg,
       A3_Server.handle_client args env w = Some (r, w') ∧
       calls r
       = concat (map (offload_iteration (client_fd args)
                        (iov_of_message msg (sa_msg_size args / NUM_FIELDS)))
                     (through (send_ends true) (trace env))) ∧
       iterations r = length (through (send_ends true) (trace env))).
Proof.
  split.
  - intros. apply A3_offload_calls_through.
  - intros args env w Hopt Hgranted.
    destruct (A3_handle_client_granted args env w Hgranted)
      as (w' & msg & Hrun).
    rewrite Hopt in Hrun. change (0 =? 0) with true in Hrun. cbv zeta in Hrun.
    eexists _, w', msg. split; [exact Hrun|]. cbn [calls iterations].
    apply A3_offload_calls_through.
Qed.

(** The offloaded worker of [offload_refused_once]: three iterations,
    four calls. *)
Lemma offload_requested_every_iteration_witness :
  ∃ r w' msg,
    A3_Server.handle_client (H := Q_FloatOps) (Examples.server_args 1024)
      Examples.refused_once (Examples.empty_world Examples.generous)
    = Some (r, w') ∧
    calls r
    = concat (map (offload_iteration 4 (iov_of_message msg (1024 / NUM_FIELDS)))
                  (through (send_ends true) (trace Examples.refused_once))) ∧
    iterations r = length (through (send_ends true)
                                   (trace Examples.refused_once)).
Proof.
  apply (proj2 (offload_requested_every_iteration (H := Q_FloatOps))
           (Examples.server_args 1024) Examples.refused_once
           (Examples.empty_world Examples.generous)).
  - reflexivity.
  - intros k _. by eexists.
Defined.

(** ** The mean of the means *)

Lemma create_loop_leading num_threads create_rv todo i :
  create_loop num_threads create_rv todo i
  = let created := length (leading (fun j => create_rv j =? 0) (seq i todo)) in
    if (created =? todo)%nat then num_threads else Z.of_nat (i + created).
Proof.
  cbv zeta. revert i. induction todo as [|todo IH]; intros i; [done|].
  cbn [create_loop seq leading].
  destruct (create_rv i =? 0); cbn [negb length].
  - rewrite IH. cbn [Nat.eqb].
    destruct (_ =? todo)%nat; [done|]. f_equal. lia.
  - cbn [Nat.eqb]. f_equal. lia.
Qed.

Lemma leading_length {A} (P : A -> bool) (l : list A) :
  (length (leading P l) <= length l)%nat.
Proof.
  induction l as [|a l IH]; cbn [leading length]; [lia|].
  destruct (P a); cbn [length]; lia.
Qed.

Lemma create_loop_created num_threads create_rv :
  1 <= threads_created num_threads create_rv ->
  create_loop num_threads create_rv (Z.to_nat num_threads) 0
  = threads_created num_threads create_rv.
Proof.
  unfold threads_created. intros Hn. rewrite create_loop_leading. cbv zeta.
  pose proof (leading_length (fun j => create_rv j =? 0)
                (seq 0 (Z.to_nat num_threads))) as Hle.
  rewrite length_seq in Hle.
  destruct (Nat.eqb_spec
              (length (leading (fun j => create_rv j =? 0)
                         (seq 0 (Z.to_nat num_threads))))
              (Z.to_nat num_threads)) as [Heq|Hne]; [|done].
  rewrite Heq in *. lia.
Qed.

Lemma leading_all {A} (P : A -> bool) (l : list A) :
  Forall (fun a => P a = true) l -> leading P l = l.
Proof.
  induction 1 as [|a l Ha _ IH]; cbn [leading]; [done|]. by rewrite Ha, IH.
Qed.

Lemma leading_until {A} (P : A -> bool) (pre : list A) a post :
  Forall (fun a => P a = true) pre -> P a = false ->
  leading P (pre ++ a :: post) = pre.
Proof.
  intros Hpre Ha. induction Hpre as [|b pre Hb _ IH]; cbn [leading app].
  - by rewrite Ha.
  - by rewrite Hb, IH.
Qed.

Lemma alloc_buffers_forallb ok todo i :
  A2_Client.alloc_buffers ok todo i = forallb ok (seq i todo).
Proof.
  revert i. induction todo as [|todo IH]; intros i; [done|].
  cbn [A2_Client.alloc_buffers seq forallb]. destruct (ok i); [apply IH|done].
Qed.

Section Means.
Context `{FloatOps}.

Lemma latencies_app evs evs' :
  latencies (evs ++ evs') = latencies evs ++ latencies evs'.
Proof. unfold latencies. by rewrite filter_app, map_app. Qed.

Lemma count_positive_latencies call evs :
  count_positive (map (fun ev => (call, received ev)) evs)
  = Z.of_nat (length (latencies evs)).
Proof.
  induction evs as [|ev evs IH]; [done|].
  cbn [map]. rewrite count_positive_cons, latencies_cons. cbn [snd].
  destruct (0 <? rv (received ev)); cbn [length]; lia.
Qed.

(** The receives that count are those before the answer that ends the
    loop. *)
Lemma recv_stops_leading tr (r : run ClientThreadArgs) :
  recv_stops tr r ->
  latencies (take (iterations r) tr) = latencies (leading goes_on tr).
Proof.
  assert (∀ evs,
    Forall (fun ev => 0 < rv (received ev) ∨ interrupted (received ev)) evs ->
    Forall (fun ev => goes_on ev = true) evs) as Hgo.
  { intros evs Hall. eapply Forall_impl; [exact Hall|].
    intros ev [Hpos|[Hneg He]]; unfold goes_on.
    - apply orb_true_iff. left. by apply Z.ltb_lt.
    - apply orb_true_iff. right. apply andb_true_iff.
      split; [by apply Z.ltb_lt|by apply Z.eqb_eq]. }
  unfold recv_stops. destruct (exit r) as [| |e|]; cbn [stops_at].
  - intros [Hall ->]. by rewrite firstn_all, (leading_all _ _ (Hgo _ Hall)).
  - intros (pre & ev & post & -> & Hall & -> & Hz).
    rewrite (leading_until goes_on pre ev post (Hgo _ Hall)).
    2: { unfold goes_on. rewrite Hz. done. }
    replace (pre ++ ev :: post) with ((pre ++ [ev]) ++ post)
      by (by rewrite <- app_assoc).
    replace (S (length pre)) with (length (pre ++ [ev]))
      by (rewrite length_app; cbn [length]; lia).
    rewrite take_app_length, latencies_app, latencies_cons, Hz.
    by rewrite app_nil_r.
  - intros (pre & ev & post & -> & Hall & -> & Hneg & He & Hne).
    rewrite (leading_until goes_on pre ev post (Hgo _ Hall)).
    2: { unfold goes_on. apply orb_false_iff. split.
         - apply Z.ltb_ge. lia.
         - apply andb_false_iff. right. apply Z.eqb_neq. congruence. }
    replace (pre ++ ev :: post) with ((pre ++ [ev]) ++ post)
      by (by rewrite <- app_assoc).
    replace (S (length pre)) with (length (pre ++ [ev]))
      by (rewrite length_app; cbn [length]; lia).
    rewrite take_app_length, latencies_app, latencies_cons.
    destruct (Z.ltb_spec 0 (rv (received ev))); [lia|]. by rewrite app_nil_r.
  - done.
Qed.

Lemma latencies_length evs : (length (latencies evs) <= length evs)%nat.
Proof.
  unfold latencies. rewrite length_map. apply length_filter.
Qed.

(** The mean that a worker merges, from what its loop leaves. *)
Lemma recv_loop_mean (r : run ClientThreadArgs) call tr t :
  recv_stops tr r ->
  total_latency (final r)
  = fold_left d_add (latencies (take (iterations r) tr)) d_zero ->
  calls r = map (fun ev => (call, received ev)) (take (iterations r) tr) ->
  messages_received (final r) = wrap64 (0 + count_positive (calls r)) ->
  Z.of_nat (length tr) < ULONG_MODULUS ->
  avg_latency (set_ca_elapsed_time (final r) t)
  = mean_latency (latencies (leading goes_on tr)).
Proof.
  intros Hstops Hl Hcalls Hm Hlen. unfold avg_latency.
  cbn [set_ca_elapsed_time messages_received total_latency].
  rewrite Hm, Hcalls, count_positive_latencies, Hl.
  rewrite (recv_stops_leading tr r Hstops).
  pose proof (latencies_length (leading goes_on tr)) as Hle.
  pose proof (leading_length goes_on tr) as Hle'.
  rewrite wrap64_small by (clear -Hle Hle' Hlen; lia).
  destruct (latencies (leading goes_on tr)) as [|x ls]; [done|].
  cbn [mean_latency]. rewrite Z.add_0_l.
  destruct (Z.ltb_spec 0 (Z.of_nat (length (x :: ls)))) as [_|Hno]; [done|].
  cbn [length] in Hno. lia.
Qed.

Lemma A1_worker_mean args env :
  Z.of_nat (length (c_trace env)) < ULONG_MODULUS ->
  worker_mean A1_Client.client_thread args env
  = if connects 1 env
    then Some (mean_latency (latencies (leading goes_on (c_trace env))))
    else None.
Proof.
  intros Hlen. unfold worker_mean, A1_Client.client_thread, connects.
  cbv zeta. cbn [seq forallb]. rewrite andb_true_r.
  destruct (Z.ltb_spec (socket_rv env) 0), (Z.leb_spec 0 (socket_rv env));
    try lia; [done|].
  destruct (Z.leb_spec (inet_pton_rv env) 0), (Z.ltb_spec 0 (inet_pton_rv env));
    try lia; [done|].
  destruct (Z.ltb_spec (connect_rv env) 0), (Z.leb_spec 0 (connect_rv env));
    try lia; [done|].
  destruct (alloc_ok env 0%nat); [|done]. cbn [andb negb fst exit final].
  match goal with
  | |- context [A1_Client.recv_loop ?c ?a ?t] =>
      pose proof (A1_recv_loop_started c a t) as Hs;
      pose proof (A1_recv_loop_stops c a t) as Hstops;
      destruct (A1_recv_loop_latency c a t) as (Hl & Hcalls & _);
      destruct (A1_recv_loop_counts c a t ltac:(by split)) as [_ Hm];
      cbv zeta in Hl, Hcalls, Hm;
      rewrite (recv_loop_mean _ c t _ Hstops Hl Hcalls Hm Hlen);
      by destruct (exit (A1_Client.recv_loop c a t))
  end.
Qed.

Lemma A2_worker_mean args env :
  Z.of_nat (length (c_trace env)) < ULONG_MODULUS ->
  worker_mean A2_Client.client_thread args env
  = if connects 8 env
    then Some (mean_latency (latencies (leading goes_on (c_trace env))))
    else None.
Proof.
  intros Hlen. unfold worker_mean, A2_Client.client_thread, connects.
  cbv zeta. rewrite alloc_buffers_forallb.
  change (Z.to_nat NUM_FIELDS) with 8%nat.
  destruct (Z.ltb_spec (socket_rv env) 0), (Z.leb_spec 0 (socket_rv env));
    try lia; [done|].
  destruct (Z.leb_spec (inet_pton_rv env) 0), (Z.ltb_spec 0 (inet_pton_rv env));
    try lia; [done|].
  destruct (Z.ltb_spec (connect_rv env) 0), (Z.leb_spec 0 (connect_rv env));
    try lia; [done|].
  destruct (forallb (alloc_ok env) (seq 0 8)); [|done].
  cbn [andb negb fst exit final].
  match goal with
  | |- context [A2_Client.recv_loop ?c ?a ?t] =>
      pose proof (A2_recv_loop_started c a t) as Hs;
      pose proof (A2_recv_loop_stops c a t) as Hstops;
      destruct (A2_recv_loop_latency c a t) as (Hl & Hcalls & _);
      destruct (A2_recv_loop_counts c a t ltac:(by split)) as [_ Hm];
      cbv zeta in Hl, Hcalls, Hm;
      rewrite (recv_loop_mean _ c t _ Hstops Hl Hcalls Hm Hlen);
      by destruct (exit (A2_Client.recv_loop c a t))
  end.
Qed.

Lemma A3_worker_mean args env :
  Z.of_nat (length (c_trace env)) < ULONG_MODULUS ->
  worker_mean A3_Client.client_thread args env
  = if connects 1 env
    then Some (mean_latency (latencies (leading goes_on (c_trace env))))
    else None.
Proof.
  intros Hlen. unfold worker_mean, A3_Client.client_thread, connects.
  cbv zeta. cbn [seq forallb]. rewrite andb_true_r.
  destruct (Z.ltb_spec (socket_rv env) 0), (Z.leb_spec 0 (socket_rv env));
    try lia; [done|].
  destruct (Z.leb_spec (inet_pton_rv env) 0), (Z.ltb_spec 0 (inet_pton_rv env));
    try lia; [done|].
  destruct (Z.ltb_spec (connect_rv env) 0), (Z.leb_spec 0 (connect_rv env));
    try lia; [done|].
  destruct (alloc_ok env 0%nat); [|done]. cbn [andb negb fst exit final].
  match goal with
  | |- context [A3_Client.recv_loop ?c ?a ?t] =>
      pose proof (A3_recv_loop_started c a t) as Hs;
      pose proof (A3_recv_loop_stops c a t) as Hstops;
      destruct (A3_recv_loop_latency c a t) as (Hl & Hcalls & _);
      destruct (A3_recv_loop_counts c a t ltac:(by split)) as [_ Hm];
      cbv zeta in Hl, Hcalls, Hm;
      rewrite (recv_loop_mean _ c t _ Hstops Hl Hcalls Hm Hlen);
      by destruct (exit (A3_Client.recv_loop c a t))
  end.
Qed.

(** The means that a client adds up are those of the workers that
    connected, one for each. *)
Lemma reported_means_workers client_thread buffers msg_size duration slots
    envs lock_order :
  (∀ args env, Z.of_nat (length (c_trace env)) < ULONG_MODULUS ->
     worker_mean client_thread args env
     = if connects buffers env
       then Some (mean_latency (latencies (leading goes_on (c_trace env))))
       else None) ->
  Forall (fun i => Z.of_nat (length (c_trace (envs i))) < ULONG_MODULUS)
         lock_order ->
  omap (fun i => worker_mean client_thread
                   (init_client_slot (slots i) i msg_size duration) (envs i))
       lock_order
  = reported_means buffers envs lock_order.
Proof.
  intros Hmean Hall. unfold reported_means.
  induction Hall as [|i rest Hi _ IH]; [done|].
  change (omap ?f (i :: rest))
    with (match f i with Some y => y :: omap f rest | None => omap f rest end).
  by rewrite IH, (Hmean _ _ Hi).
Qed.

Lemma reported_means_length buffers envs lock_order :
  length (reported_means buffers envs lock_order)
  = length (filter (fun i => connects buffers (envs i) = true) lock_order).
Proof.
  unfold reported_means. induction lock_order as [|i rest IH]; [done|].
  change (omap ?f (i :: rest))
    with (match f i with Some y => y :: omap f rest | None => omap f rest end).
  rewrite filter_cons.
  destruct (connects buffers (envs i)) eqn:Hc.
  - rewrite decide_True by done. cbn [length]. by rewrite IH.
  - rewrite decide_False by done. exact IH.
Qed.

End Means.

(** C1. In each of the three clients, for every run in which [main]
    created at least one worker thread (and no worker made [2^64]
    receives), whatever the order in which the workers take
    [metrics_mutex]: the average latency that [main] reports is the sum,
    in the order of the lock, of one mean for every created worker that
    connected, divided by the number of threads created.  The mean of a
    worker is the sum of the latencies of its receives that delivered
    data, before the answer that ended its loop, over their number, and
    0 if there is none. *)
Theorem average_latency_is_mean_of_worker_means `{FloatOps}
    (num_threads msg_size duration : Z) (create_rv : nat -> Z)
    (slots : nat -> ClientThreadArgs) (envs : nat -> client_env)
    (lock_order : list nat) :
  let n := threads_created num_threads create_rv in
  let mean_of_means (buffers : nat) (report : Metrics) :=
    avg_latency_us report
    = d_div (sum_double (reported_means buffers envs lock_order)) (d_of_Z n) ∧
    length (reported_means buffers envs lock_order)
    = length (filter (fun i => connects buffers (envs i) = true)
                     (seq 0 (Z.to_nat n))) in
  1 <= n ->
  lock_order ≡ₚ seq 0 (Z.to_nat n) ->
  Forall (fun i => Z.of_nat (length (c_trace (envs i))) < ULONG_MODULUS)
         lock_order ->
  mean_of_means 1%nat
    (A1_Client.main num_threads msg_size duration create_rv slots envs
       lock_order) ∧
  mean_of_means 8%nat
    (A2_Client.main num_threads msg_size duration create_rv slots envs
       lock_order) ∧
  mean_of_means 1%nat
    (A3_Client.main num_threads msg_size duration create_rv slots envs
       lock_order).
Proof.
  intros n mean_of_means Hn Hperm Hlen. unfold mean_of_means, n in *.
  assert (∀ buffers,
    length (reported_means buffers envs lock_order)
    = length (filter (fun i => connects buffers (envs i) = true)
                (seq 0 (Z.to_nat (threads_created num_threads create_rv)))))
    as Hcount.
  { intros buffers. rewrite reported_means_length. by rewrite Hperm. }
  split; [|split]; (split; [|apply Hcount]).
  - unfold A1_Client.main.
    rewrite (client_main_avg_latency _ A1_client_thread_local
               A1_client_thread_merge).
    rewrite (create_loop_created _ _ Hn).
    by rewrite (reported_means_workers _ 1 _ _ _ _ _ A1_worker_mean Hlen).
  - unfold A2_Client.main.
    rewrite (client_main_avg_latency _ A2_client_thread_local
               A2_client_thread_merge).
    rewrite (create_loop_created _ _ Hn).
    by rewrite (reported_means_workers _ 8 _ _ _ _ _ A2_worker_mean Hlen).
  - unfold A3_Client.main.
    rewrite (client_main_avg_latency _ A3_client_thread_local
               A3_client_thread_merge).
    rewrite (create_loop_created _ _ Hn).
    by rewrite (reported_means_workers _ 1 _ _ _ _ _ A3_worker_mean Hlen).
Qed.

(** Three workers asked for, of which the third cannot be created, in
    the copy-based client: one call of 10 µs for the first worker,
    three calls of 20 µs for the second.  The report is 15 µs, the mean
    of the two means, and not the 17.5 µs of the mean over the four
    calls. *)
Lemma average_latency_is_mean_of_worker_means_witness :
  let create_rv (i : nat) := if (i =? 2)%nat then 11 else 0 in
  threads_created 3 create_rv = 2 ∧
  [1%nat; 0%nat] ≡ₚ seq 0 (Z.to_nat (threads_created 3 create_rv)) ∧
  Qeq (avg_latency_us
         (A1_Client.main 3 1024 2 create_rv
            (fun _ => Examples.client_args 0) Examples.two_workers
            [1%nat; 0%nat]))
      15%Q ∧
  ¬ Qeq (avg_latency_us
           (A1_Client.main 3 1024 2 create_rv
              (fun _ => Examples.client_args 0) Examples.two_workers
              [1%nat; 0%nat]))
        (70 # 4)%Q.
Proof.
  cbv zeta.
  assert (1 <= threads_created 3 (fun i => if (i =? 2)%nat then 11 else 0))
    as Hn by (by vm_compute).
  assert ([1%nat; 0%nat]
          ≡ₚ seq 0 (Z.to_nat (threads_created 3
                                (fun i => if (i =? 2)%nat then 11 else 0))))
    as Hp by (apply perm_swap).
  assert (Forall (fun i => Z.of_nat (length (c_trace (Examples.two_workers i)))
                           < ULONG_MODULUS) [1%nat; 0%nat]) as Hlen
    by (repeat constructor).
  split; [reflexivity|]. split; [exact Hp|].
  destruct (average_latency_is_mean_of_worker_means (H := Q_FloatOps)
              3 1024 2 (fun i => if (i =? 2)%nat then 11 else 0)
              (fun _ => Examples.client_args 0)
              Examples.two_workers [1%nat; 0%nat] Hn Hp Hlen)
    as ((-> & _) & _ & _).
  split; by vm_compute.
Defined.
